(** * SIR epidemic integrator of [sirn_data_generator.py]

    A shallow embedding of [generate_sirn_data] (and of the identical
    sub-step loop of [run_demo] in [dynamic_visualization.py]).

    Numbers.  Python [int]s are [Z].  Python [float]s are modelled by the
    exact rationals [Q]: every arithmetic operation is the exact one, there
    is no rounding, overflow or NaN.  Numerical equality of two floats is
    [Qeq] ([==]); two rationals that print differently may be [==].

    Exceptions.  A division whose divisor is zero raises
    [ZeroDivisionError], [range] with a zero step and [list.index] of an
    absent element raise [ValueError], a list index out of range raises
    [IndexError].  Fallible code lives in the [result] monad.

    Randomness.  The global NumPy generator is an abstract state [rng]
    threaded explicitly through the code that draws from it; [random.seed]
    seeds a generator the function never draws from and is left out.

    Dictionaries.  [data] is a [gmap] from [str(city)] to a [gmap] from
    [str(t)] to the four-element list [[S, I, R, N]].

    Left out: the JSON dump under [output_file], and the fact that the
    padding of [custom_populations] appends to the caller's list.

    The visualizer of [dynamic_visualization.py] follows the generator:
    scrolling, the grid, the heatmap arrays, the reading of a data file,
    and the bookkeeping of [SIRNVisualizer] with the two ways of showing a
    file.  What matplotlib draws is left out. *)

From Stdlib Require Import ZArith QArith Qabs Qminmax Qreduction Lqa Lia List.
From Stdlib Require Import String DecimalString DecimalZ PrimFloat.
From stdpp Require Import gmap strings sorting.

Local Open Scope Q_scope.

(** ** Exceptions and the [result] monad *)

Inductive exn : Set := ZeroDivisionError | ValueError | IndexError.

Inductive result (A : Type) : Type :=
| Ok (a : A)
| Raise (e : exn).

Arguments Ok {A} a.
Arguments Raise {A} e.

Definition bind {A B : Type} (c : result A) (k : A -> result B) : result B :=
  match c with
  | Ok a => k a
  | Raise e => Raise e
  end.

Notation "x <- c ;; k" := (bind c (fun x => k))
  (at level 100, c at next level, right associativity).

Definition is_ok {A : Type} (c : result A) : Prop :=
  match c with Ok _ => True | Raise _ => False end.

(** [x / y] on Python numbers. *)
Definition pydiv (x y : Q) : result Q :=
  if Qeq_bool y 0 then Raise ZeroDivisionError else Ok (x / y).

(** ** The three compartments *)

Record compartments : Set := SIR { cS : Q; cI : Q; cR : Q }.

Definition total (st : compartments) : Q := cS st + cI st + cR st.

(** Numerical equality of two states. *)
Definition sir_eq (a b : compartments) : Prop :=
  cS a == cS b /\ cI a == cI b /\ cR a == cR b.

Definition nonneg (st : compartments) : Prop :=
  0 <= cS st /\ 0 <= cI st /\ 0 <= cR st.

(** ** One sub-step (lines 110-128 of [sirn_data_generator.py]) *)

(** Lines 110-116: the derivatives and the explicit Euler update. *)
Definition euler_update (N sub_dt beta gamma : Q) (st : compartments)
  : result compartments :=
  let s := cS st in
  let i := cI st in
  let r := cR st in
  q1 <- pydiv (- beta * s * i) N ;;
  let dS := q1 * sub_dt in
  q2 <- pydiv (beta * s * i) N ;;
  let dI := (q2 - gamma * i) * sub_dt in
  let dR := gamma * i * sub_dt in
  Ok (SIR (s + dS) (i + dI) (r + dR)).

(** Lines 119-121: [max(0, x)] on each compartment. *)
Definition clamp (st : compartments) : compartments :=
  SIR (Qmax 0 (cS st)) (Qmax 0 (cI st)) (Qmax 0 (cR st)).

(** The drift threshold [1e-9] of line 125. *)
Definition drift_tolerance : Q := 1 # 1000000000.

(** Lines 124-128: rescale to sum [N] when the drift exceeds the threshold. *)
Definition renormalize (N : Q) (st : compartments) : result compartments :=
  let tot := cS st + cI st + cR st in
  if Qlt_le_dec drift_tolerance (Qabs (tot - N)) then
    s' <- pydiv (cS st * N) tot ;;
    i' <- pydiv (cI st * N) tot ;;
    r' <- pydiv (cR st * N) tot ;;
    Ok (SIR s' i' r')
  else Ok st.

(** Lines 110-121, before the renormalization. *)
Definition update_and_clamp (N sub_dt beta gamma : Q) (st : compartments)
  : result compartments :=
  st1 <- euler_update N sub_dt beta gamma st ;;
  Ok (clamp st1).

Definition substep (N sub_dt beta gamma : Q) (st : compartments)
  : result compartments :=
  st1 <- update_and_clamp N sub_dt beta gamma st ;;
  renormalize N st1.

Definition num_substeps : nat := 10.

(** ** Python helpers used by the generator *)

(** [str(z)] for an [int]. *)
Definition str (z : Z) : string := NilEmpty.string_of_int (Z.to_int z).

(** [len(range(start, stop, step))] for a non-zero step. *)
Definition range_len (start stop step : Z) : Z :=
  if (0 <? step)%Z then
    if (start <? stop)%Z then ((stop - start - 1) / step + 1)%Z else 0%Z
  else
    if (stop <? start)%Z then ((start - stop - 1) / (- step) + 1)%Z else 0%Z.

(** [list(range(start, stop, step))]. *)
Definition py_range (start stop step : Z) : result (list Z) :=
  if (step =? 0)%Z then Raise ValueError
  else Ok (map (fun k => (start + Z.of_nat k * step)%Z)
               (seq 0 (Z.to_nat (range_len start stop step)))).

(** [list(range(n))]. *)
Definition range (n : Z) : list Z := map Z.of_nat (seq 0 (Z.to_nat n)).

(** [l.index(t)]: the first position of [t], [ValueError] when absent. *)
Fixpoint index (t : Z) (l : list Z) : result nat :=
  match l with
  | [] => Raise ValueError
  | x :: l' => if (x =? t)%Z then Ok O else (k <- index t l' ;; Ok (S k))
  end.

(** [l[i]]; a negative index counts from the end. *)
Definition getitem (l : list Z) (i : Z) : result Z :=
  let j := if (i <? 0)%Z then (i + Z.of_nat (length l))%Z else i in
  if (j <? 0)%Z then Raise IndexError
  else match l !! Z.to_nat j with
       | Some x => Ok x
       | None => Raise IndexError
       end.

(** ** Arguments of [generate_sirn_data]

    [output_file] only triggers the JSON dump of the returned dictionary and
    is left out. *)

Record args : Type := Args {
  num_cities : Z;
  max_time : Z;
  time_step : Z;
  initial_infected : Z;
  vary_params : bool;
  custom_populations : option (list Z);
  random_seed : option Z;
  stochastic : bool
}.

(** The defaults of the signature. *)
Definition default_args : args :=
  {| num_cities := 3; max_time := 100; time_step := 10;
     initial_infected := 1; vary_params := true;
     custom_populations := None; random_seed := None;
     stochastic := false |}.

(** Lines 44-52: the default population of city [i]. *)
Definition default_population (num_cities i : Z) : Z :=
  if (i <? num_cities / 3)%Z then 100%Z
  else if (i <? 2 * num_cities / 3)%Z then 200%Z
  else 500%Z.

(** Lines 44-56: [custom_populations] after the defaults and the padding. *)
Definition fill_populations (num_cities : Z) (custom : option (list Z))
  : list Z :=
  let pops :=
    match custom with
    | None => map (default_population num_cities) (range num_cities)
    | Some l => l
    end in
  pops ++ repeat 100%Z (Z.to_nat (num_cities - Z.of_nat (length pops))).

(** Lines 89-91. *)
Definition make_time_points (max_time time_step : Z) : result (list Z) :=
  time_points <- py_range time_step (max_time + 1) time_step ;;
  if negb (existsb (Z.eqb max_time) time_points)
     && negb (max_time mod time_step =? 0)%Z
  then Ok (time_points ++ [max_time])
  else Ok time_points.

(** Line 95. *)
Definition previous_point (time_points : list Z) (t : Z) : result Z :=
  idx <- index t time_points ;;
  if (0 <? idx)%nat then
    idx' <- index t time_points ;;
    getitem time_points (Z.of_nat idx' - 1)
  else Ok 0%Z.

(** Lines 75-83. *)
Definition base_rates (vary : bool) (city : Z) : Q * Q :=
  if vary then (0.2 + 0.05 * inject_Z city, 0.1 + 0.01 * inject_Z city)
  else (0.3, 0.1).

(** One recorded data point [[S, I, R, N]]. *)
Definition record (st : compartments) (N : Q) : list Q :=
  [cS st; cI st; cR st; N].

Section Generator.

(** The state of NumPy's global generator, [np.random.normal(loc, scale)]
    and [np.random.seed(s)], which rejects some seeds. *)
Context {rng : Type}.
Variable normal : Q -> Q -> rng -> Q * rng.
Variable seed : Z -> result rng.

(** Lines 103-108: the rates of one sub-step. *)
Definition draw_rates (stochastic : bool) (beta_base gamma_base : Q)
    (g : rng) : Q * Q * rng :=
  if stochastic then
    let '(n1, g1) := normal 0 0.05 g in
    let beta := beta_base * (1 + n1) in
    let '(n2, g2) := normal 0 0.05 g1 in
    let gamma := gamma_base * (1 + n2) in
    (beta, gamma, g2)
  else (beta_base, gamma_base, g).

(** Lines 101-128: [n] iterations of the sub-step loop. *)
Fixpoint sub_step_loop (stochastic : bool) (N sub_dt beta_base gamma_base : Q)
    (n : nat) (st : compartments) (g : rng)
  : result (compartments * rng) :=
  match n with
  | O => Ok (st, g)
  | S n' =>
      let '(beta, gamma, g1) := draw_rates stochastic beta_base gamma_base g in
      st1 <- substep N sub_dt beta gamma st ;;
      sub_step_loop stochastic N sub_dt beta_base gamma_base n' st1 g1
  end.

(** Lines 96-128: the state at [t] from the state at [previous_t], in [n]
    sub-steps ([n] is [num_substeps] in the source). *)
Definition step (stochastic : bool) (N beta_base gamma_base : Q)
    (previous_t t : Z) (n : nat) (st : compartments) (g : rng)
  : result (compartments * rng) :=
  let dt := (t - previous_t)%Z in
  sub_dt <- pydiv (inject_Z dt) (inject_Z (Z.of_nat n)) ;;
  sub_step_loop stochastic N sub_dt beta_base gamma_base n st g.

(** Lines 93-131: the loop over the time points still to do. *)
Fixpoint time_loop (stochastic : bool) (N beta_base gamma_base : Q)
    (time_points todo : list Z) (st : compartments)
    (series : gmap string (list Q)) (g : rng)
  : result (compartments * gmap string (list Q) * rng) :=
  match todo with
  | [] => Ok (st, series, g)
  | t :: rest =>
      previous_t <- previous_point time_points t ;;
      p <- step stochastic N beta_base gamma_base previous_t t
             num_substeps st g ;;
      let '(st1, g1) := p in
      time_loop stochastic N beta_base gamma_base time_points rest st1
        (<[str t := record st1 N]> series) g1
  end.

(** Lines 60-131: the series of one city. *)
Definition city_series (a : args) (populations : list Z) (city : Z)
    (g : rng) : result (gmap string (list Q) * rng) :=
  population <- getitem populations city ;;
  let N := (population + initial_infected a)%Z in
  let S0 := (N - initial_infected a)%Z in
  let I0 := initial_infected a in
  let R0 := 0%Z in
  let st0 := SIR (inject_Z S0) (inject_Z I0) (inject_Z R0) in
  let series : gmap string (list Q) :=
    <["0"%string := record st0 (inject_Z N)]> ∅ in
  let '(beta_base, gamma_base) := base_rates (vary_params a) city in
  time_points <- make_time_points (max_time a) (time_step a) ;;
  p <- time_loop (stochastic a) (inject_Z N) beta_base gamma_base
         time_points time_points st0 series g ;;
  let '(_, series', g') := p in
  Ok (series', g').

(** Lines 59-131: the loop over the cities still to do. *)
Fixpoint city_loop (a : args) (populations : list Z) (todo : list Z)
    (data : gmap string (gmap string (list Q))) (g : rng)
  : result (gmap string (gmap string (list Q)) * rng) :=
  match todo with
  | [] => Ok (data, g)
  | city :: rest =>
      p <- city_series a populations city g ;;
      let '(series, g1) := p in
      city_loop a populations rest (<[str city := series]> data) g1
  end.

(** The whole function, from the generator state [g0] at the call. *)
Definition generate_sirn_data (a : args) (g0 : rng)
  : result (gmap string (gmap string (list Q)) * rng) :=
  g <- match random_seed a with Some s => seed s | None => Ok g0 end ;;
  let populations := fill_populations (num_cities a) (custom_populations a) in
  city_loop a populations (range (num_cities a)) ∅ g.

End Generator.

(** ** The sub-step on binary64 floats

    The same lines 110-128 on IEEE binary64 numbers, as the interpreter
    executes them.  It is used to evaluate concrete inputs only; the general
    properties below are about the exact-arithmetic model. *)

Module Binary64.

#[local] Set Warnings "-inexact-float".
Local Open Scope float_scope.

Record compartments64 : Set := SIR64 { fS : float; fI : float; fR : float }.

Definition pydiv64 (x y : float) : result float :=
  if y =? 0 then Raise ZeroDivisionError else Ok (x / y).

(** [max(0, x)]: [x] when [x > 0], else [0]. *)
Definition max0 (x : float) : float := if 0 <? x then x else 0.

Definition substep64 (N sub_dt beta gamma : float) (st : compartments64)
  : result compartments64 :=
  let s := fS st in
  let i := fI st in
  let r := fR st in
  q1 <- pydiv64 (- beta * s * i) N ;;
  let dS := q1 * sub_dt in
  q2 <- pydiv64 (beta * s * i) N ;;
  let dI := (q2 - gamma * i) * sub_dt in
  let dR := gamma * i * sub_dt in
  let s := max0 (s + dS) in
  let i := max0 (i + dI) in
  let r := max0 (r + dR) in
  let tot := s + i + r in
  if 1e-9 <? abs (tot - N) then
    s' <- pydiv64 (s * N) tot ;;
    i' <- pydiv64 (i * N) tot ;;
    r' <- pydiv64 (r * N) tot ;;
    Ok (SIR64 s' i' r')
  else Ok (SIR64 s i r).

Fixpoint substeps64 (N sub_dt beta gamma : float) (n : nat)
    (st : compartments64) : result compartments64 :=
  match n with
  | O => Ok st
  | S n' => st1 <- substep64 N sub_dt beta gamma st ;;
            substeps64 N sub_dt beta gamma n' st1
  end.

(** The reference scenario: ten sub-steps of size [10 / 10] from
    [S = 100], [I = 1], [R = 0] with [N = 101], [beta = 0.3], [gamma = 0.1];
    and its three conditions on the result. *)
Definition scenario : result compartments64 :=
  substeps64 101 (10 / 10) 0.3 0.1 10 (SIR64 100 1 0).

Definition scenario_check (st : compartments64) : bool :=
  (fS st <? 100) && (1 <? fI st)
  && (abs (fS st + fI st + fR st - 101) <=? 1e-6).

End Binary64.

(** ** Predicates and auxiliary definitions *)

(** The computation returns, and its value satisfies [P]. *)
Definition ensures {A : Type} (c : result A) (P : A -> Prop) : Prop :=
  match c with Ok a => P a | Raise _ => False end.

(** Two results agree up to a relation on their values. *)
Definition result_rel {A : Type} (R : A -> A -> Prop) (r1 r2 : result A)
  : Prop :=
  match r1, r2 with
  | Ok a, Ok b => R a b
  | Raise e1, Raise e2 => e1 = e2
  | _, _ => False
  end.

(** The value returned next to the generator state. *)
Definition data_of {A G : Type} (r : result (A * G)) : result A :=
  p <- r ;; Ok (fst p).

(** Two runs returned the same value and left their generator states [g1]
    and [g2] as they found them. *)
Definition same_value {A G : Type} (g1 g2 : G) (x y : A * G) : Prop :=
  fst x = fst y /\ snd x = g1 /\ snd y = g2.

(** The drift of the sum from [N] is within the threshold of line 125. *)
Definition conserved (N : Q) (st : compartments) : Prop :=
  Qabs (total st - N) <= drift_tolerance.

(** The tolerance [1e-6] of the conservation property. *)
Definition conservation_tolerance : Q := 1 # 1000000.

(** The state produced by lines 110-116 when [N] is not zero. *)
Definition euler (N sub_dt beta gamma : Q) (st : compartments) : compartments :=
  SIR (cS st + - beta * cS st * cI st / N * sub_dt)
      (cI st + (beta * cS st * cI st / N - gamma * cI st) * sub_dt)
      (cR st + gamma * cI st * sub_dt).

(** The state produced by lines 126-128 when the total is not zero. *)
Definition rescaled (N : Q) (st : compartments) : compartments :=
  SIR (cS st * N / total st) (cI st * N / total st) (cR st * N / total st).

(** The non-stochastic loop without the generator state. *)
Fixpoint substeps (N sub_dt beta gamma : Q) (n : nat) (st : compartments)
  : result compartments :=
  match n with
  | O => Ok st
  | S n' => st1 <- substep N sub_dt beta gamma st ;;
            substeps N sub_dt beta gamma n' st1
  end.

(** The outcome of a loop started from [st]: it completed with non-negative
    compartments, or it raised [ZeroDivisionError] and [st] was all zero. *)
Definition completes_nonneg {G : Type} (st : compartments)
    (r : result (compartments * G)) : Prop :=
  match r with
  | Ok out => nonneg (fst out)
  | Raise e => e = ZeroDivisionError /\ total st == 0
  end.

(** The population of a city as the caller supplied it: the entry of
    [custom_populations] when there is one, 100 when the supplied list is too
    short, and the default by city index when no list is supplied. *)
Definition city_population (a : args) (city : Z) : Z :=
  match custom_populations a with
  | None => default_population (num_cities a) city
  | Some l => nth (Z.to_nat city) l 100%Z
  end.

(** Every record of a series carries the total [N], and the series has a
    record at time 0. *)
Definition series_total (N : Q) (series : gmap string (list Q)) : Prop :=
  is_Some (series !! "0"%string) /\
  forall (t_str : string) (rec : list Q),
    series !! t_str = Some rec -> rec !! 3%nat = Some N.

(** Arguments on which the generator is meant to run: a non-zero time step,
    and for every city a non-negative population and initial infected count
    that are not both zero. *)
Definition valid_args (a : args) : Prop :=
  time_step a <> 0%Z /\
  (0 <= initial_infected a)%Z /\
  forall city, (0 <= city < num_cities a)%Z ->
    (0 <= city_population a city)%Z /\
    (0 < city_population a city + initial_infected a)%Z.

(** A toy generator for closed examples: its state is a counter, each draw
    returns the counter (scaled) and advances it, and a negative seed is
    rejected. *)
Definition counter_normal (loc scale : Q) (g : nat) : Q * nat :=
  (loc + scale * inject_Z (Z.of_nat g), S g).

Definition counter_seed (s : Z) : result nat :=
  if (s <? 0)%Z then Raise ValueError else Ok (Z.to_nat s).

(** ** Predicates for the further properties *)

(** A recorded data point [[S, I, R, N]] with non-negative compartments, a
    positive total, and a sum within the drift threshold of [N]. *)
Definition good_record (rec : list Q) : Prop :=
  exists s i r N : Q,
    rec = [s; i; r; N] /\ 0 <= s /\ 0 <= i /\ 0 <= r /\ 0 < N /\
    Qabs (s + i + r - N) <= drift_tolerance.

(** * The visualizer of [dynamic_visualization.py]

    Only the computations of [SIRNVisualizer] are embedded: scrolling, the
    grid layout, the percentage arrays of the heatmaps, the tick labels, and
    the bookkeeping of cities, time steps and data points.  Calls into
    matplotlib draw and return; they are left out. *)

(** ** Scrolling (lines 46-47 and 111-158) *)

(** [self.scroll_step], set once in [__init__]. *)
Definition scroll_step : Q := 0.1.

(** [_on_scroll]: the scroll position after a wheel event with the given
    [event.button]. *)
Definition on_scroll (button : string) (scroll_pos : Q) : Q :=
  if String.eqb button "up" then Qmax 0 (scroll_pos - scroll_step)
  else if String.eqb button "down" then Qmin 1 (scroll_pos + scroll_step)
  else scroll_pos.

(** [_on_key]: the scroll position after a key press with the given
    [event.key]. *)
Definition on_key (key : string) (scroll_pos : Q) : Q :=
  if String.eqb key "up" then Qmax 0 (scroll_pos - scroll_step)
  else if String.eqb key "down" then Qmin 1 (scroll_pos + scroll_step)
  else if String.eqb key "home" then 0
  else if String.eqb key "end" then 1
  else scroll_pos.

Inductive gui_event : Set :=
| ScrollEvent (button : string)
| KeyPressEvent (key : string).

Definition handle_event (scroll_pos : Q) (ev : gui_event) : Q :=
  match ev with
  | ScrollEvent button => on_scroll button scroll_pos
  | KeyPressEvent key => on_key key scroll_pos
  end.

(** [_update_scroll]: the [top] and [bottom] passed to [subplots_adjust],
    from the figure height (a positive number of inches) and the scroll
    position. *)
Definition update_scroll (figure_height scroll_pos : Q) : Q * Q :=
  let screen_height := figure_height * 0.7 in
  let scroll_range := Qmax 0 (figure_height - screen_height) in
  let top := scroll_pos * scroll_range in
  (1 - top / figure_height,
   Qmax 0 (1 - (top + screen_height) / figure_height)).

(** ** The grid of [_setup_layout] (lines 49-104) *)

Definition pie_rows (num_cities : nat) : nat := (num_cities + 2) / 3.

Definition layout_figure_height (num_cities : nat) : Q :=
  inject_Z (8 + Z.of_nat (pie_rows num_cities) * 4).

Definition total_rows (num_cities : nat) : nat := pie_rows num_cities + 4.

Definition height_ratios (num_cities : nat) : list Q :=
  repeat 4 (pie_rows num_cities) ++ [3; 3; 3; 0.5].

(** The grid cell [(row, col)] of the pie chart of the [i]-th city. *)
Definition pie_cell (i : nat) : nat * nat := ((i / 3)%nat, (i mod 3)%nat).

(** The rows of the three heatmaps, and the row [gs[-1]] of the slider. *)
Definition heatmap_rows (num_cities : nat) : list nat :=
  [pie_rows num_cities; (pie_rows num_cities + 1)%nat;
   (pie_rows num_cities + 2)%nat].

Definition slider_row (num_cities : nat) : nat :=
  (total_rows num_cities - 1)%nat.

(** ** The tick labels of the heatmaps (lines 308-311) *)

(** [range(0, len(self.time_steps), step)] with
    [step = max(1, len(self.time_steps) // 10)]. *)
Definition tick_indices (num_times : nat) : result (list Z) :=
  let step := Z.max 1 (Z.of_nat num_times / 10) in
  py_range 0 (Z.of_nat num_times) step.

(** ** The percentages of [update_data_arrays] (lines 185-193) *)

(** [values[i]] on a list of numbers, for [i >= 0]. *)
Definition value_at (values : list Q) (i : nat) : result Q :=
  match values !! i with
  | Some x => Ok x
  | None => Raise IndexError
  end.

(** The three percentages of one data point [values]. *)
Definition percentages (values : list Q) : result (Q * Q * Q) :=
  s_val <- value_at values 0 ;;
  i_val <- value_at values 1 ;;
  r_val <- value_at values 2 ;;
  n_val <- (if (3 <? length values)%nat then value_at values 3
            else Ok (s_val + i_val + r_val)) ;;
  if Qlt_le_dec 0 n_val then
    Ok (s_val / n_val * 100, i_val / n_val * 100, r_val / n_val * 100)
  else Ok (0, 0, 0).


(** ** The heatmap arrays of [update_data_arrays] (lines 165-193) *)

(** A loop over a list that stops at the first exception. *)
Fixpoint map_result {A B : Type} (f : A -> result B) (l : list A)
    : result (list B) :=
  match l with
  | [] => Ok []
  | x :: l' => y <- f x ;; ys <- map_result f l' ;; Ok (y :: ys)
  end.

(** Lines 181-193 for one city and one time step: the three entries written
    at [[c_idx, t_idx]]; the zeros of [np.zeros] stay where the city has no
    data point at that time, and where [n_val > 0] fails. *)
Definition cell (data : gmap string (gmap string (list Q)))
    (city : string) (time : Z) : result (Q * Q * Q) :=
  match data !! city with
  | Some series =>
      match series !! str time with
      | Some values => percentages values
      | None => Ok (0, 0, 0)
      end
  | None => Ok (0, 0, 0)
  end.

(** [self.s_data], [self.i_data] and [self.r_data]: one row per city, one
    column per time step. *)
Record arrays : Type := Arrays {
  s_data : list (list Q);
  i_data : list (list Q);
  r_data : list (list Q)
}.

Definition arrays_of (rows : list (list (Q * Q * Q))) : arrays :=
  {| s_data := map (map (fun p => fst (fst p))) rows;
     i_data := map (map (fun p => snd (fst p))) rows;
     r_data := map (map snd) rows |}.

(** [update_data_arrays]: [Ok None] when it returns at line 167 without
    touching the arrays, [Ok (Some a)] when it returns with new arrays [a],
    [Raise IndexError] when a data point has fewer than three entries. *)
Definition update_data_arrays (cities : list string) (time_steps : list Z)
    (data : gmap string (gmap string (list Q))) : result (option arrays) :=
  match cities, time_steps with
  | [], _ => Ok None
  | _, [] => Ok None
  | _, _ =>
      rows <- map_result
                (fun city => map_result (cell data city) time_steps) cities ;;
      Ok (Some (arrays_of rows))
  end.

(** [a[c_idx, t_idx]] for indices inside the array. *)
Definition entry (a : list (list Q)) (c_idx t_idx : nat) : option Q :=
  row ← a !! c_idx; row !! t_idx.

(** ** Reading a data file (lines 422-426 and 474-478) *)

Section Loader.

(** Python's [int] and [str.isdigit] on the keys of the file. *)
Variable py_int : string -> result Z.
Variable isdigit : string -> bool.

(** [sorted(..., key=int)]: every key is computed first, then the list is
    sorted by key, elements with equal keys staying in their order. *)
Fixpoint insert_by_key (kx : Z * string) (l : list (Z * string))
    : list (Z * string) :=
  match l with
  | [] => [kx]
  | ky :: l' =>
      if (fst kx <=? fst ky)%Z then kx :: l else ky :: insert_by_key kx l'
  end.

Fixpoint sort_by_key (l : list (Z * string)) : list (Z * string) :=
  match l with
  | [] => []
  | kx :: l' => insert_by_key kx (sort_by_key l')
  end.

Definition sorted_by_int (keys : list string) : result (list string) :=
  ks <- map_result py_int keys ;;
  Ok (map snd (sort_by_key (combine ks keys))).

(** [[int(t) for t in series.keys() if t.isdigit()]]. *)
Definition digit_keys (series : gmap string (list Q)) : result (list Z) :=
  map_result py_int (List.filter isdigit (map fst (map_to_list series))).

(** Lines 422-426: the cities and the time steps of a loaded dictionary
    [data], whose keys are [keys] in the order of the file (so [data[city]]
    is defined for every city of the loop). *)
Definition load_lists (keys : list string)
    (data : gmap string (gmap string (list Q)))
    : result (list string * list Z) :=
  cities <- sorted_by_int keys ;;
  per_city <- map_result (fun city => digit_keys (data !!! city)) cities ;;
  let all_time_steps : gset Z := list_to_set (concat per_city) in
  Ok (cities, merge_sort Z.le (elements all_time_steps)).

End Loader.

(** [int] and [isdigit] on strings of ASCII digits with an optional minus
    sign, the only strings [str] yields on an integer. *)
Definition decimal_int (s : string) : result Z :=
  if String.eqb s "" || String.eqb s "-" then Raise ValueError
  else match NilEmpty.int_of_string s with
       | Some d => Ok (Z.of_int d)
       | None => Raise ValueError
       end.

Fixpoint all_digits (s : string) : bool :=
  match s with
  | EmptyString => true
  | String c s' =>
      (Nat.leb 48 (Ascii.nat_of_ascii c) && Nat.leb (Ascii.nat_of_ascii c) 57)
      && all_digits s'
  end.

Definition decimal_isdigit (s : string) : bool :=
  match s with
  | EmptyString => false
  | _ => all_digits s
  end.

(** ** The state of a [SIRNVisualizer]

    The fields the methods compute with.  [current_time_idx] is a position
    of the slider, never negative; [pie_axes] is [len(self.pie_axes)];
    [heat_data] holds [s_data], [i_data] and [r_data], which do not exist
    before [update_data_arrays] first assigns them.  The matplotlib objects
    are not part of the state: the axes and the slider exist once a city is
    registered, drawing calls are taken to return, [Slider.set_val] to call
    [update_time] with the value it is given, and no user event to arrive
    during a call.  The state after an exception is not modelled. *)
Record visualizer : Type := Visualizer {
  data : gmap string (gmap string (list Q));
  cities : list string;
  time_steps : list Z;
  current_time_idx : nat;
  pie_axes : nat;
  heat_data : option arrays;
  scroll_pos : Q
}.

(** The state [__init__] builds (lines 20-47). *)
Definition new_visualizer : visualizer :=
  {| data := ∅; cities := []; time_steps := []; current_time_idx := 0;
     pie_axes := 0; heat_data := None; scroll_pos := 0 |}.

(** What a method call does: it returns with a new state, or raises one of
    the exceptions of [exn], or raises [AttributeError] (reading [s_data]
    before it exists). *)
Inductive outcome (A : Type) : Type :=
| Returns (a : A)
| Raises (e : exn)
| RaisesAttributeError.

Arguments Returns {A} a.
Arguments Raises {A} e.
Arguments RaisesAttributeError {A}.

Definition and_then {A B : Type} (c : outcome A) (k : A -> outcome B)
    : outcome B :=
  match c with
  | Returns a => k a
  | Raises e => Raises e
  | RaisesAttributeError => RaisesAttributeError
  end.

Notation "x <~ c ;; k" := (and_then c (fun x => k))
  (at level 100, c at next level, right associativity).

Definition of_result {A : Type} (r : result A) : outcome A :=
  match r with
  | Ok a => Returns a
  | Raise e => Raises e
  end.

(** A city identifier passed by a caller: a string or an integer. *)
Inductive city_id : Type :=
| CityStr (s : string)
| CityInt (z : Z).

(** [str(city)]. *)
Definition str_id (city : city_id) : string :=
  match city with
  | CityStr s => s
  | CityInt z => str z
  end.

(** [city in self.cities]: an integer is equal to no string. *)
Definition id_in (city : city_id) (cities : list string) : bool :=
  match city with
  | CityStr s => existsb (String.eqb s) cities
  | CityInt _ => false
  end.

(** The end of [_setup_layout] as far as the state goes: one pie chart per
    city (lines 71-76) and the scroll position reset (line 101). *)
Definition setup_layout (v : visualizer) : visualizer :=
  {| data := data v; cities := cities v; time_steps := time_steps v;
     current_time_idx := current_time_idx v;
     pie_axes := length (cities v); heat_data := heat_data v;
     scroll_pos := 0 |}.

(** Lines 232-234: the three numbers a pie chart reads. *)
Definition pie_values (values : list Q) : result (Q * Q * Q) :=
  s_val <- value_at values 0 ;;
  i_val <- value_at values 1 ;;
  r_val <- value_at values 2 ;;
  Ok (s_val, i_val, r_val).

(** [update_data_arrays] as a method (lines 165-193). *)
Definition update_arrays (v : visualizer) : outcome visualizer :=
  a <~ of_result (update_data_arrays (cities v) (time_steps v) (data v)) ;;
  match a with
  | None => Returns v
  | Some a' =>
      Returns {| data := data v; cities := cities v;
                 time_steps := time_steps v;
                 current_time_idx := current_time_idx v;
                 pie_axes := pie_axes v; heat_data := Some a';
                 scroll_pos := scroll_pos v |}
  end.

(** [update_plots] (lines 213-317): the index is clamped, every city that
    has a pie chart and a data point at the current time has its first
    three values read, and [s_data] is read. *)
Definition update_plots (v : visualizer) : outcome visualizer :=
  match time_steps v, cities v with
  | [], _ => Returns v
  | _, [] => Returns v
  | _, _ =>
      let idx :=
        if (length (time_steps v) <=? current_time_idx v)%nat
        then (length (time_steps v) - 1)%nat
        else current_time_idx v in
      current_time <~ of_result (getitem (time_steps v) (Z.of_nat idx)) ;;
      _ <~ of_result
             (map_result
                (fun city =>
                   match data v !! city
                         ≫= (fun series => series !! str current_time) with
                   | Some values => pie_values values
                   | None => Ok (0, 0, 0)
                   end)
                (firstn (pie_axes v) (cities v))) ;;
      match heat_data v with
      | None => RaisesAttributeError
      | Some _ =>
          Returns {| data := data v; cities := cities v;
                     time_steps := time_steps v; current_time_idx := idx;
                     pie_axes := pie_axes v; heat_data := heat_data v;
                     scroll_pos := scroll_pos v |}
      end
  end.

(** [update_time] (lines 160-163), with [val] the integer [int(val)]. *)
Definition update_time (val : nat) (v : visualizer) : outcome visualizer :=
  update_plots
    {| data := data v; cities := cities v; time_steps := time_steps v;
       current_time_idx := val; pie_axes := pie_axes v;
       heat_data := heat_data v; scroll_pos := scroll_pos v |}.

(** [update_slider_range] (lines 195-211); [set_val] calls
    [update_time]. *)
Definition update_slider_range (v : visualizer) : outcome visualizer :=
  match time_steps v with
  | [] => Returns v
  | _ =>
      let max_val := (length (time_steps v) - 1)%nat in
      update_time (Nat.min (current_time_idx v) max_val) v
  end.

Section Visualizer.

Variable py_int : string -> result Z.

(** Lines 344-350 of [add_data_point]: a city without data is registered. *)
Definition add_city (city_str : string) (v : visualizer)
    : outcome visualizer :=
  match data v !! city_str with
  | Some _ => Returns v
  | None =>
      let data' := <[city_str := ∅]> (data v) in
      if existsb (String.eqb city_str) (cities v) then
        Returns {| data := data'; cities := cities v;
                   time_steps := time_steps v;
                   current_time_idx := current_time_idx v;
                   pie_axes := pie_axes v; heat_data := heat_data v;
                   scroll_pos := scroll_pos v |}
      else
        cities' <~ of_result (sorted_by_int py_int (cities v ++ [city_str])) ;;
        Returns (setup_layout
                   {| data := data'; cities := cities';
                      time_steps := time_steps v;
                      current_time_idx := current_time_idx v;
                      pie_axes := pie_axes v; heat_data := heat_data v;
                      scroll_pos := scroll_pos v |})
  end.

(** Lines 356-362: a new time step is registered, and only then are the
    arrays and the slider range updated. *)
Definition add_time_step (time_step : Z) (v : visualizer)
    : outcome visualizer :=
  if existsb (Z.eqb time_step) (time_steps v) then Returns v
  else
    v' <~ update_arrays
            {| data := data v; cities := cities v;
               time_steps := merge_sort Z.le (time_steps v ++ [time_step]);
               current_time_idx := current_time_idx v;
               pie_axes := pie_axes v; heat_data := heat_data v;
               scroll_pos := scroll_pos v |} ;;
    update_slider_range v'.

(** [add_data_point] (lines 319-367). *)
Definition add_data_point (city : city_id) (time_step : Z)
    (values : list Q) (v : visualizer) : outcome visualizer :=
  let city_str := str_id city in
  let time_str := str time_step in
  v1 <~ add_city city_str v ;;
  let v2 :=
    {| data := <[city_str := <[time_str := values]> (data v1 !!! city_str)]>
                 (data v1);
       cities := cities v1; time_steps := time_steps v1;
       current_time_idx := current_time_idx v1; pie_axes := pie_axes v1;
       heat_data := heat_data v1; scroll_pos := scroll_pos v1 |} in
  v3 <~ add_time_step time_step v2 ;;
  idx <~ of_result (index time_step (time_steps v3)) ;;
  v4 <~ update_time idx v3 ;;
  update_plots v4.

(** [initialize] (lines 369-395); [cities_list] is [[]] for [None]. *)
Definition initialize (cities_list : list city_id) (v : visualizer)
    : outcome visualizer :=
  match cities_list with
  | [] => Returns v
  | _ =>
      let appended :=
        fold_left (fun cs city =>
                     if id_in city cs then cs else cs ++ [str_id city])
                  cities_list (cities v) in
      cities' <~ of_result (sorted_by_int py_int appended) ;;
      Returns (setup_layout
                 {| data := data v; cities := cities';
                    time_steps := time_steps v;
                    current_time_idx := current_time_idx v;
                    pie_axes := pie_axes v; heat_data := heat_data v;
                    scroll_pos := scroll_pos v |})
  end.

End Visualizer.

(** Two states that differ at most in the slider position. *)
Definition same_fields (v v' : visualizer) : Prop :=
  data v' = data v /\ cities v' = cities v /\
  time_steps v' = time_steps v /\ pie_axes v' = pie_axes v /\
  heat_data v' = heat_data v /\ scroll_pos v' = scroll_pos v.

(** ** Showing a data file (lines 414-505) *)

(** A loop whose body can raise. *)
Fixpoint for_each {A S : Type} (body : A -> S -> outcome S) (l : list A)
    (s : S) : outcome S :=
  match l with
  | [] => Returns s
  | x :: l' => s' <~ body x s ;; for_each body l' s'
  end.

(** Lines 440-446 for one city and one time step: the data point is copied
    into the visualizer and the time step appended if it is new. *)
Definition copy_point (city : string) (time_step : Z) (values : list Q)
    (v : visualizer) : visualizer :=
  {| data := <[city := <[str time_step := values]> (data v !!! city)]>
               (data v);
     cities := cities v;
     time_steps := if existsb (Z.eqb time_step) (time_steps v)
                   then time_steps v else time_steps v ++ [time_step];
     current_time_idx := current_time_idx v; pie_axes := pie_axes v;
     heat_data := heat_data v; scroll_pos := scroll_pos v |}.

(** Lines 437-446: all the data points of the file are copied. *)
Definition copy_all (file : gmap string (gmap string (list Q)))
    (file_cities : list string) (file_time_steps : list Z)
    (v : visualizer) : visualizer :=
  fold_left
    (fun v1 city =>
       fold_left
         (fun v2 time_step =>
            match (file !!! city) !! str time_step with
            | Some values => copy_point city time_step values v2
            | None => v2
            end)
         file_time_steps v1)
    file_cities v.

Section Runs.

Variable py_int : string -> result Z.
Variable isdigit : string -> bool.

(** [run_static_visualization] up to the blocking [plt.show]: [file] is
    the loaded dictionary and [keys] its keys in the order of the file. *)
Definition run_static_visualization (keys : list string)
    (file : gmap string (gmap string (list Q))) : outcome visualizer :=
  lists <~ of_result (load_lists py_int isdigit keys file) ;;
  v <~ initialize py_int (map CityStr (fst lists)) new_visualizer ;;
  let v1 := copy_all file (fst lists) (snd lists) v in
  let v2 :=
    {| data := data v1; cities := cities v1;
       time_steps := merge_sort Z.le (time_steps v1);
       current_time_idx := current_time_idx v1; pie_axes := pie_axes v1;
       heat_data := heat_data v1; scroll_pos := scroll_pos v1 |} in
  v3 <~ update_arrays v2 ;;
  v4 <~ update_slider_range v3 ;;
  update_plots v4.

(** Lines 490-497 of [run_dynamic_visualization]: the data points are
    added one by one, time step by time step. *)
Definition add_all (file : gmap string (gmap string (list Q)))
    (file_cities : list string) (file_time_steps : list Z)
    (v : visualizer) : outcome visualizer :=
  for_each
    (fun time_step =>
       for_each
         (fun city v1 =>
            match (file !!! city) !! str time_step with
            | Some values =>
                add_data_point py_int (CityStr city) time_step values v1
            | None => Returns v1
            end)
         file_cities)
    file_time_steps v.

(** [run_dynamic_visualization] up to [wait_for_close].  An exception of
    the loop is caught at line 501 and printed; the outcome [Raises] then
    stands for a loop that was cut short. *)
Definition run_dynamic_visualization (keys : list string)
    (file : gmap string (gmap string (list Q))) : outcome visualizer :=
  lists <~ of_result (load_lists py_int isdigit keys file) ;;
  v <~ initialize py_int (map CityStr (fst lists)) new_visualizer ;;
  add_all file (fst lists) (snd lists) v.

End Runs.

(** ** Predicates on the data of a visualizer *)

(** [data[city][time_str]], when both keys are present. *)
Definition point (d : gmap string (gmap string (list Q)))
    (city time_str : string) : option (list Q) :=
  d !! city ≫= (fun series => series !! time_str).

(** Every data point of [d] is a data point of [file], and no series of
    [d] is empty. *)
Definition within (file d : gmap string (gmap string (list Q))) : Prop :=
  (forall city time_str values,
     point d city time_str = Some values ->
     point file city time_str = Some values) /\
  forall city series, d !! city = Some series ->
    exists time_str, is_Some (series !! time_str).

(** The heatmap entries after the data points of a file were added one by
    one: at the time step added last, only the first city has any. *)
Definition entries_when_added (file : gmap string (gmap string (list Q)))
    (first_city : string) (last_time : Z) (city : string) (time : Z)
    : result (Q * Q * Q) :=
  if (time =? last_time)%Z && negb (String.eqb city first_city)
  then Ok (0, 0, 0)
  else cell file city time.

(** The data of a visualizer that holds the data points of [file] for the
    cities [cs] at the time steps [done], and no other. *)
Definition holds_columns (file : gmap string (gmap string (list Q)))
    (cs : list string) (done : list Z)
    (d : gmap string (gmap string (list Q))) : Prop :=
  within file d /\
  (forall c t, In c cs -> In t done -> is_Some (point d c (str t))) /\
  forall c k, is_Some (point d c k) -> exists t, In t done /\ k = str t.

(** The arrays [h] exist and hold, for the cities [cs] and the time steps
    [ts], the entries [entries_when_added]. *)
Definition heat_rows (file : gmap string (gmap string (list Q)))
    (cs : list string) (first_city : string) (last_time : Z) (ts : list Z)
    (h : option arrays) : Prop :=
  exists rows,
    h = Some (arrays_of rows) /\
    Forall2
      (fun city row =>
         Forall2
           (fun t p =>
              entries_when_added file first_city last_time city t = Ok p)
           ts row)
      cs rows.

(** The state after the data points of the time steps [done] were added. *)
Definition after_columns (file : gmap string (gmap string (list Q)))
    (cs : list string) (first_city : string) (done : list Z)
    (v : visualizer) : Prop :=
  cities v = cs /\ pie_axes v = length cs /\ time_steps v = done /\
  holds_columns file cs done (data v) /\
  (done <> [] ->
   heat_rows file cs first_city (List.last done 0%Z) done (heat_data v)).

(** The state while the data points of the time step [t] are added, the
    cities [cdone] being done. *)
Definition within_column (file : gmap string (gmap string (list Q)))
    (cs : list string) (first_city : string) (done : list Z) (t : Z)
    (cdone : list string) (v : visualizer) : Prop :=
  cities v = cs /\ pie_axes v = length cs /\
  time_steps v = done ++ [t] /\
  within file (data v) /\
  (forall c t', In c cs -> In t' done ->
                is_Some (point (data v) c (str t'))) /\
  (forall c, In c cdone -> is_Some (point (data v) c (str t))) /\
  (forall c k, is_Some (point (data v) c k) ->
     (exists t', In t' done /\ k = str t') \/ (k = str t /\ In c cdone)) /\
  heat_rows file cs first_city t (done ++ [t]) (heat_data v).

(** Two strings in the order of their integer values. *)
Definition by_int_key (py_int : string -> result Z) (a b : string) : Prop :=
  exists x y, py_int a = Ok x /\ py_int b = Ok y /\ (x <= y)%Z.

(** The cities after the loop of lines 378-380 of [initialize]. *)
Definition appended (cities_list : list city_id) (cities0 : list string)
    : list string :=
  fold_left (fun cs city => if id_in city cs then cs else cs ++ [str_id city])
            cities_list cities0.
(** ** Facts about one sub-step *)

Lemma pydiv_ok (x y : Q) : ~ y == 0 -> pydiv x y = Ok (x / y).
Proof.
  intros Hy. unfold pydiv.
  destruct (Qeq_bool y 0) eqn:E; [|reflexivity].
  apply Qeq_bool_iff in E. contradiction.
Qed.

Lemma pydiv_zero (x y : Q) : y == 0 -> pydiv x y = Raise ZeroDivisionError.
Proof.
  intros Hy. unfold pydiv. apply Qeq_bool_iff in Hy. now rewrite Hy.
Qed.

Lemma euler_update_ok (N sub_dt beta gamma : Q) (st : compartments) :
  ~ N == 0 ->
  euler_update N sub_dt beta gamma st = Ok (euler N sub_dt beta gamma st).
Proof.
  intros HN. unfold euler_update. rewrite !pydiv_ok by exact HN. reflexivity.
Qed.

Lemma euler_update_total (N sub_dt beta gamma : Q) (st st1 : compartments) :
  euler_update N sub_dt beta gamma st = Ok st1 -> total st1 == total st.
Proof.
  unfold euler_update, pydiv.
  destruct (Qeq_bool N 0); simpl; [discriminate|].
  intros [= <-]. unfold total; cbn [cS cI cR]. unfold Qdiv. ring.
Qed.

Lemma clamp_nonneg (st : compartments) : nonneg (clamp st).
Proof. repeat split; cbn [clamp cS cI cR]; apply Q.le_max_l. Qed.

Lemma clamp_total_le (st : compartments) : total st <= total (clamp st).
Proof.
  unfold total; cbn [clamp cS cI cR].
  pose proof (Q.le_max_r 0 (cS st)). pose proof (Q.le_max_r 0 (cI st)).
  pose proof (Q.le_max_r 0 (cR st)). lra.
Qed.

Lemma conserved_iff (N : Q) (st : compartments) :
  conserved N st <->
  N - drift_tolerance <= total st <= N + drift_tolerance.
Proof.
  unfold conserved. rewrite Qabs_Qle_condition. split; intros [? ?]; split; lra.
Qed.

Lemma conserved_of_eq (N : Q) (st : compartments) :
  total st == N -> conserved N st.
Proof.
  intros H. apply conserved_iff. unfold drift_tolerance. lra.
Qed.

Lemma Qdiv_nonneg (x y : Q) : 0 <= x -> 0 < y -> 0 <= x / y.
Proof.
  intros Hx Hy. unfold Qdiv. apply Qmult_le_0_compat; [exact Hx|].
  apply Qlt_le_weak, Qinv_lt_0_compat, Hy.
Qed.

Lemma renormalize_ok (N : Q) (st : compartments) :
  ~ total st == 0 ->
  renormalize N st =
    Ok (if Qlt_le_dec drift_tolerance (Qabs (total st - N))
        then rescaled N st else st).
Proof.
  intros Ht. unfold renormalize. fold (total st).
  destruct (Qlt_le_dec _ _); [|reflexivity].
  rewrite !pydiv_ok by exact Ht. reflexivity.
Qed.

Lemma renormalize_zero (N : Q) (st : compartments) :
  total st == 0 -> drift_tolerance < Qabs (total st - N) ->
  renormalize N st = Raise ZeroDivisionError.
Proof.
  intros Ht Hd. unfold renormalize. fold (total st).
  destruct (Qlt_le_dec _ _) as [_|Hle]; [|lra].
  rewrite pydiv_zero by exact Ht. reflexivity.
Qed.

Lemma rescaled_total (N : Q) (st : compartments) :
  ~ total st == 0 -> total (rescaled N st) == N.
Proof.
  intros Ht. unfold rescaled, total in *. cbn [cS cI cR].
  field. exact Ht.
Qed.

Lemma rescaled_nonneg (N : Q) (st : compartments) :
  0 <= N -> 0 < total st -> nonneg st -> nonneg (rescaled N st).
Proof.
  intros HN Ht (Hs & Hi & Hr).
  repeat split; cbn [rescaled cS cI cR];
    apply Qdiv_nonneg; try exact Ht; apply Qmult_le_0_compat; assumption.
Qed.

Lemma substep_inv (N sub_dt beta gamma : Q) (st : compartments) :
  0 < N -> nonneg st -> 0 < total st ->
  exists st', substep N sub_dt beta gamma st = Ok st' /\
              nonneg st' /\ 0 < total st' /\ conserved N st'.
Proof.
  intros HN Hnn Ht.
  assert (HN0 : ~ N == 0) by lra.
  unfold substep, update_and_clamp.
  rewrite (euler_update_ok _ _ _ _ _ HN0). cbn [bind].
  match goal with |- context [clamp ?s] => set (st1 := s) end.
  assert (Hst1 : total st1 == total st).
  { apply (euler_update_total N sub_dt beta gamma).
    now rewrite euler_update_ok. }
  pose proof (clamp_total_le st1) as Hle.
  pose proof (clamp_nonneg st1) as Hc.
  assert (Hpos : 0 < total (clamp st1)) by lra.
  rewrite renormalize_ok by lra.
  eexists; split; [reflexivity|].
  destruct (Qlt_le_dec _ _) as [Hfire|Hkeep].
  - assert (Hr : total (rescaled N (clamp st1)) == N)
      by (apply rescaled_total; lra).
    split; [apply rescaled_nonneg; try assumption; lra|].
    split; [lra|]. now apply conserved_of_eq.
  - repeat split; try apply Hc; assumption.
Qed.

Lemma substep_raises (N sub_dt beta gamma : Q) (st : compartments) (e : exn) :
  substep N sub_dt beta gamma st = Raise e -> e = ZeroDivisionError.
Proof.
  unfold substep, update_and_clamp, euler_update, renormalize, pydiv.
  repeat match goal with
         | |- context [if ?c then _ else _] => destruct c; cbn [bind]
         end; congruence.
Qed.

Lemma substep_nonneg (N sub_dt beta gamma : Q) (st st' : compartments) :
  0 <= N -> substep N sub_dt beta gamma st = Ok st' -> nonneg st'.
Proof.
  intros HN. unfold substep, update_and_clamp.
  destruct (euler_update N sub_dt beta gamma st) as [st1|e]; cbn [bind];
    [|discriminate].
  pose proof (clamp_nonneg st1) as Hc.
  destruct (Qeq_dec (total (clamp st1)) 0) as [Hz|Hnz].
  - unfold renormalize. fold (total (clamp st1)).
    destruct (Qlt_le_dec _ _).
    + rewrite pydiv_zero by exact Hz. discriminate.
    + intros [= <-]. exact Hc.
  - rewrite renormalize_ok by exact Hnz. intros [= <-].
    destruct (Qlt_le_dec _ _); [|exact Hc].
    apply rescaled_nonneg; try assumption.
    destruct Hc as (? & ? & ?). unfold total in *. lra.
Qed.

Section LoopFacts.
Context {rng : Type}.
Variable normal : Q -> Q -> rng -> Q * rng.

Lemma sub_step_loop_false (N sub_dt beta gamma : Q) (n : nat)
    (st : compartments) (g : rng) :
  sub_step_loop normal false N sub_dt beta gamma n st g =
    (st' <- substeps N sub_dt beta gamma n st ;; Ok (st', g)).
Proof.
  revert st. induction n as [|n IH]; intros st; cbn; [reflexivity|].
  destruct (substep N sub_dt beta gamma st); cbn [bind]; [apply IH|reflexivity].
Qed.

Lemma sub_step_loop_inv (sto : bool) (N sub_dt beta gamma : Q) (n : nat) :
  0 < N ->
  forall (st : compartments) (g : rng),
    nonneg st -> 0 < total st ->
    exists st' g',
      sub_step_loop normal sto N sub_dt beta gamma n st g = Ok (st', g') /\
      nonneg st' /\ 0 < total st' /\
      (conserved N st \/ (0 < n)%nat -> conserved N st').
Proof.
  intros HN. induction n as [|n IH]; intros st g Hnn Ht.
  - exists st, g. cbn [sub_step_loop].
    split; [reflexivity|]. split; [exact Hnn|]. split; [exact Ht|].
    intros [H|H]; [exact H|lia].
  - cbn [sub_step_loop].
    destruct (draw_rates normal sto beta gamma g) as [[b' g'] g1].
    destruct (substep_inv N sub_dt b' g' st HN Hnn Ht)
      as (st1 & -> & Hnn1 & Ht1 & Hc1).
    cbn [bind].
    destruct (IH st1 g1 Hnn1 Ht1) as (st' & g2 & -> & Hnn' & Ht' & Hc').
    exists st', g2.
    split; [reflexivity|]. split; [exact Hnn'|]. split; [exact Ht'|].
    intros _. apply Hc'. now left.
Qed.
End LoopFacts.

(** ** Numerically equal inputs give numerically equal results *)

Lemma sir_eq_refl (a : compartments) : sir_eq a a.
Proof. repeat split; reflexivity. Qed.

Lemma sir_eq_sym (a b : compartments) : sir_eq a b -> sir_eq b a.
Proof. intros (? & ? & ?). repeat split; symmetry; assumption. Qed.

Lemma sir_eq_trans (a b c : compartments) :
  sir_eq a b -> sir_eq b c -> sir_eq a c.
Proof.
  intros (? & ? & ?) (? & ? & ?). repeat split; etransitivity; eassumption.
Qed.

Lemma sir_eq_total (a b : compartments) : sir_eq a b -> total a == total b.
Proof.
  intros (Hs & Hi & Hr). unfold total. rewrite Hs, Hi, Hr. reflexivity.
Qed.

Lemma Qeq_bool_proper (x y : Q) : x == y -> Qeq_bool x 0 = Qeq_bool y 0.
Proof.
  intros H. destruct (Qeq_bool y 0) eqn:E.
  - apply Qeq_bool_iff. apply Qeq_bool_iff in E. lra.
  - destruct (Qeq_bool x 0) eqn:E'; [|reflexivity].
    apply Qeq_bool_iff in E'. apply Qeq_bool_neq in E. lra.
Qed.

Lemma euler_update_proper (N N' dt dt' b b' g g' : Q) (st st' : compartments) :
  N == N' -> dt == dt' -> b == b' -> g == g' -> sir_eq st st' ->
  result_rel sir_eq (euler_update N dt b g st) (euler_update N' dt' b' g' st').
Proof.
  intros HN Hdt Hb Hg (Hs & Hi & Hr).
  unfold euler_update, pydiv. rewrite (Qeq_bool_proper N N' HN).
  destruct (Qeq_bool N' 0); cbn [bind result_rel]; [reflexivity|].
  repeat split; cbn [cS cI cR]; rewrite ?HN, ?Hdt, ?Hb, ?Hg, ?Hs, ?Hi, ?Hr;
    reflexivity.
Qed.

Lemma clamp_proper (st st' : compartments) :
  sir_eq st st' -> sir_eq (clamp st) (clamp st').
Proof.
  intros (Hs & Hi & Hr).
  repeat split; cbn [clamp cS cI cR]; apply Q.max_compat;
    (reflexivity || assumption).
Qed.

Lemma renormalize_proper (N N' : Q) (st st' : compartments) :
  N == N' -> sir_eq st st' ->
  result_rel sir_eq (renormalize N st) (renormalize N' st').
Proof.
  intros HN Heq. pose proof (sir_eq_total _ _ Heq) as Ht.
  destruct Heq as (Hs & Hi & Hr).
  assert (Habs : Qabs (total st - N) == Qabs (total st' - N'))
    by (rewrite Ht, HN; reflexivity).
  unfold renormalize. fold (total st) (total st').
  destruct (Qlt_le_dec _ _) as [H1|H1], (Qlt_le_dec _ _) as [H2|H2];
    try lra.
  - unfold pydiv. rewrite (Qeq_bool_proper _ _ Ht).
    destruct (Qeq_bool (total st') 0); cbn [bind result_rel]; [reflexivity|].
    repeat split; cbn [cS cI cR]; rewrite ?HN, ?Ht, ?Hs, ?Hi, ?Hr;
      reflexivity.
  - cbn [result_rel]. repeat split; assumption.
Qed.

Lemma substep_proper (N N' dt dt' b b' g g' : Q) (st st' : compartments) :
  N == N' -> dt == dt' -> b == b' -> g == g' -> sir_eq st st' ->
  result_rel sir_eq (substep N dt b g st) (substep N' dt' b' g' st').
Proof.
  intros HN Hdt Hb Hg Heq.
  pose proof (euler_update_proper _ _ _ _ _ _ _ _ _ _ HN Hdt Hb Hg Heq) as He.
  unfold substep, update_and_clamp.
  destruct (euler_update N dt b g st) as [s1|e1],
           (euler_update N' dt' b' g' st') as [s2|e2];
    cbn [result_rel bind] in *; try contradiction; [|exact He].
  apply renormalize_proper; [exact HN|]. now apply clamp_proper.
Qed.

Lemma substeps_proper (N N' dt dt' b b' g g' : Q) (n : nat) :
  N == N' -> dt == dt' -> b == b' -> g == g' ->
  forall st st', sir_eq st st' ->
    result_rel sir_eq (substeps N dt b g n st) (substeps N' dt' b' g' n st').
Proof.
  intros HN Hdt Hb Hg. induction n as [|n IH]; intros st st' Heq.
  - exact Heq.
  - cbn [substeps].
    pose proof (substep_proper _ _ _ _ _ _ _ _ _ _ HN Hdt Hb Hg Heq) as Hs.
    destruct (substep N dt b g st), (substep N' dt' b' g' st');
      cbn [result_rel bind] in *; try contradiction; [|exact Hs].
    now apply IH.
Qed.

(** ** A sub-step that neither clamps nor rescales *)

Lemma Qmax_0_nonneg (x : Q) : 0 <= x -> Qmax 0 x == x.
Proof. intros H. now apply Q.max_r. Qed.

Lemma substep_exact (N sub_dt beta gamma : Q) (st : compartments) :
  ~ N == 0 -> conserved N st -> nonneg (euler N sub_dt beta gamma st) ->
  exists st', substep N sub_dt beta gamma st = Ok st' /\
              sir_eq st' (euler N sub_dt beta gamma st).
Proof.
  intros HN Hc Hnn.
  assert (He := euler_update_ok N sub_dt beta gamma st HN).
  assert (Ht := euler_update_total _ _ _ _ _ _ He).
  set (e := euler N sub_dt beta gamma st) in *.
  assert (Heq : sir_eq (clamp e) e).
  { destruct Hnn as (? & ? & ?).
    repeat split; cbn [clamp cS cI cR]; now apply Qmax_0_nonneg. }
  unfold substep, update_and_clamp. rewrite He. cbn [bind].
  exists (clamp e). split; [|exact Heq].
  unfold renormalize. fold (total (clamp e)).
  destruct (Qlt_le_dec _ _) as [Hfire|_]; [|reflexivity].
  exfalso. apply sir_eq_total in Heq. apply conserved_iff in Hc.
  assert (Habs : Qabs (total (clamp e) - N) <= drift_tolerance).
  { apply Qabs_Qle_condition. split; lra. }
  lra.
Qed.

(** ** The reference scenario: N = 101, beta = 0.3, gamma = 0.1, ten
    sub-steps of size 10/10 *)

Lemma scenario_substep (st : compartments) (sl iu : Q) :
  total st == 101 ->
  80 <= sl -> sl <= cS st -> cS st <= 100 ->
  1 <= cI st -> cI st <= iu -> iu <= 6 -> 0 <= cR st ->
  exists st', substep 101 (10 # 10) 0.3 0.1 st = Ok st' /\
              total st' == 101 /\
              sl - 2 <= cS st' /\ cS st' < cS st /\
              cI st < cI st' /\ cI st' <= (6 # 5) * iu /\ 0 <= cR st'.
Proof.
  intros Ht Hsl Hs1 Hs2 Hi1 Hi2 Hiu Hr.
  assert (Hp1 : 80 * cI st <= cS st * cI st) by nra.
  assert (Hp2 : cS st * cI st <= 100 * cI st) by nra.
  assert (HeS : cS (euler 101 (10 # 10) 0.3 0.1 st)
                == cS st - (3 # 1010) * (cS st * cI st))
    by (cbn [euler cS]; field).
  assert (HeI : cI (euler 101 (10 # 10) 0.3 0.1 st)
                == (9 # 10) * cI st + (3 # 1010) * (cS st * cI st))
    by (cbn [euler cI]; field).
  assert (HeR : cR (euler 101 (10 # 10) 0.3 0.1 st)
                == cR st + (1 # 10) * cI st)
    by (cbn [euler cR]; field).
  destruct (substep_exact 101 (10 # 10) 0.3 0.1 st)
    as (st' & Hok & Hs & Hi & Hr').
  - lra.
  - now apply conserved_of_eq.
  - repeat split; lra.
  - exists st'. split; [exact Hok|].
    assert (Htot : total st' == 101).
    { unfold total in *. rewrite Hs, Hi, Hr', HeS, HeI, HeR. lra. }
    repeat split; try lra.
Qed.

(** One more sub-step of the scenario from a state within the bounds
    [sl <= S] and [I <= iu]. *)
Ltac scenario_next sl iu :=
  match goal with
  | |- context [substep 101 (10 # 10) 0.3 0.1 ?st] =>
      let st' := fresh "st" in
      let Hok := fresh "Hok" in
      destruct (scenario_substep st sl iu)
        as (st' & Hok & ? & ? & ? & ? & ? & ?);
      [unfold total in *; cbn [cS cI cR] in *; lra ..|];
      rewrite Hok; cbn [bind substeps]
  end.

Lemma scenario_substeps :
  exists st', substeps 101 (10 # 10) 0.3 0.1 10 (SIR 100 1 0) = Ok st' /\
              total st' == 101 /\ cS st' < 100 /\ 1 < cI st'.
Proof.
  cbn [substeps].
  scenario_next 100 1.
  scenario_next 98 (6 # 5).
  scenario_next 96 (36 # 25).
  scenario_next 94 (216 # 125).
  scenario_next 92 (1296 # 625).
  scenario_next 90 (7776 # 3125).
  scenario_next 88 (46656 # 15625).
  scenario_next 86 (279936 # 78125).
  scenario_next 84 (1679616 # 390625).
  scenario_next 82 (10077696 # 1953125).
  eexists; split; [reflexivity|].
  unfold total in *; cbn [cS cI cR] in *. repeat split; lra.
Qed.

(** In binary64 arithmetic the ten sub-steps of the scenario return a state
    that meets the same three conditions ([S < 100], [I > 1] and
    [|S + I + R - 101| <= 1e-6]). *)
Lemma scenario_binary64 :
  ensures Binary64.scenario (fun st => Binary64.scenario_check st = true).
Proof. vm_compute. reflexivity. Qed.

(** ** Facts about the loops *)

Lemma substeps_app (N sub_dt beta gamma : Q) (k1 k2 : nat) (st : compartments) :
  substeps N sub_dt beta gamma (k1 + k2) st =
    (st1 <- substeps N sub_dt beta gamma k1 st ;;
     substeps N sub_dt beta gamma k2 st1).
Proof.
  revert st. induction k1 as [|k1 IH]; intros st; cbn [substeps Nat.add bind];
    [reflexivity|].
  destruct (substep N sub_dt beta gamma st); cbn [bind]; [apply IH|reflexivity].
Qed.

Lemma substeps_nonneg (N sub_dt beta gamma : Q) (n : nat) :
  0 <= N ->
  forall st st', nonneg st -> substeps N sub_dt beta gamma n st = Ok st' ->
                 nonneg st'.
Proof.
  intros HN. induction n as [|n IH]; intros st st' Hnn; cbn [substeps].
  - now intros [= <-].
  - destruct (substep N sub_dt beta gamma st) as [st1|e] eqn:E; cbn [bind];
      [|discriminate].
    apply IH. exact (substep_nonneg _ _ _ _ _ _ HN E).
Qed.

Lemma substeps_raises (N sub_dt beta gamma : Q) (n : nat) :
  forall st e, substeps N sub_dt beta gamma n st = Raise e ->
               e = ZeroDivisionError.
Proof.
  induction n as [|n IH]; intros st e; cbn [substeps]; [discriminate|].
  destruct (substep N sub_dt beta gamma st) as [st1|e1] eqn:E; cbn [bind].
  - apply IH.
  - intros [= <-]. exact (substep_raises _ _ _ _ _ _ E).
Qed.

Lemma euler_no_infected (N sub_dt beta gamma : Q) (st : compartments) :
  cI st == 0 -> sir_eq (euler N sub_dt beta gamma st) st.
Proof.
  intros HI. repeat split; cbn [euler cS cI cR]; rewrite HI;
    unfold Qdiv; ring.
Qed.

Lemma substeps_no_infected (N sub_dt beta gamma : Q) (st0 : compartments)
    (n : nat) :
  ~ N == 0 -> cI st0 == 0 -> 0 <= cS st0 -> 0 <= cR st0 -> conserved N st0 ->
  forall st, sir_eq st st0 ->
    exists st', substeps N sub_dt beta gamma n st = Ok st' /\ sir_eq st' st0.
Proof.
  intros HN HI HS HR Hc. induction n as [|n IH]; intros st Heq.
  - exists st. split; [reflexivity|exact Heq].
  - assert (He : sir_eq (euler N sub_dt beta gamma st) st0).
    { eapply sir_eq_trans; [|exact Heq]. apply euler_no_infected.
      destruct Heq as (_ & Hi & _). now rewrite Hi. }
    destruct (substep_exact N sub_dt beta gamma st HN) as (st1 & Hok & H1).
    + apply conserved_iff. apply conserved_iff in Hc.
      now rewrite (sir_eq_total _ _ Heq).
    + destruct He as (Hs & Hi & Hr). repeat split; lra.
    + cbn [substeps]. rewrite Hok. cbn [bind]. apply IH.
      eapply sir_eq_trans; eassumption.
Qed.

Lemma update_and_clamp_ok (N sub_dt beta gamma : Q) (st : compartments) :
  ~ N == 0 ->
  update_and_clamp N sub_dt beta gamma st
    = Ok (clamp (euler N sub_dt beta gamma st)).
Proof.
  intros HN. unfold update_and_clamp. now rewrite euler_update_ok.
Qed.

Lemma update_and_clamp_inv (N sub_dt beta gamma : Q) (st c : compartments) :
  update_and_clamp N sub_dt beta gamma st = Ok c ->
  ~ N == 0 /\ c = clamp (euler N sub_dt beta gamma st).
Proof.
  intros H. destruct (Qeq_dec N 0) as [Hz|Hnz].
  - unfold update_and_clamp, euler_update in H.
    rewrite pydiv_zero in H by exact Hz. discriminate.
  - split; [exact Hnz|]. rewrite update_and_clamp_ok in H by exact Hnz.
    congruence.
Qed.

Lemma update_and_clamp_total (N sub_dt beta gamma : Q) (st c : compartments) :
  update_and_clamp N sub_dt beta gamma st = Ok c ->
  nonneg c /\ total st <= total c.
Proof.
  intros H. apply update_and_clamp_inv in H as (HN & ->).
  split; [apply clamp_nonneg|].
  rewrite <- (euler_update_total N sub_dt beta gamma st
                (euler N sub_dt beta gamma st))
    by now apply euler_update_ok.
  apply clamp_total_le.
Qed.

(** ** Properties of the integrator *)

Section IntegratorProperties.
Context {rng : Type}.
Variable normal : Q -> Q -> rng -> Q * rng.





(** C7 (reference scenario).  From [S = 100], [I = 1], [R = 0], [N = 101],
    with [beta = 0.3] and [gamma = 0.1], the non-stochastic step from
    [t = 0] to [t = 10] in ten sub-steps returns a state with [S < 100],
    [I > 1] and [|S + I + R - 101| <= 1e-6]. *)
Theorem reference_scenario (g : rng) :
  ensures (step normal false 101 0.3 0.1 0 10 num_substeps (SIR 100 1 0) g)
    (fun out => cS (fst out) < 100 /\ 1 < cI (fst out) /\
                Qabs (total (fst out) - 101) <= conservation_tolerance).
Proof.
  unfold step, num_substeps.
  change (pydiv _ _) with (@Ok Q (10 # 10)). cbn [bind].
  rewrite sub_step_loop_false.
  destruct scenario_substeps as (st' & -> & Ht & HS & HI).
  cbn [bind ensures fst]. split; [exact HS|]. split; [exact HI|].
  apply Qabs_Qle_condition. unfold conservation_tolerance. split; lra.
Qed.


End IntegratorProperties.

(** ** Splitting an interval *)

Lemma inject_nat_pos (k : nat) : (0 < k)%nat -> 0 < inject_Z (Z.of_nat k).
Proof. intros H. unfold Qlt, inject_Z; cbn [Qnum Qden]. lia. Qed.

Lemma mediant (x y p q : Q) :
  0 < p -> 0 < q -> x / p == y / q -> (x + y) / (p + q) == x / p.
Proof.
  intros Hp Hq H.
  assert (Hx : x == x / p * p) by (field; lra).
  assert (Hy : y == x / p * q) by (rewrite H; field; lra).
  rewrite Hx at 1. rewrite Hy. field. lra.
Qed.

Section Consistency.
Context {rng : Type}.
Variable normal : Q -> Q -> rng -> Q * rng.

Lemma sub_step_loop_app (sto : bool) (N sub_dt beta gamma : Q) (k1 k2 : nat) :
  forall (st : compartments) (g : rng),
    sub_step_loop normal sto N sub_dt beta gamma (k1 + k2) st g =
      (p <- sub_step_loop normal sto N sub_dt beta gamma k1 st g ;;
       sub_step_loop normal sto N sub_dt beta gamma k2 (fst p) (snd p)).
Proof.
  induction k1 as [|k1 IH]; intros st g;
    cbn [sub_step_loop Nat.add bind fst snd]; [reflexivity|].
  destruct (draw_rates normal sto beta gamma g) as [[b' g'] g1].
  destruct (substep N sub_dt b' g' st); cbn [bind]; [apply IH|reflexivity].
Qed.

(** C6 (sub-stepping consistency).  In non-stochastic mode, the step from
    [t0] to [t1] in [k1] sub-steps followed by the step from [t1] to [t2]
    in [k2] sub-steps of the same size gives numerically the same result
    as the step from [t0] to [t2] in [k1 + k2] sub-steps; and for any one
    sub-step size, [k1] iterations of the loop followed by [k2] iterations
    are [k1 + k2] iterations. *)
Theorem substepping_consistency (N beta gamma : Q) (t0 t1 t2 : Z)
    (k1 k2 : nat) (st : compartments) (g : rng) :
  (0 < k1)%nat -> (0 < k2)%nat ->
  inject_Z (t1 - t0) / inject_Z (Z.of_nat k1)
    == inject_Z (t2 - t1) / inject_Z (Z.of_nat k2) ->
  result_rel (fun a b => sir_eq (fst a) (fst b) /\ snd a = snd b)
    (p <- step normal false N beta gamma t0 t1 k1 st g ;;
     step normal false N beta gamma t1 t2 k2 (fst p) (snd p))
    (step normal false N beta gamma t0 t2 (k1 + k2) st g)
  /\ forall sub_dt,
       sub_step_loop normal false N sub_dt beta gamma (k1 + k2) st g =
         (p <- sub_step_loop normal false N sub_dt beta gamma k1 st g ;;
          sub_step_loop normal false N sub_dt beta gamma k2 (fst p) (snd p)).
Proof.
  intros Hk1 Hk2 Hdt. split; [|intros; apply sub_step_loop_app].
  pose proof (inject_nat_pos k1 Hk1) as Hp.
  pose proof (inject_nat_pos k2 Hk2) as Hq.
  assert (Hpq : 0 < inject_Z (Z.of_nat (k1 + k2)))
    by (apply inject_nat_pos; lia).
  unfold step. rewrite !pydiv_ok by lra. cbn [bind].
  set (d1 := inject_Z (t1 - t0) / inject_Z (Z.of_nat k1)) in *.
  set (d2 := inject_Z (t2 - t1) / inject_Z (Z.of_nat k2)) in *.
  set (d3 := inject_Z (t2 - t0) / inject_Z (Z.of_nat (k1 + k2))).
  assert (H3 : d3 == d1).
  { subst d1 d2 d3.
    replace (t2 - t0)%Z with ((t1 - t0) + (t2 - t1))%Z by lia.
    rewrite Nat2Z.inj_add, !inject_Z_plus. apply mediant; assumption. }
  rewrite !sub_step_loop_false, substeps_app.
  assert (Ha : result_rel sir_eq (substeps N d1 beta gamma k1 st)
                 (substeps N d3 beta gamma k1 st)).
  { apply substeps_proper; try reflexivity; [now symmetry|apply sir_eq_refl]. }
  destruct (substeps N d1 beta gamma k1 st) as [a|e1],
           (substeps N d3 beta gamma k1 st) as [b|e3];
    cbn [result_rel bind fst snd] in *; try contradiction; [|exact Ha].
  rewrite sub_step_loop_false.
  assert (Hb : result_rel sir_eq (substeps N d2 beta gamma k2 a)
                 (substeps N d3 beta gamma k2 b)).
  { apply substeps_proper; try reflexivity; [|exact Ha].
    rewrite H3. now symmetry. }
  destruct (substeps N d2 beta gamma k2 a), (substeps N d3 beta gamma k2 b);
    cbn [result_rel bind fst snd] in *; try contradiction;
    [split; [exact Hb|reflexivity]|exact Hb].
Qed.

End Consistency.

(** ** Facts about the Python helpers *)

Lemma str_inj (a b : Z) : str a = str b -> a = b.
Proof.
  unfold str. intros H. apply to_int_inj.
  assert (Some (Z.to_int a) = Some (Z.to_int b)) as [= E]
    by (rewrite <- !NilEmpty.isi; now rewrite H).
  exact E.
Qed.

Lemma str_0 : str 0 = "0"%string.
Proof. reflexivity. Qed.

Lemma range_In (n x : Z) : In x (range n) <-> (0 <= x < n)%Z.
Proof.
  unfold range. rewrite in_map_iff. split.
  - intros (k & <- & Hk). apply in_seq in Hk. lia.
  - intros H. exists (Z.to_nat x). split; [lia|]. apply in_seq. lia.
Qed.

Lemma range_NoDup (n : Z) : List.NoDup (range n).
Proof.
  unfold range. apply Finite.Injective_map_NoDup.
  - intros x y. apply Nat2Z.inj.
  - apply seq_NoDup.
Qed.

Lemma py_range_nonzero (start stop step : Z) (l : list Z) :
  py_range start stop step = Ok l -> start = step ->
  forall t, In t l -> t <> 0%Z.
Proof.
  unfold py_range. destruct (step =? 0)%Z eqn:E; [discriminate|].
  apply Z.eqb_neq in E. intros [= <-] -> t Ht.
  apply in_map_iff in Ht as (k & <- & _). nia.
Qed.

Lemma make_time_points_nonzero (max_time time_step : Z) (tp : list Z) :
  make_time_points max_time time_step = Ok tp ->
  forall t, In t tp -> t <> 0%Z.
Proof.
  unfold make_time_points.
  destruct (py_range time_step (max_time + 1) time_step) as [l|e] eqn:E;
    cbn [bind]; [|discriminate].
  pose proof (py_range_nonzero _ _ _ _ E eq_refl) as Hl.
  destruct (negb (existsb (Z.eqb max_time) l)
            && negb (max_time mod time_step =? 0)%Z) eqn:C;
    intros [= <-] t Ht; [|now apply Hl].
  apply in_app_or in Ht as [Ht|[<-|[]]]; [now apply Hl|].
  apply andb_prop in C as (_ & C). apply negb_true_iff, Z.eqb_neq in C.
  intros ->. now rewrite Z.mod_0_l in C.
Qed.

Lemma make_time_points_ok (max_time time_step : Z) :
  time_step <> 0%Z -> is_ok (make_time_points max_time time_step).
Proof.
  intros H. unfold make_time_points, py_range.
  apply Z.eqb_neq in H. rewrite H. cbn [bind].
  now destruct (_ && _).
Qed.

Lemma index_ok (t : Z) (l : list Z) :
  In t l -> exists k, index t l = Ok k /\ (k < length l)%nat.
Proof.
  induction l as [|x l IH]; [intros []|]. intros Hin. cbn [index length].
  destruct (x =? t)%Z eqn:E.
  - exists O. split; [reflexivity|lia].
  - destruct Hin as [->|Hin]; [rewrite Z.eqb_refl in E; discriminate|].
    destruct (IH Hin) as (k & -> & Hk). exists (S k). split; [reflexivity|lia].
Qed.

Lemma getitem_ok (l : list Z) (i : Z) :
  (0 <= i < Z.of_nat (length l))%Z -> getitem l i = Ok (nth (Z.to_nat i) l 0%Z).
Proof.
  intros H. unfold getitem.
  assert (Hi : (i <? 0)%Z = false) by lia. rewrite Hi. cbv zeta. rewrite Hi.
  destruct (l !! Z.to_nat i) as [x|] eqn:E.
  - f_equal. symmetry. now apply nth_lookup_Some with (d := 0%Z) in E.
  - apply lookup_ge_None in E. lia.
Qed.

Lemma previous_point_ok (tp : list Z) (t : Z) :
  In t tp -> is_ok (previous_point tp t).
Proof.
  intros Hin. destruct (index_ok t tp Hin) as (k & Hk & Hlt).
  unfold previous_point. rewrite Hk. cbn [bind].
  destruct (0 <? k)%nat eqn:E; [|exact I].
  apply Nat.ltb_lt in E. rewrite getitem_ok by lia. exact I.
Qed.

(** The padded list has an entry for every city, and it is the supplied or
    default population. *)
Lemma fill_populations_getitem (a : args) (city : Z) :
  (0 <= city < num_cities a)%Z ->
  getitem (fill_populations (num_cities a) (custom_populations a)) city
    = Ok (city_population a city).
Proof.
  intros Hc. unfold fill_populations, city_population.
  set (pops := match custom_populations a with
               | None => map (default_population (num_cities a))
                           (range (num_cities a))
               | Some l => l
               end).
  set (pad := Z.to_nat (num_cities a - Z.of_nat (length pops))).
  assert (Hlen : (num_cities a
                  <= Z.of_nat (length (pops ++ repeat 100%Z pad)))%Z).
  { rewrite length_app, repeat_length. subst pad. lia. }
  rewrite getitem_ok by lia. f_equal.
  destruct (Nat.lt_ge_cases (Z.to_nat city) (length pops)) as [Hin|Hout].
  - rewrite app_nth1 by exact Hin. subst pops.
    destruct (custom_populations a) as [l|].
    + now apply nth_indep.
    + unfold range in *. rewrite length_map, length_map, length_seq in Hin.
      rewrite nth_indep with (d' := default_population (num_cities a) 0%Z)
        by (now rewrite !length_map, length_seq).
      rewrite map_nth. f_equal.
      rewrite nth_indep with (d' := Z.of_nat 0)
        by (now rewrite length_map, length_seq).
      rewrite map_nth, seq_nth by exact Hin. lia.
  - rewrite app_nth2 by exact Hout.
    assert (Hpad : (Z.to_nat city - length pops < pad)%nat) by (subst pad; lia).
    rewrite nth_indep with (d' := 100%Z) by (now rewrite repeat_length).
    rewrite nth_repeat. subst pops.
    destruct (custom_populations a) as [l|].
    + now rewrite nth_overflow.
    + exfalso. unfold range in Hout.
      rewrite !length_map, length_seq in Hout. lia.
Qed.

(** ** Properties of [generate_sirn_data] *)

Lemma record_total (st : compartments) (N : Q) : record st N !! 3%nat = Some N.
Proof. reflexivity. Qed.

Lemma series_total_insert (N : Q) (series : gmap string (list Q))
    (key : string) (st : compartments) :
  series_total N series -> series_total N (<[key := record st N]> series).
Proof.
  intros (H0 & Hall). split.
  - destruct (decide (key = "0"%string)) as [->|Hne].
    + rewrite lookup_insert_eq. eauto.
    + now rewrite lookup_insert_ne.
  - intros k r. destruct (decide (key = k)) as [->|Hne].
    + rewrite lookup_insert_eq. intros [= <-]. apply record_total.
    + rewrite lookup_insert_ne by exact Hne. apply Hall.
Qed.

Section GeneratorProperties.
Context {rng : Type}.
Variable normal : Q -> Q -> rng -> Q * rng.
Variable seed : Z -> result rng.

Lemma time_loop_total (sto : bool) (N beta gamma : Q) (tp todo : list Z) :
  forall st series g st' series' g',
    time_loop normal sto N beta gamma tp todo st series g
      = Ok (st', series', g') ->
    series_total N series -> series_total N series'.
Proof.
  induction todo as [|t rest IH]; intros st series g st' series' g';
    cbn [time_loop].
  - now intros [= _ <- _].
  - destruct (previous_point tp t) as [prev|]; cbn [bind]; [|discriminate].
    destruct (step normal sto N beta gamma prev t num_substeps st g)
      as [[st1 g1]|]; cbn [bind]; [|discriminate].
    intros H Hs. eapply IH; [exact H|]. now apply series_total_insert.
Qed.

Lemma time_loop_zero (sto : bool) (N beta gamma : Q) (tp todo : list Z) :
  (forall t, In t todo -> t <> 0%Z) ->
  forall st series g st' series' g',
    time_loop normal sto N beta gamma tp todo st series g
      = Ok (st', series', g') ->
    series' !! "0"%string = series !! "0"%string.
Proof.
  induction todo as [|t rest IH]; intros Hnz st series g st' series' g';
    cbn [time_loop].
  - now intros [= _ <- _].
  - destruct (previous_point tp t) as [prev|]; cbn [bind]; [|discriminate].
    destruct (step normal sto N beta gamma prev t num_substeps st g)
      as [[st1 g1]|]; cbn [bind]; [|discriminate].
    intros H. erewrite IH; [| |exact H].
    + apply lookup_insert_ne. rewrite <- str_0. intros E.
      apply str_inj in E. apply (Hnz t); [now left|exact E].
    + intros t' Ht'. apply Hnz. now right.
Qed.

(** What [city_series] returns: the record at time 0 and the total carried
    by every record. *)
Lemma city_series_spec (a : args) (populations : list Z) (city : Z)
    (g g' : rng) (series : gmap string (list Q)) :
  city_series normal a populations city g = Ok (series, g') ->
  exists P,
    getitem populations city = Ok P /\
    series !! "0"%string
      = Some [inject_Z P; inject_Z (initial_infected a); 0;
              inject_Z (P + initial_infected a)] /\
    series_total (inject_Z (P + initial_infected a)) series.
Proof.
  unfold city_series.
  destruct (getitem populations city) as [P|]; cbn [bind]; [|discriminate].
  destruct (base_rates (vary_params a) city) as [beta gamma].
  destruct (make_time_points (max_time a) (time_step a)) as [tp|] eqn:Etp;
    cbn [bind]; [|discriminate].
  match goal with
  | |- context [time_loop _ _ ?N _ _ _ _ ?st0 ?s0 _] =>
      set (series0 := s0); set (init := st0)
  end.
  destruct (time_loop _ _ _ _ _ _ _ _ _ _) as [[[st' series'] g1]|] eqn:E;
    cbn [bind]; [|discriminate].
  intros [= <- <-]. exists P. split; [reflexivity|].
  assert (H0 : series0 !! "0"%string
               = Some [inject_Z P; inject_Z (initial_infected a); 0;
                       inject_Z (P + initial_infected a)]).
  { subst series0 init. rewrite lookup_insert_eq. unfold record.
    cbn [cS cI cR]. now rewrite Z.add_simpl_r. }
  split.
  - rewrite (time_loop_zero _ _ _ _ _ _ (make_time_points_nonzero _ _ _ Etp)
               _ _ _ _ _ _ E).
    exact H0.
  - eapply time_loop_total; [exact E|]. split.
    + rewrite H0. eauto.
    + intros k r. subst series0.
      destruct (decide ("0"%string = k)) as [<-|Hne].
      * rewrite lookup_insert_eq. now intros [= <-].
      * rewrite lookup_insert_ne by exact Hne. now rewrite lookup_empty.
Qed.

Lemma city_loop_other (a : args) (populations : list Z) (todo : list Z) :
  forall data g data' g',
    city_loop normal a populations todo data g = Ok (data', g') ->
    forall city, ~ In city todo -> data' !! str city = data !! str city.
Proof.
  induction todo as [|c rest IH]; intros data g data' g'; cbn [city_loop].
  - now intros [= <- _].
  - destruct (city_series normal a populations c g) as [[series g1]|];
      cbn [bind]; [|discriminate].
    intros H city Hnot.
    rewrite (IH _ _ _ _ H) by (intros ?; apply Hnot; now right).
    apply lookup_insert_ne. intros E. apply str_inj in E.
    apply Hnot. now left.
Qed.

Lemma city_loop_in (a : args) (populations : list Z) (todo : list Z) :
  List.NoDup todo ->
  forall data g data' g',
    city_loop normal a populations todo data g = Ok (data', g') ->
    forall city, In city todo ->
      exists series g1 g2,
        city_series normal a populations city g1 = Ok (series, g2) /\
        data' !! str city = Some series.
Proof.
  induction todo as [|c rest IH]; intros Hnd data g data' g';
    cbn [city_loop]; [intros _ _ []|].
  apply NoDup_cons_iff in Hnd as (Hnotin & Hnd).
  destruct (city_series normal a populations c g) as [[series g1]|] eqn:E;
    cbn [bind]; [|discriminate].
  intros H city [<-|Hin].
  - exists series, g, g1. split; [exact E|].
    rewrite (city_loop_other _ _ _ _ _ _ _ H) by exact Hnotin.
    apply lookup_insert_eq.
  - exact (IH Hnd _ _ _ _ H city Hin).
Qed.

Lemma city_loop_all (a : args) (populations : list Z) (todo : list Z) :
  forall data g data' g',
    city_loop normal a populations todo data g = Ok (data', g') ->
    forall key series, data' !! key = Some series ->
      data !! key = Some series \/
      exists city g1 g2,
        In city todo /\
        city_series normal a populations city g1 = Ok (series, g2).
Proof.
  induction todo as [|c rest IH]; intros data g data' g'; cbn [city_loop].
  - intros [= <- _]. now left.
  - destruct (city_series normal a populations c g) as [[series g1]|] eqn:E;
      cbn [bind]; [|discriminate].
    intros H key s Hs.
    destruct (IH _ _ _ _ H key s Hs) as [Hd|(c' & h1 & h2 & ? & ?)].
    + destruct (decide (str c = key)) as [<-|Hne].
      * rewrite lookup_insert_eq in Hd. injection Hd as <-.
        right. exists c, g, g1. split; [now left|exact E].
      * rewrite lookup_insert_ne in Hd by exact Hne. now left.
    + right. exists c', h1, h2. split; [now right|assumption].
Qed.

(** C9 (frame property of [N]).  In the dictionary returned by
    [generate_sirn_data], every city has a record at time 0, and the fourth
    component of each of its records is the fourth component of that
    record. *)
Theorem population_total_unchanged (a : args) (g g' : rng)
    (data : gmap string (gmap string (list Q))) :
  generate_sirn_data normal seed a g = Ok (data, g') ->
  forall (city_str : string) (series : gmap string (list Q)),
    data !! city_str = Some series ->
    exists (rec0 : list Q) (N : Q),
      series !! "0"%string = Some rec0 /\ rec0 !! 3%nat = Some N /\
      forall (t_str : string) (rec : list Q),
        series !! t_str = Some rec -> rec !! 3%nat = Some N.
Proof.
  unfold generate_sirn_data.
  destruct (match random_seed a with Some s => seed s | None => Ok g end)
    as [g0|]; cbn [bind]; [|discriminate].
  intros H city_str series Hs.
  destruct (city_loop_all _ _ _ _ _ _ _ H city_str series Hs)
    as [He|(city & g1 & g2 & _ & Hc)]; [now rewrite lookup_empty in He|].
  apply city_series_spec in Hc as (P & _ & H0 & _ & Hall).
  eexists _, _. split; [exact H0|]. split; [reflexivity|exact Hall].
Qed.


End GeneratorProperties.

(** ** Runs without random draws *)

Lemma data_of_same_value {A G : Type} (g1 g2 : G) (r1 r2 : result (A * G)) :
  result_rel (same_value g1 g2) r1 r2 -> data_of r1 = data_of r2.
Proof.
  unfold data_of. destruct r1 as [[x h1]|e1], r2 as [[y h2]|e2];
    cbn [result_rel bind fst]; try contradiction.
  - intros (E & _). cbn [fst] in E. now rewrite E.
  - now intros ->.
Qed.

Section Determinism.
Context {rng : Type}.
Variable normal : Q -> Q -> rng -> Q * rng.
Variable seed : Z -> result rng.

Lemma step_false_same (N beta gamma : Q) (t0 t1 : Z) (n : nat)
    (st : compartments) (g1 g2 : rng) :
  result_rel (same_value g1 g2)
    (step normal false N beta gamma t0 t1 n st g1)
    (step normal false N beta gamma t0 t1 n st g2).
Proof.
  unfold step. destruct (pydiv _ _) as [sub_dt|]; cbn [bind result_rel];
    [|reflexivity].
  rewrite !sub_step_loop_false.
  destruct (substeps N sub_dt beta gamma n st); cbn [bind result_rel];
    [|reflexivity].
  repeat split.
Qed.

Lemma time_loop_false_same (N beta gamma : Q) (tp todo : list Z) :
  forall st series (g1 g2 : rng),
    result_rel (same_value g1 g2)
      (time_loop normal false N beta gamma tp todo st series g1)
      (time_loop normal false N beta gamma tp todo st series g2).
Proof.
  induction todo as [|t rest IH]; intros st series g1 g2; cbn [time_loop].
  - repeat split.
  - destruct (previous_point tp t) as [prev|]; cbn [bind result_rel];
      [|reflexivity].
    pose proof (step_false_same N beta gamma prev t num_substeps st g1 g2)
      as Hs.
    destruct (step normal false N beta gamma prev t num_substeps st g1)
      as [[a h1]|],
      (step normal false N beta gamma prev t num_substeps st g2)
      as [[b h2]|]; cbn [result_rel bind] in *; try contradiction;
      [|exact Hs].
    destruct Hs as (E & E1 & E2). cbn [fst snd] in *. subst. apply IH.
Qed.

Lemma city_series_false_same (a : args) (populations : list Z) (city : Z)
    (g1 g2 : rng) :
  stochastic a = false ->
  result_rel (same_value g1 g2)
    (city_series normal a populations city g1)
    (city_series normal a populations city g2).
Proof.
  intros Hsto. unfold city_series. rewrite Hsto.
  destruct (getitem populations city) as [P|]; cbn [bind result_rel];
    [|reflexivity].
  destruct (base_rates (vary_params a) city) as [beta gamma].
  destruct (make_time_points (max_time a) (time_step a)) as [tp|];
    cbn [bind result_rel]; [|reflexivity].
  match goal with
  | |- context [time_loop _ _ ?N _ _ _ _ ?st0 ?s0 g1] =>
      pose proof (time_loop_false_same N beta gamma tp tp st0 s0 g1 g2)
        as Hs;
      destruct (time_loop normal false N beta gamma tp tp st0 s0 g1)
        as [[[x1 s1] h1]|],
        (time_loop normal false N beta gamma tp tp st0 s0 g2)
        as [[[x2 s2] h2]|]
  end; cbn [result_rel bind] in *; try contradiction; [|exact Hs].
  destruct Hs as (E & E1 & E2). cbn [fst snd] in *.
  injection E as _ <-. subst. repeat split.
Qed.

Lemma city_loop_false_same (a : args) (populations todo : list Z) :
  stochastic a = false ->
  forall data (g1 g2 : rng),
    result_rel (same_value g1 g2)
      (city_loop normal a populations todo data g1)
      (city_loop normal a populations todo data g2).
Proof.
  intros Hsto. induction todo as [|c rest IH]; intros data g1 g2;
    cbn [city_loop].
  - repeat split.
  - pose proof (city_series_false_same a populations c g1 g2 Hsto) as Hs.
    destruct (city_series normal a populations c g1) as [[s1 h1]|],
             (city_series normal a populations c g2) as [[s2 h2]|];
      cbn [result_rel bind] in *; try contradiction; [|exact Hs].
    destruct Hs as (E & E1 & E2). cbn [fst snd] in *. subst. apply IH.
Qed.

(** C4 (determinism without randomness).  With [stochastic = False], two
    runs of [generate_sirn_data] on the same arguments give the same
    result (the same dictionary, or the same exception) whatever state the
    random generator is in at either call; so do two runs of the step on
    the same state, times and rates. *)
Theorem determinism_non_stochastic (a : args) (g1 g2 : rng) :
  stochastic a = false ->
  data_of (generate_sirn_data normal seed a g1)
    = data_of (generate_sirn_data normal seed a g2)
  /\ forall (N beta gamma : Q) (t0 t1 : Z) (n : nat) (st : compartments),
       data_of (step normal false N beta gamma t0 t1 n st g1)
         = data_of (step normal false N beta gamma t0 t1 n st g2).
Proof.
  intros Hsto. split.
  - unfold generate_sirn_data. destruct (random_seed a) as [s|];
      [reflexivity|]. cbn [bind].
    eapply data_of_same_value. now apply city_loop_false_same.
  - intros. eapply data_of_same_value. apply step_false_same.
Qed.

End Determinism.

(** ** The generator returns on valid arguments *)

Section Totality.
Context {rng : Type}.
Variable normal : Q -> Q -> rng -> Q * rng.
Variable seed : Z -> result rng.

Lemma step_ok (sto : bool) (N beta gamma : Q) (t0 t1 : Z)
    (st : compartments) (g : rng) :
  0 < N -> nonneg st -> 0 < total st ->
  exists st' g',
    step normal sto N beta gamma t0 t1 num_substeps st g = Ok (st', g') /\
    nonneg st' /\ 0 < total st' /\ conserved N st'.
Proof.
  intros HN Hnn Ht. unfold step.
  rewrite pydiv_ok by (unfold num_substeps; discriminate). cbn [bind].
  destruct (sub_step_loop_inv normal sto N
              (inject_Z (t1 - t0) / inject_Z (Z.of_nat num_substeps))
              beta gamma num_substeps HN st g Hnn Ht)
    as (st' & g' & H & Hnn' & Ht' & Hc).
  exists st', g'. split; [exact H|]. split; [exact Hnn'|].
  split; [exact Ht'|]. apply Hc. right. unfold num_substeps. lia.
Qed.

Lemma time_loop_ok (sto : bool) (N beta gamma : Q) (tp todo : list Z) :
  0 < N -> (forall t, In t todo -> In t tp) ->
  forall st series g, nonneg st -> 0 < total st ->
    is_ok (time_loop normal sto N beta gamma tp todo st series g).
Proof.
  intros HN. induction todo as [|t rest IH]; intros Hin st series g Hnn Ht;
    cbn [time_loop]; [exact I|].
  pose proof (previous_point_ok tp t (Hin t (or_introl eq_refl))) as Hp.
  destruct (previous_point tp t) as [prev|]; [|destruct Hp]. cbn [bind].
  destruct (step_ok sto N beta gamma prev t st g HN Hnn Ht)
    as (st1 & g1 & -> & Hnn1 & Ht1 & _).
  cbn [bind]. apply IH; try assumption.
  intros t' Ht'. apply Hin. now right.
Qed.

Lemma inject_Z_nonneg (z : Z) : (0 <= z)%Z -> 0 <= inject_Z z.
Proof. intros H. unfold Qle, inject_Z; cbn [Qnum Qden]. lia. Qed.

Lemma inject_Z_pos (z : Z) : (0 < z)%Z -> 0 < inject_Z z.
Proof. intros H. unfold Qlt, inject_Z; cbn [Qnum Qden]. lia. Qed.

Lemma city_series_ok (a : args) (populations : list Z) (city P : Z)
    (g : rng) :
  getitem populations city = Ok P ->
  time_step a <> 0%Z -> (0 <= initial_infected a)%Z ->
  (0 <= P)%Z -> (0 < P + initial_infected a)%Z ->
  is_ok (city_series normal a populations city g).
Proof.
  intros HP Hts Hi HP0 HN. unfold city_series. rewrite HP. cbn [bind].
  destruct (base_rates (vary_params a) city) as [beta gamma].
  pose proof (make_time_points_ok (max_time a) _ Hts) as Htp.
  destruct (make_time_points (max_time a) (time_step a)) as [tp|];
    [|destruct Htp]. cbn [bind].
  match goal with
  | |- context [time_loop _ ?sto ?N _ _ _ _ ?st0 ?s0 _] =>
      pose proof (time_loop_ok sto N beta gamma tp tp) as Hloop;
      specialize (Hloop (inject_Z_pos _ HN) (fun t H => H) st0 s0 g)
  end.
  rewrite Z.add_simpl_r in *.
  destruct (time_loop _ _ _ _ _ _ _ _ _ _) as [[[st' s'] g']|].
  - exact I.
  - apply Hloop.
    + repeat split; cbn [cS cI cR]; try apply inject_Z_nonneg;
        (assumption || lia).
    + unfold total; cbn [cS cI cR].
      rewrite <- !inject_Z_plus. apply inject_Z_pos. lia.
Qed.

Lemma city_loop_ok (a : args) (populations todo : list Z) :
  time_step a <> 0%Z -> (0 <= initial_infected a)%Z ->
  (forall city, In city todo ->
     exists P, getitem populations city = Ok P /\
               (0 <= P)%Z /\ (0 < P + initial_infected a)%Z) ->
  forall data g, is_ok (city_loop normal a populations todo data g).
Proof.
  intros Hts Hi. induction todo as [|c rest IH]; intros Hall data g;
    cbn [city_loop]; [exact I|].
  destruct (Hall c (or_introl eq_refl)) as (P & HP & HP0 & HN).
  pose proof (city_series_ok a populations c P g HP Hts Hi HP0 HN) as Hs.
  destruct (city_series normal a populations c g) as [[series g1]|];
    [|destruct Hs]. cbn [bind]. apply IH.
  intros c' Hc'. apply Hall. now right.
Qed.

(** On valid arguments, and with a seed that NumPy accepts,
    [generate_sirn_data] raises nothing, with or without random
    variations. *)
Theorem generate_sirn_data_ok (a : args) (g : rng) :
  valid_args a ->
  match random_seed a with Some s => is_ok (seed s) | None => True end ->
  is_ok (generate_sirn_data normal seed a g).
Proof.
  intros (Hts & Hi & Hpop) Hseed. unfold generate_sirn_data.
  assert (Hg : is_ok (match random_seed a with
                      | Some s => seed s
                      | None => Ok g
                      end))
    by (destruct (random_seed a); [exact Hseed|exact I]).
  destruct (match random_seed a with Some s => seed s | None => Ok g end)
    as [g0|]; [|destruct Hg]. cbn [bind].
  apply city_loop_ok; try assumption.
  intros city Hc. apply range_In in Hc.
  exists (city_population a city).
  split; [now apply fill_populations_getitem|]. now apply Hpop.
Qed.

End Totality.

(** ** Closed instances *)







(** C4 at the default arguments, from two different generator states. *)
Lemma determinism_non_stochastic_witness :
  stochastic default_args = false /\
  (data_of (generate_sirn_data counter_normal counter_seed default_args 0%nat)
     = data_of (generate_sirn_data counter_normal counter_seed default_args
                  7%nat)
   /\ forall (N beta gamma : Q) (t0 t1 : Z) (n : nat) (st : compartments),
        data_of (step counter_normal false N beta gamma t0 t1 n st 0%nat)
          = data_of (step counter_normal false N beta gamma t0 t1 n st 7%nat)).
Proof.
  exact (conj eq_refl
           (determinism_non_stochastic counter_normal counter_seed
              default_args 0%nat 7%nat eq_refl)).
Defined.

(** C6 for the intervals 0 to 10 and 10 to 20, ten sub-steps each. *)
Lemma substepping_consistency_witness :
  (0 < 10)%nat /\
  inject_Z (10 - 0) / inject_Z (Z.of_nat 10)
    == inject_Z (20 - 10) / inject_Z (Z.of_nat 10) /\
  (result_rel (fun a b => sir_eq (fst a) (fst b) /\ snd a = snd b)
     (p <- step counter_normal false 101 0.3 0.1 0 10 10 (SIR 100 1 0) 0%nat ;;
      step counter_normal false 101 0.3 0.1 10 20 10 (fst p) (snd p))
     (step counter_normal false 101 0.3 0.1 0 20 (10 + 10) (SIR 100 1 0) 0%nat)
   /\ forall sub_dt,
        sub_step_loop counter_normal false 101 sub_dt 0.3 0.1 (10 + 10)
          (SIR 100 1 0) 0%nat =
          (p <- sub_step_loop counter_normal false 101 sub_dt 0.3 0.1 10
                  (SIR 100 1 0) 0%nat ;;
           sub_step_loop counter_normal false 101 sub_dt 0.3 0.1 10
             (fst p) (snd p))).
Proof.
  assert (H1 : (0 < 10)%nat) by lia.
  assert (H2 : inject_Z (10 - 0) / inject_Z (Z.of_nat 10)
               == inject_Z (20 - 10) / inject_Z (Z.of_nat 10)) by reflexivity.
  exact (conj H1 (conj H2
           (substepping_consistency counter_normal 101 0.3 0.1 0 10 20 10 10
              (SIR 100 1 0) 0%nat H1 H1 H2))).
Defined.


(** The default arguments are valid. *)
Lemma valid_default_args : valid_args default_args.
Proof.
  split; [discriminate|]. split; [discriminate|].
  intros city Hc. cbn [num_cities default_args] in Hc.
  unfold city_population, default_population.
  cbn [custom_populations num_cities initial_infected default_args].
  repeat match goal with
         | |- context [if ?b then _ else _] => destruct b
         end; lia.
Qed.

(** C9 at the default call [generate_sirn_data()] and at a call with
    [max_time = 0], which records the initial data points only. *)
Lemma population_total_unchanged_witness :
  (exists data g',
     generate_sirn_data counter_normal counter_seed default_args 0%nat
       = Ok (data, g') /\
     forall (city_str : string) (series : gmap string (list Q)),
       data !! city_str = Some series ->
       exists (rec0 : list Q) (N : Q),
         series !! "0"%string = Some rec0 /\ rec0 !! 3%nat = Some N /\
         forall (t_str : string) (rec : list Q),
           series !! t_str = Some rec -> rec !! 3%nat = Some N) /\
  (exists data,
     generate_sirn_data counter_normal counter_seed
       {| num_cities := 2; max_time := 0; time_step := 10;
          initial_infected := 1; vary_params := true;
          custom_populations := Some [50%Z]; random_seed := None;
          stochastic := false |} 5%nat = Ok (data, 5%nat) /\
     forall (city_str : string) (series : gmap string (list Q)),
       data !! city_str = Some series ->
       exists (rec0 : list Q) (N : Q),
         series !! "0"%string = Some rec0 /\ rec0 !! 3%nat = Some N /\
         forall (t_str : string) (rec : list Q),
           series !! t_str = Some rec -> rec !! 3%nat = Some N).
Proof.
  split.
  - pose proof (generate_sirn_data_ok counter_normal counter_seed default_args
                  0%nat valid_default_args I) as Hok.
    destruct (generate_sirn_data counter_normal counter_seed default_args 0%nat)
      as [[data g']|e] eqn:E; [|destruct Hok].
    exists data, g'. split; [reflexivity|].
    exact (population_total_unchanged counter_normal counter_seed default_args
             0%nat g' data E).
  - eexists. split; [vm_compute; reflexivity|].
    refine (population_total_unchanged counter_normal counter_seed
              {| num_cities := 2; max_time := 0; time_step := 10;
                 initial_infected := 1; vary_params := true;
                 custom_populations := Some [50%Z]; random_seed := None;
                 stochastic := false |} 5%nat 5%nat _ _).
    vm_compute. reflexivity.
Defined.


(** * Further properties of the generator *)

(** ** The time points (lines 89-95) *)

Lemma range_len_multiples (max_time time_step : Z) :
  (0 < time_step)%Z -> (0 < max_time)%Z ->
  range_len time_step (max_time + 1) time_step = (max_time / time_step)%Z.
Proof.
  intros Hts Hmt. unfold range_len.
  assert (H0 : (0 <? time_step)%Z = true) by lia. rewrite H0.
  destruct (Z.ltb_spec time_step (max_time + 1)) as [Hlt|Hge].
  - replace (max_time + 1 - time_step - 1)%Z
      with (max_time + (-1) * time_step)%Z by lia.
    rewrite Z.div_add by lia. lia.
  - symmetry. apply Z.div_small. lia.
Qed.

Lemma existsb_multiples (max_time time_step : Z) (n : nat) :
  (0 < time_step)%Z -> (max_time mod time_step <> 0)%Z ->
  existsb (Z.eqb max_time)
    (map (fun k => (time_step + Z.of_nat k * time_step)%Z) (seq 0 n)) = false.
Proof.
  intros Hts Hmod. apply not_true_is_false. intros H.
  apply existsb_exists in H as (x & Hx & Heq).
  apply in_map_iff in Hx as (k & <- & _). apply Z.eqb_eq in Heq.
  apply Hmod. subst max_time.
  replace (time_step + Z.of_nat k * time_step)%Z
    with ((Z.of_nat k + 1) * time_step)%Z by lia.
  apply Z.mod_mul. lia.
Qed.

Lemma make_time_points_eq (max_time time_step : Z) :
  (0 < time_step)%Z -> (0 < max_time)%Z ->
  make_time_points max_time time_step =
    Ok (map (fun k => (time_step + Z.of_nat k * time_step)%Z)
            (seq 0 (Z.to_nat (max_time / time_step)))
        ++ (if (max_time mod time_step =? 0)%Z then [] else [max_time])).
Proof.
  intros Hts Hmt. unfold make_time_points, py_range.
  assert (H0 : (time_step =? 0)%Z = false) by lia. rewrite H0.
  rewrite range_len_multiples by assumption. cbn [bind].
  destruct (Z.eqb_spec (max_time mod time_step) 0) as [Hz|Hnz].
  - rewrite andb_false_r, app_nil_r. reflexivity.
  - rewrite existsb_multiples by assumption. reflexivity.
Qed.

Lemma multiples_sorted (time_step : Z) (n start : nat) :
  (0 < time_step)%Z ->
  StronglySorted Z.lt
    (map (fun k => (time_step + Z.of_nat k * time_step)%Z) (seq start n)).
Proof.
  intros Hts. revert start. induction n as [|n IH]; intros start;
    cbn [seq map]; constructor; [apply IH|].
  apply List.Forall_forall. intros x Hx.
  apply in_map_iff in Hx as (k & <- & Hk). apply in_seq in Hk. nia.
Qed.

(** The multiples of [time_step] up to [max_time], each positive, at most
    [max_time] and divisible by [time_step]. *)
Lemma multiples_range (max_time time_step t : Z) :
  (0 < time_step)%Z -> (0 < max_time)%Z ->
  In t (map (fun k => (time_step + Z.of_nat k * time_step)%Z)
            (seq 0 (Z.to_nat (max_time / time_step)))) ->
  (0 < t <= max_time)%Z /\ (t mod time_step = 0)%Z.
Proof.
  intros Hts Hmt Ht.
  assert (Hq : (0 <= max_time / time_step)%Z) by (apply Z.div_pos; lia).
  apply in_map_iff in Ht as (k & <- & Hk). apply in_seq in Hk.
  pose proof (Z.mul_div_le max_time time_step Hts).
  split; [nia|].
  replace (time_step + Z.of_nat k * time_step)%Z
    with ((Z.of_nat k + 1) * time_step)%Z by lia.
  apply Z.mod_mul. lia.
Qed.

Lemma time_points_sorted (max_time time_step : Z) (time_points : list Z) :
  (0 < time_step)%Z -> (0 < max_time)%Z ->
  make_time_points max_time time_step = Ok time_points ->
  time_points =
    map (fun k => (time_step * (Z.of_nat k + 1))%Z)
        (seq 0 (Z.to_nat (max_time / time_step)))
    ++ (if (max_time mod time_step =? 0)%Z then [] else [max_time]) /\
  StronglySorted Z.lt time_points /\
  (forall t, In t time_points -> (0 < t <= max_time)%Z).
Proof.
  intros Hts Hmt Htp. rewrite make_time_points_eq in Htp by assumption.
  injection Htp as <-.
  pose proof (fun t => multiples_range max_time time_step t Hts Hmt) as Hmult.
  split.
  { f_equal. apply map_ext. intros k. lia. }
  destruct (Z.eqb_spec (max_time mod time_step) 0) as [Hz|Hnz].
  - rewrite app_nil_r. split; [apply multiples_sorted; exact Hts|].
    intros t Ht; now apply Hmult.
  - split.
    { apply StronglySorted_app. split; [|split].
      - intros x y Hx%list_elem_of_In Hy%list_elem_of_In.
        destruct Hy as [<-|[]]. destruct (Hmult x Hx) as (Hle & Hm).
        assert (x <> max_time) by (intros ->; contradiction). lia.
      - apply multiples_sorted; exact Hts.
      - repeat constructor. }
    intros t Ht. apply in_app_or in Ht as [Ht|[<-|[]]];
      [now apply Hmult|lia].
Qed.

(** X1.  For a positive [time_step] and a positive [max_time]: the time points
    are the multiples of [time_step] up to [max_time], followed by [max_time]
    itself when it is not a multiple; they are strictly increasing, lie in
    [(0, max_time]], and the last one is [max_time]. *)
Theorem time_points_structure (max_time time_step : Z) :
  (0 < time_step)%Z -> (0 < max_time)%Z ->
  exists time_points,
    make_time_points max_time time_step = Ok time_points /\
    time_points =
      map (fun k => (time_step * (Z.of_nat k + 1))%Z)
          (seq 0 (Z.to_nat (max_time / time_step)))
      ++ (if (max_time mod time_step =? 0)%Z then [] else [max_time]) /\
    StronglySorted Z.lt time_points /\
    (forall t, In t time_points -> (0 < t <= max_time)%Z) /\
    List.last time_points 0%Z = max_time.
Proof.
  intros Hts Hmt.
  pose proof (make_time_points_eq max_time time_step Hts Hmt) as Htp.
  revert Htp. set (tp := (_ ++ _)). intros Htp.
  destruct (time_points_sorted _ _ _ Hts Hmt Htp) as (Hshape & Hs & Hr).
  exists tp. split; [exact Htp|]. split; [exact Hshape|].
  split; [exact Hs|]. split; [exact Hr|].
  rewrite Hshape.
  destruct (Z.eqb_spec (max_time mod time_step) 0) as [Hz|Hnz];
    [|apply List.last_last].
  rewrite app_nil_r.
  assert (Hq : (0 <= max_time / time_step)%Z) by (apply Z.div_pos; lia).
  assert (Hn : Z.to_nat (max_time / time_step)
               = S (Z.to_nat (max_time / time_step - 1))).
  { apply Z.div_exact in Hz; [|lia]. nia. }
  rewrite Hn, seq_S, map_app. cbn [map].
  rewrite List.last_last. apply Z.div_exact in Hz; [|lia]. nia.
Qed.

Lemma index_nth (tp : list Z) (k : nat) :
  List.NoDup tp -> (k < length tp)%nat -> index (nth k tp 0%Z) tp = Ok k.
Proof.
  revert k. induction tp as [|x tp IH]; intros k Hnd Hk; cbn [length] in Hk;
    [lia|].
  apply NoDup_cons_iff in Hnd as (Hnotin & Hnd).
  destruct k as [|k]; cbn [nth index]; [now rewrite Z.eqb_refl|].
  destruct (Z.eqb_spec x (nth k tp 0%Z)) as [->|_].
  - exfalso. apply Hnotin, nth_In. lia.
  - rewrite IH by (assumption || lia). reflexivity.
Qed.

Lemma index_absent (t : Z) (tp : list Z) :
  ~ In t tp -> index t tp = Raise ValueError.
Proof.
  induction tp as [|x tp IH]; intros Hnot; cbn [index]; [reflexivity|].
  destruct (Z.eqb_spec x t) as [->|_]; [exfalso; apply Hnot; now left|].
  rewrite IH by (intros ?; apply Hnot; now right). reflexivity.
Qed.

Lemma StronglySorted_lt_NoDup (l : list Z) :
  StronglySorted Z.lt l -> List.NoDup l.
Proof.
  induction 1 as [|x l _ IH Hall]; constructor; [|exact IH].
  intros Hin. rewrite List.Forall_forall in Hall. specialize (Hall x Hin). lia.
Qed.

Lemma StronglySorted_lt_nth (l : list Z) (i j : nat) :
  StronglySorted Z.lt l -> (i < j < length l)%nat ->
  (nth i l 0 < nth j l 0)%Z.
Proof.
  intros Hs. revert i j. induction Hs as [|x l _ IH Hall]; intros i j Hij;
    cbn [length] in Hij; [lia|].
  destruct j as [|j]; [lia|]. destruct i as [|i]; cbn [nth].
  - rewrite List.Forall_forall in Hall. apply Hall, nth_In. lia.
  - apply IH. lia.
Qed.

(** Line 95 on a list without duplicates: the point before the [k]-th time
    point is the [k-1]-th one, and 0 before the first. *)
Lemma previous_point_nth (tp : list Z) (k : nat) :
  List.NoDup tp -> (k < length tp)%nat ->
  previous_point tp (nth k tp 0%Z)
    = Ok (match k with O => 0%Z | S k' => nth k' tp 0%Z end).
Proof.
  intros Hnd Hk. unfold previous_point. rewrite index_nth by assumption.
  cbn [bind]. destruct k as [|k]; [reflexivity|].
  cbn [Nat.ltb Nat.leb bind].
  rewrite getitem_ok by lia. do 2 f_equal. lia.
Qed.

(** X2.  The intervals the generator integrates over, for a positive
    [time_step] and a positive [max_time]: for every time point [t] the
    previous point [p] of line 95 is found, it is the greatest time point
    below [t] (0 for the first), and [0 < t - p <= time_step]; an element that
    is not a time point raises [ValueError]. *)
Theorem integration_intervals (max_time time_step : Z) (time_points : list Z) :
  (0 < time_step)%Z -> (0 < max_time)%Z ->
  make_time_points max_time time_step = Ok time_points ->
  (forall t, In t time_points ->
     exists p,
       previous_point time_points t = Ok p /\
       (p = 0%Z \/ In p time_points) /\
       (0 < t - p <= time_step)%Z /\
       (forall u, In u time_points -> (u < t)%Z -> (u <= p)%Z)) /\
  (forall t, ~ In t time_points ->
     previous_point time_points t = Raise ValueError).
Proof.
  intros Hts Hmt Htp.
  destruct (time_points_sorted _ _ _ Hts Hmt Htp)
    as (Hshape & Hsorted & Hrange).
  pose proof (StronglySorted_lt_NoDup _ Hsorted) as Hnd.
  split; [|intros t Hnot; unfold previous_point;
           now rewrite index_absent by exact Hnot].
  intros t Hin. apply (In_nth _ _ 0%Z) in Hin as (k & Hk & <-).
  eexists. split; [now apply previous_point_nth|].
  assert (Hgap : (0 < nth k time_points 0
                      - match k with O => 0 | S k' => nth k' time_points 0 end
                  <= time_step)%Z).
  { set (q := Z.to_nat (max_time / time_step)) in *.
    assert (Hq : (0 <= max_time / time_step)%Z) by (apply Z.div_pos; lia).
    pose proof (Z.mod_pos_bound max_time time_step Hts) as Hmod.
    pose proof (Z.div_mod max_time time_step ltac:(lia)) as Hdm.
    assert (Hmul : forall i, (i < q)%nat ->
              nth i time_points 0%Z = (time_step * (Z.of_nat i + 1))%Z).
    { intros i Hi. rewrite Hshape.
      rewrite app_nth1 by (now rewrite length_map, length_seq).
      rewrite nth_indep with (d' := (time_step * (Z.of_nat 0 + 1))%Z)
        by (now rewrite length_map, length_seq).
      rewrite (map_nth (fun k => (time_step * (Z.of_nat k + 1))%Z)).
      rewrite seq_nth by exact Hi. reflexivity. }
    assert (Hlen : length time_points
                   = (q + if (max_time mod time_step =? 0)%Z
                          then 0 else 1)%nat).
    { rewrite Hshape, length_app, length_map, length_seq.
      now destruct (max_time mod time_step =? 0)%Z. }
    destruct (Nat.lt_ge_cases k q) as [Hlt|Hge].
    - rewrite (Hmul k Hlt). destruct k as [|k]; [lia|].
      rewrite (Hmul k) by lia. lia.
    - destruct (Z.eqb_spec (max_time mod time_step) 0) as [Hz|Hnz]; [lia|].
      assert (k = q) as -> by lia.
      assert (Hlast : nth q time_points 0%Z = max_time).
      { rewrite Hshape, app_nth2 by (rewrite length_map, length_seq; lia).
        rewrite length_map, length_seq, Nat.sub_diag. reflexivity. }
      rewrite Hlast. destruct q as [|q'] eqn:Eq; [subst q; nia|].
      rewrite (Hmul q') by lia. subst q. nia. }
  split; [destruct k as [|k]; [now left|right; apply nth_In; lia]|].
  split; [exact Hgap|].
  intros u Hu Hlt. apply (In_nth _ _ 0%Z) in Hu as (j & Hj & <-).
  destruct (Nat.lt_ge_cases j k) as [Hjk|Hkj].
  - destruct k as [|k]; [lia|].
    destruct (Nat.eq_dec j k) as [->|Hne]; [lia|].
    apply Z.lt_le_incl, StronglySorted_lt_nth; [exact Hsorted|lia].
  - destruct (Nat.eq_dec j k) as [->|Hne]; [lia|].
    assert (nth k time_points 0 < nth j time_points 0)%Z
      by (apply StronglySorted_lt_nth; [exact Hsorted|lia]).
    lia.
Qed.

(** ** What the generator records *)

Section RecordedData.
Context {rng : Type}.
Variable normal : Q -> Q -> rng -> Q * rng.
Variable seed : Z -> result rng.

Lemma good_record_of_state (st : compartments) (N : Q) :
  0 < N -> nonneg st -> conserved N st -> good_record (record st N).
Proof.
  intros HN (Hs & Hi & Hr) Hc.
  exists (cS st), (cI st), (cR st), N. repeat split; assumption.
Qed.

Lemma time_loop_good (sto : bool) (N beta gamma : Q) (tp todo : list Z) :
  0 < N -> (forall t, In t todo -> In t tp) ->
  forall st (series : gmap string (list Q)) g,
    nonneg st -> 0 < total st ->
    (forall k r, series !! k = Some r -> good_record r) ->
    exists st' series' g',
      time_loop normal sto N beta gamma tp todo st series g
        = Ok (st', series', g') /\
      forall k r, series' !! k = Some r -> good_record r.
Proof.
  intros HN. induction todo as [|t rest IH];
    intros Hin st series g Hnn Ht Hgood;
    cbn [time_loop].
  - exists st, series, g. split; [reflexivity|exact Hgood].
  - pose proof (previous_point_ok tp t (Hin t (or_introl eq_refl))) as Hp.
    destruct (previous_point tp t) as [prev|]; [|destruct Hp]. cbn [bind].
    destruct (step_ok normal sto N beta gamma prev t st g HN Hnn Ht)
      as (st1 & g1 & -> & Hnn1 & Ht1 & Hc1).
    cbn [bind]. apply IH; try assumption.
    + intros t' Ht'. apply Hin. now right.
    + intros k r. destruct (decide (str t = k)) as [<-|Hne].
      * rewrite lookup_insert_eq. intros [= <-].
        now apply good_record_of_state.
      * rewrite lookup_insert_ne by exact Hne. apply Hgood.
Qed.

Lemma city_series_good (a : args) (populations : list Z) (city P : Z)
    (g : rng) :
  getitem populations city = Ok P ->
  time_step a <> 0%Z -> (0 <= initial_infected a)%Z ->
  (0 <= P)%Z -> (0 < P + initial_infected a)%Z ->
  exists series g',
    city_series normal a populations city g = Ok (series, g') /\
    forall k r, series !! k = Some r -> good_record r.
Proof.
  intros HP Hts Hi HP0 HN. unfold city_series. rewrite HP. cbn [bind].
  destruct (base_rates (vary_params a) city) as [beta gamma].
  pose proof (make_time_points_ok (max_time a) _ Hts) as Htp.
  destruct (make_time_points (max_time a) (time_step a)) as [tp|];
    [|destruct Htp]. cbn [bind].
  rewrite Z.add_simpl_r.
  set (N := inject_Z (P + initial_infected a)).
  set (st0 := SIR (inject_Z P) (inject_Z (initial_infected a)) (inject_Z 0)).
  assert (HNq : 0 < N) by (apply inject_Z_pos; exact HN).
  assert (Hnn : nonneg st0).
  { repeat split; cbn [st0 cS cI cR]; apply inject_Z_nonneg;
      (assumption || lia). }
  assert (Htot : total st0 == N).
  { unfold total, st0, N; cbn [cS cI cR]. rewrite <- !inject_Z_plus.
    now rewrite Z.add_0_r. }
  destruct (time_loop_good (stochastic a) N beta gamma tp tp HNq
              (fun t H => H) st0 (<["0"%string := record st0 N]> ∅) g Hnn)
    as (st' & series' & g' & -> & Hgood).
  - rewrite Htot. exact HNq.
  - intros k r. destruct (decide ("0"%string = k)) as [<-|Hne].
    + rewrite lookup_insert_eq. intros [= <-].
      apply good_record_of_state; try assumption. now apply conserved_of_eq.
    + rewrite lookup_insert_ne by exact Hne. now rewrite lookup_empty.
  - cbn [bind]. exists series', g'. split; [reflexivity|exact Hgood].
Qed.

Lemma city_loop_good (a : args) (populations todo : list Z) :
  time_step a <> 0%Z -> (0 <= initial_infected a)%Z ->
  (forall city, In city todo ->
     exists P, getitem populations city = Ok P /\
               (0 <= P)%Z /\ (0 < P + initial_infected a)%Z) ->
  forall (data : gmap string (gmap string (list Q))) g,
    (forall c s, data !! c = Some s ->
       forall k r, s !! k = Some r -> good_record r) ->
    exists data' g',
      city_loop normal a populations todo data g = Ok (data', g') /\
      forall c s, data' !! c = Some s ->
        forall k r, s !! k = Some r -> good_record r.
Proof.
  intros Hts Hi. induction todo as [|c rest IH]; intros Hall data g Hgood;
    cbn [city_loop].
  - exists data, g. split; [reflexivity|exact Hgood].
  - destruct (Hall c (or_introl eq_refl)) as (P & HP & HP0 & HN).
    destruct (city_series_good a populations c P g HP Hts Hi HP0 HN)
      as (series & g1 & -> & Hs).
    cbn [bind]. apply IH.
    + intros c' Hc'. apply Hall. now right.
    + intros key s. destruct (decide (str c = key)) as [<-|Hne].
      * rewrite lookup_insert_eq. intros [= <-]. exact Hs.
      * rewrite lookup_insert_ne by exact Hne. apply Hgood.
Qed.


End RecordedData.

Section DictionaryKeys.
Context {rng : Type}.
Variable normal : Q -> Q -> rng -> Q * rng.
Variable seed : Z -> result rng.

Lemma time_loop_keys (sto : bool) (N beta gamma : Q) (tp todo : list Z) :
  forall st (series : gmap string (list Q)) g st' series' g',
    time_loop normal sto N beta gamma tp todo st series g
      = Ok (st', series', g') ->
    forall k, is_Some (series' !! k) <->
              is_Some (series !! k) \/ exists t, In t todo /\ k = str t.
Proof.
  induction todo as [|t rest IH]; intros st series g st' series' g';
    cbn [time_loop].
  - intros [= _ <- _] k. split; [now left|]. intros [H|(t & [] & _)]. exact H.
  - destruct (previous_point tp t) as [prev|]; cbn [bind]; [|discriminate].
    destruct (step normal sto N beta gamma prev t num_substeps st g)
      as [[st1 g1]|]; cbn [bind]; [|discriminate].
    intros H k. rewrite (IH _ _ _ _ _ _ H k).
    destruct (decide (str t = k)) as [<-|Hne].
    + rewrite lookup_insert_eq. split; intros _.
      * right. exists t. split; [now left|reflexivity].
      * left. eauto.
    + rewrite lookup_insert_ne by exact Hne. split.
      * intros [Hs|(t' & Ht' & ->)]; [now left|].
        right. exists t'. split; [now right|reflexivity].
      * intros [Hs|(t' & [->|Ht'] & ->)]; [now left|congruence|].
        right. exists t'. split; [exact Ht'|reflexivity].
Qed.

Lemma city_series_keys (a : args) (populations : list Z) (city : Z)
    (g g' : rng) (series : gmap string (list Q)) :
  city_series normal a populations city g = Ok (series, g') ->
  exists tp,
    make_time_points (max_time a) (time_step a) = Ok tp /\
    forall k, is_Some (series !! k) <->
              k = "0"%string \/ exists t, In t tp /\ k = str t.
Proof.
  unfold city_series.
  destruct (getitem populations city) as [P|]; cbn [bind]; [|discriminate].
  destruct (base_rates (vary_params a) city) as [beta gamma].
  destruct (make_time_points (max_time a) (time_step a)) as [tp|];
    cbn [bind]; [|discriminate].
  destruct (time_loop _ _ _ _ _ _ _ _ _ _) as [[[st' series'] g1]|] eqn:E;
    cbn [bind]; [|discriminate].
  intros [= <- <-]. exists tp. split; [reflexivity|].
  intros k. rewrite (time_loop_keys _ _ _ _ _ _ _ _ _ _ _ _ E k).
  destruct (decide ("0"%string = k)) as [<-|Hne].
  - rewrite lookup_insert_eq. split; intros _; [now left|left; eauto].
  - rewrite lookup_insert_ne, lookup_empty by exact Hne. split.
    + intros [[x Hx]|H]; [discriminate|now right].
    + intros [->|H]; [congruence|now right].
Qed.

Lemma city_loop_keys (a : args) (populations todo : list Z) :
  forall (data : gmap string (gmap string (list Q))) g data' g',
    city_loop normal a populations todo data g = Ok (data', g') ->
    forall k, is_Some (data' !! k) <->
              is_Some (data !! k) \/ exists c, In c todo /\ k = str c.
Proof.
  induction todo as [|c rest IH]; intros data g data' g'; cbn [city_loop].
  - intros [= <- _] k. split; [now left|]. intros [H|(t & [] & _)]. exact H.
  - destruct (city_series normal a populations c g) as [[series g1]|];
      cbn [bind]; [|discriminate].
    intros H k. rewrite (IH _ _ _ _ H k).
    destruct (decide (str c = k)) as [<-|Hne].
    + rewrite lookup_insert_eq. split; intros _.
      * right. exists c. split; [now left|reflexivity].
      * left. eauto.
    + rewrite lookup_insert_ne by exact Hne. split.
      * intros [Hs|(c' & Hc' & ->)]; [now left|].
        right. exists c'. split; [now right|reflexivity].
      * intros [Hs|(c' & [->|Hc'] & ->)]; [now left|congruence|].
        right. exists c'. split; [exact Hc'|reflexivity].
Qed.

Lemma generate_city_keys (a : args) (g g' : rng)
    (data : gmap string (gmap string (list Q))) :
  generate_sirn_data normal seed a g = Ok (data, g') ->
  forall city_str,
    is_Some (data !! city_str) <->
    exists city, (0 <= city < num_cities a)%Z /\ city_str = str city.
Proof.
  unfold generate_sirn_data.
  destruct (match random_seed a with Some s => seed s | None => Ok g end)
    as [g0|]; cbn [bind]; [|discriminate].
  intros H k. rewrite (city_loop_keys _ _ _ _ _ _ _ H k), lookup_empty.
  split.
  - intros [[x Hx]|(c & Hc & ->)]; [discriminate|].
    exists c. split; [now apply range_In|reflexivity].
  - intros (c & Hc & ->). right. exists c.
    split; [now apply range_In|reflexivity].
Qed.

Lemma generate_series_keys (a : args) (g g' : rng)
    (data : gmap string (gmap string (list Q)))
    (city_str : string) (series : gmap string (list Q)) :
  generate_sirn_data normal seed a g = Ok (data, g') ->
  data !! city_str = Some series ->
  exists time_points,
    make_time_points (max_time a) (time_step a) = Ok time_points /\
    forall t_str,
      is_Some (series !! t_str) <->
      t_str = "0"%string \/ exists t, In t time_points /\ t_str = str t.
Proof.
  unfold generate_sirn_data.
  destruct (match random_seed a with Some s => seed s | None => Ok g end)
    as [g0|]; cbn [bind]; [|discriminate].
  intros H Hs.
  destruct (city_loop_all _ _ _ _ _ _ _ _ H city_str series Hs)
    as [He|(city & g1 & g2 & _ & Hc)]; [now rewrite lookup_empty in He|].
  exact (city_series_keys _ _ _ _ _ _ Hc).
Qed.

(** X4.  The keys of the dictionary [generate_sirn_data] returns: the cities
    are exactly [str(0)], ..., [str(num_cities - 1)], and the keys of every
    city's series are exactly ["0"] and [str(t)] for the time points [t] of
    lines 89-91. *)
Theorem dictionary_keys (a : args) (g g' : rng)
    (data : gmap string (gmap string (list Q))) :
  generate_sirn_data normal seed a g = Ok (data, g') ->
  (forall city_str,
     is_Some (data !! city_str) <->
     exists city, (0 <= city < num_cities a)%Z /\ city_str = str city) /\
  (forall city_str series,
     data !! city_str = Some series ->
     exists time_points,
       make_time_points (max_time a) (time_step a) = Ok time_points /\
       forall t_str,
         is_Some (series !! t_str) <->
         t_str = "0"%string \/ exists t, In t time_points /\ t_str = str t).
Proof.
  intros H. split.
  - exact (generate_city_keys a g g' data H).
  - intros city_str series Hs.
    exact (generate_series_keys a g g' data city_str series H Hs).
Qed.

End DictionaryKeys.

(** ** Exceptions of the generator *)

Section GeneratorErrors.
Context {rng : Type}.
Variable normal : Q -> Q -> rng -> Q * rng.
Variable seed : Z -> result rng.

Lemma sub_step_loop_raises (sto : bool) (N sub_dt beta gamma : Q) (n : nat) :
  forall st g e,
    sub_step_loop normal sto N sub_dt beta gamma n st g = Raise e ->
    e = ZeroDivisionError.
Proof.
  induction n as [|n IH]; intros st g e; cbn [sub_step_loop]; [discriminate|].
  destruct (draw_rates normal sto beta gamma g) as [[b' g'] g1].
  destruct (substep N sub_dt b' g' st) as [st1|e1] eqn:E; cbn [bind].
  - apply IH.
  - intros [= <-]. exact (substep_raises _ _ _ _ _ _ E).
Qed.

Lemma step_raises (sto : bool) (N beta gamma : Q) (t0 t1 : Z)
    (st : compartments) (g : rng) (e : exn) :
  step normal sto N beta gamma t0 t1 num_substeps st g = Raise e ->
  e = ZeroDivisionError.
Proof.
  unfold step. rewrite pydiv_ok by (unfold num_substeps; discriminate).
  cbn [bind]. apply sub_step_loop_raises.
Qed.

Lemma time_loop_raises (sto : bool) (N beta gamma : Q) (tp todo : list Z) :
  (forall t, In t todo -> In t tp) ->
  forall st (series : gmap string (list Q)) g e,
    time_loop normal sto N beta gamma tp todo st series g = Raise e ->
    e = ZeroDivisionError.
Proof.
  induction todo as [|t rest IH]; intros Hin st series g e; cbn [time_loop];
    [discriminate|].
  pose proof (previous_point_ok tp t (Hin t (or_introl eq_refl))) as Hp.
  destruct (previous_point tp t) as [prev|]; [|destruct Hp]. cbn [bind].
  destruct (step normal sto N beta gamma prev t num_substeps st g)
    as [[st1 g1]|e1] eqn:E; cbn [bind].
  - apply IH. intros t' Ht'. apply Hin. now right.
  - intros [= <-]. exact (step_raises _ _ _ _ _ _ _ _ _ E).
Qed.

Lemma city_series_raises (a : args) (populations : list Z) (city : Z)
    (g : rng) (e : exn) :
  is_ok (getitem populations city) -> time_step a <> 0%Z ->
  city_series normal a populations city g = Raise e ->
  e = ZeroDivisionError.
Proof.
  intros HP Hts. unfold city_series.
  destruct (getitem populations city) as [P|]; [|destruct HP]. cbn [bind].
  destruct (base_rates (vary_params a) city) as [beta gamma].
  pose proof (make_time_points_ok (max_time a) _ Hts) as Htp.
  destruct (make_time_points (max_time a) (time_step a)) as [tp|];
    [|destruct Htp]. cbn [bind].
  destruct (time_loop _ _ _ _ _ _ _ _ _ _) as [[[st' series'] g1]|e1] eqn:E;
    cbn [bind]; [discriminate|].
  intros [= <-]. exact (time_loop_raises _ _ _ _ _ _ (fun t H => H) _ _ _ _ E).
Qed.

Lemma city_series_zero_total (a : args) (populations : list Z) (city P : Z)
    (g : rng) (t : Z) (rest : list Z) :
  getitem populations city = Ok P ->
  (P + initial_infected a = 0)%Z ->
  make_time_points (max_time a) (time_step a) = Ok (t :: rest) ->
  city_series normal a populations city g = Raise ZeroDivisionError.
Proof.
  intros HP HN Htp. unfold city_series. rewrite HP. cbn [bind]. cbv zeta.
  rewrite HN, Htp.
  destruct (base_rates (vary_params a) city) as [beta gamma].
  cbn [bind time_loop].
  pose proof (previous_point_ok (t :: rest) t (or_introl eq_refl)) as Hp.
  destruct (previous_point (t :: rest) t) as [prev|]; [|destruct Hp].
  cbn [bind]. unfold step.
  rewrite pydiv_ok by (unfold num_substeps; discriminate). cbn [bind].
  unfold num_substeps. cbn [sub_step_loop].
  destruct (draw_rates normal (stochastic a) beta gamma g) as [[b' g'] g1].
  unfold substep, update_and_clamp, euler_update.
  rewrite pydiv_zero by reflexivity. reflexivity.
Qed.

Lemma city_loop_zero_total (a : args) (populations todo : list Z) (bad : Z) :
  time_step a <> 0%Z ->
  (forall c, In c todo -> is_ok (getitem populations c)) ->
  In bad todo ->
  (exists P t rest,
     getitem populations bad = Ok P /\ (P + initial_infected a = 0)%Z /\
     make_time_points (max_time a) (time_step a) = Ok (t :: rest)) ->
  forall (data : gmap string (gmap string (list Q))) g,
    city_loop normal a populations todo data g = Raise ZeroDivisionError.
Proof.
  intros Hts Hget Hin (P & t & rest & HP & HN & Htp).
  induction todo as [|c todo IH]; intros data g; [destruct Hin|].
  cbn [city_loop].
  destruct (Z.eq_dec c bad) as [->|Hne].
  - rewrite (city_series_zero_total a populations bad P g t rest HP HN Htp).
    reflexivity.
  - destruct (city_series normal a populations c g) as [[series g1]|e] eqn:E;
      cbn [bind].
    + apply IH.
      * intros c' Hc'. apply Hget. now right.
      * destruct Hin as [->|Hin]; [contradiction|exact Hin].
    + f_equal. apply (city_series_raises a populations c g e);
        [apply Hget; now left|exact Hts|exact E].
Qed.



End GeneratorErrors.

(** ** Further properties of the sub-step *)

Lemma substep_conserved (N sub_dt beta gamma : Q) (st st' : compartments) :
  substep N sub_dt beta gamma st = Ok st' -> conserved N st'.
Proof.
  unfold substep, update_and_clamp.
  destruct (euler_update N sub_dt beta gamma st) as [st1|]; cbn [bind];
    [|discriminate].
  set (c := clamp st1).
  destruct (Qeq_dec (total c) 0) as [Hz|Hnz].
  - unfold renormalize. fold (total c).
    destruct (Qlt_le_dec _ _) as [Hfire|Hkeep].
    + rewrite pydiv_zero by exact Hz. discriminate.
    + now intros [= <-].
  - rewrite renormalize_ok by exact Hnz. intros [= <-].
    destruct (Qlt_le_dec _ _) as [Hfire|Hkeep]; [|exact Hkeep].
    apply conserved_of_eq. now apply rescaled_total.
Qed.


Lemma substep_S_le (N sub_dt beta gamma : Q) (st st' : compartments) :
  0 < N -> nonneg st -> N <= total st -> 0 <= beta -> 0 <= sub_dt ->
  substep N sub_dt beta gamma st = Ok st' ->
  cS st' <= cS st /\ nonneg st' /\ N <= total st'.
Proof.
  intros HN (HS & HI & HR) Ht Hb Hdt H.
  assert (HN0 : ~ N == 0) by lra.
  unfold substep in H. rewrite update_and_clamp_ok in H by exact HN0.
  cbn [bind] in H.
  set (e := euler N sub_dt beta gamma st) in *.
  assert (Hx : 0 <= beta * cS st * cI st / N).
  { apply Qdiv_nonneg; [|exact HN].
    repeat apply Qmult_le_0_compat; assumption. }
  assert (HeS : cS e <= cS st).
  { subst e. cbn [euler cS].
    assert (E : - beta * cS st * cI st / N == - (beta * cS st * cI st / N))
      by (field; exact HN0).
    rewrite E. nra. }
  assert (HcS : cS (clamp e) <= cS st)
    by (cbn [clamp cS]; apply Q.max_lub; assumption).
  assert (Htot : total e == total st).
  { apply (euler_update_total N sub_dt beta gamma). now apply euler_update_ok. }
  pose proof (clamp_total_le e) as Hle.
  pose proof (clamp_nonneg e) as Hc.
  assert (Hpos : 0 < total (clamp e)) by lra.
  rewrite renormalize_ok in H by lra. injection H as <-.
  destruct (Qlt_le_dec _ _) as [Hfire|Hkeep].
  - split; [|split].
    + cbn [rescaled cS]. apply Qle_trans with (cS (clamp e)); [|exact HcS].
      apply Qle_shift_div_r; [exact Hpos|].
      destruct Hc as (Hc & _). nra.
    + apply rescaled_nonneg; (assumption || lra).
    + rewrite rescaled_total by lra. lra.
  - split; [exact HcS|]. split; [exact Hc|lra].
Qed.

Lemma euler_regular_nonneg (N sub_dt beta gamma : Q) (st : compartments) :
  0 < N -> nonneg st -> total st == N ->
  0 <= beta -> 0 <= gamma -> 0 <= sub_dt ->
  beta * sub_dt <= 1 -> gamma * sub_dt <= 1 ->
  nonneg (euler N sub_dt beta gamma st) /\
  cS (euler N sub_dt beta gamma st) <= cS st /\
  cR st <= cR (euler N sub_dt beta gamma st).
Proof.
  intros HN (HS & HI & HR) Ht Hb Hg Hdt Hbd Hgd.
  assert (HN0 : ~ N == 0) by lra.
  unfold total in Ht.
  set (q := cI st / N).
  assert (Hq0 : 0 <= q) by (apply Qdiv_nonneg; assumption).
  assert (Hq1 : q <= 1) by (apply Qle_shift_div_r; [exact HN|lra]).
  set (u := beta * sub_dt) in *. set (v := gamma * sub_dt) in *.
  assert (Hu : 0 <= u) by (apply Qmult_le_0_compat; assumption).
  assert (Hv : 0 <= v) by (apply Qmult_le_0_compat; assumption).
  assert (Huq0 : 0 <= u * q) by (apply Qmult_le_0_compat; assumption).
  assert (Huq1 : u * q <= 1) by nra.
  set (p := cS st / N).
  assert (Hp0 : 0 <= p) by (apply Qdiv_nonneg; assumption).
  assert (Hup0 : 0 <= u * p) by (apply Qmult_le_0_compat; assumption).
  assert (ES : cS (euler N sub_dt beta gamma st) == cS st - cS st * (u * q))
    by (cbn [euler cS]; subst u q; field; exact HN0).
  assert (EI : cI (euler N sub_dt beta gamma st)
               == cI st * (1 - v) + cI st * (u * p))
    by (cbn [euler cI]; subst u v p; field; exact HN0).
  assert (ER : cR (euler N sub_dt beta gamma st) == cR st + cI st * v)
    by (cbn [euler cR]; subst v; ring).
  split; [|split].
  - split; [|split]; [rewrite ES | rewrite EI | rewrite ER]; nra.
  - rewrite ES. nra.
  - rewrite ER. nra.
Qed.

Lemma euler_proper (N sub_dt beta gamma : Q) (a b : compartments) :
  sir_eq a b ->
  sir_eq (euler N sub_dt beta gamma a) (euler N sub_dt beta gamma b).
Proof.
  intros (Hs & Hi & Hr).
  repeat split; cbn [euler cS cI cR]; rewrite ?Hs, ?Hi, ?Hr; reflexivity.
Qed.

Lemma euler_iter_proper (N sub_dt beta gamma : Q) (n : nat)
    (a b : compartments) :
  sir_eq a b ->
  sir_eq (Nat.iter n (euler N sub_dt beta gamma) a)
         (Nat.iter n (euler N sub_dt beta gamma) b).
Proof.
  intros H. induction n as [|n IH]; cbn [Nat.iter nat_rect]; [exact H|].
  now apply euler_proper.
Qed.

Lemma substeps_regular (N sub_dt beta gamma : Q) (n : nat) :
  0 < N -> 0 <= beta -> 0 <= gamma -> 0 <= sub_dt ->
  beta * sub_dt <= 1 -> gamma * sub_dt <= 1 ->
  forall st, nonneg st -> total st == N ->
    exists st',
      substeps N sub_dt beta gamma n st = Ok st' /\
      sir_eq st' (Nat.iter n (euler N sub_dt beta gamma) st) /\
      nonneg st' /\ total st' == N /\
      cS st' <= cS st /\ cR st <= cR st'.
Proof.
  intros HN Hb Hg Hdt Hbd Hgd. induction n as [|n IH]; intros st Hnn Ht.
  - exists st. split; [reflexivity|]. split; [apply sir_eq_refl|].
    split; [exact Hnn|]. split; [exact Ht|]. split; apply Qle_refl.
  - destruct (euler_regular_nonneg N sub_dt beta gamma st HN Hnn Ht Hb Hg Hdt
                Hbd Hgd) as (Hen & HeS & HeR).
    destruct (substep_exact N sub_dt beta gamma st) as (st1 & Hok & Heq);
      [lra|now apply conserved_of_eq|exact Hen|].
    assert (Hnn1 : nonneg st1).
    { destruct Heq as (E1 & E2 & E3), Hen as (? & ? & ?).
      repeat split; [rewrite E1|rewrite E2|rewrite E3]; assumption. }
    assert (Ht1 : total st1 == N).
    { eapply Qeq_trans; [exact (sir_eq_total _ _ Heq)|].
      eapply Qeq_trans; [|exact Ht].
      apply (euler_update_total N sub_dt beta gamma).
      apply euler_update_ok. lra. }
    destruct (IH st1 Hnn1 Ht1) as (st' & Hok' & Heq' & Hnn' & Ht' & HS' & HR').
    exists st'. cbn [substeps]. rewrite Hok. cbn [bind].
    split; [exact Hok'|]. split.
    { rewrite Nat.iter_succ_r. eapply sir_eq_trans; [exact Heq'|].
      now apply euler_iter_proper. }
    split; [exact Hnn'|]. split; [exact Ht'|].
    destruct Heq as (E1 & _ & E3). split.
    + apply Qle_trans with (cS st1); [exact HS'|]. now rewrite E1.
    + apply Qle_trans with (cR st1); [|exact HR']. now rewrite E3.
Qed.

Section LoopProperties.
Context {rng : Type}.
Variable normal : Q -> Q -> rng -> Q * rng.



(** X10.  Random draws of the loop: when it returns, the loop of [n] sub-steps
    has advanced NumPy's generator by exactly [2 * n] draws of [normal(0,
    0.05)] in stochastic mode, and has not touched it otherwise. *)
Theorem draws_per_loop (sto : bool) (N sub_dt beta gamma : Q) (n : nat)
    (st st' : compartments) (g g' : rng) :
  sub_step_loop normal sto N sub_dt beta gamma n st g = Ok (st', g') ->
  g' = Nat.iter (if sto then 2 * n else 0)
         (fun h => snd (normal 0 0.05 h)) g.
Proof.
  revert st g. induction n as [|n IH]; intros st g; cbn [sub_step_loop].
  - intros [= _ <-]. now destruct sto.
  - destruct (draw_rates normal sto beta gamma g) as [[b' g0] g1] eqn:D.
    destruct (substep N sub_dt b' g0 st) as [st1|]; cbn [bind];
      [|discriminate].
    intros H. rewrite (IH _ _ H). unfold draw_rates in D.
    destruct sto.
    + destruct (normal 0 0.05 g) as [n1 h1] eqn:D1.
      destruct (normal 0 0.05 h1) as [n2 h2] eqn:D2.
      injection D as _ _ <-.
      replace (2 * S n)%nat with (S (S (2 * n))) by lia.
      rewrite !Nat.iter_succ_r, D1. cbn [snd]. now rewrite D2.
    + injection D as _ _ <-. reflexivity.
Qed.

End LoopProperties.

(** ** The populations (lines 44-56) *)

Lemma map_eq_repeat {A B : Type} (f : A -> B) (l : list A) (x : B) :
  (forall e, In e l -> f e = x) -> map f l = repeat x (length l).
Proof.
  induction l as [|e l IH]; intros H; cbn [map length repeat]; [reflexivity|].
  rewrite (H e) by now left. f_equal. apply IH. intros e' He'. apply H.
  now right.
Qed.

(** X11.  The default populations: when no list is supplied, the first
    [num_cities // 3] cities get 100 inhabitants, the cities up to [2 *
    num_cities // 3] get 200 and the remaining ones 500, one entry per city
    and nothing padded; [custom_populations] longer than [num_cities] is kept
    whole, a shorter one is padded with 100 up to [num_cities]. *)
Theorem populations_layout (n : Z) :
  (0 <= n)%Z ->
  fill_populations n None
    = repeat 100%Z (Z.to_nat (n / 3))
      ++ repeat 200%Z (Z.to_nat (2 * n / 3 - n / 3))
      ++ repeat 500%Z (Z.to_nat (n - 2 * n / 3)) /\
  forall l : list Z,
    length (fill_populations n (Some l)) = Nat.max (Z.to_nat n) (length l) /\
    firstn (length l) (fill_populations n (Some l)) = l /\
    forall i, (length l <= i < Z.to_nat n)%nat ->
              nth i (fill_populations n (Some l)) 0%Z = 100%Z.
Proof.
  intros Hn. split.
  - unfold fill_populations.
    assert (Hlen : length (map (default_population n) (range n)) = Z.to_nat n)
      by (unfold range; now rewrite !length_map, length_seq).
    rewrite Hlen. replace (Z.to_nat (n - Z.of_nat (Z.to_nat n))) with O by lia.
    cbn [repeat]. rewrite app_nil_r. unfold range.
    set (a := Z.to_nat (n / 3)).
    set (b := Z.to_nat (2 * n / 3 - n / 3)).
    set (c := Z.to_nat (n - 2 * n / 3)).
    assert (H1 : (0 <= n / 3)%Z) by (apply Z.div_pos; lia).
    assert (H2 : (n / 3 <= 2 * n / 3)%Z) by (apply Z.div_le_mono; lia).
    assert (H3 : (2 * n / 3 <= n)%Z)
      by (apply Z.div_le_upper_bound; lia).
    replace (Z.to_nat n) with (a + (b + c))%nat by lia.
    rewrite !seq_app, !map_app. cbn [Nat.add].
    f_equal; [|f_equal].
    + etransitivity;
        [apply map_eq_repeat|now rewrite length_map, length_seq].
      intros e He.
      apply in_map_iff in He as (k & <- & Hk). apply in_seq in Hk.
      unfold default_population.
      destruct (Z.ltb_spec (Z.of_nat k) (n / 3)); [reflexivity|lia].
    + etransitivity;
        [apply map_eq_repeat|now rewrite length_map, length_seq].
      intros e He.
      apply in_map_iff in He as (k & <- & Hk). apply in_seq in Hk.
      unfold default_population.
      destruct (Z.ltb_spec (Z.of_nat k) (n / 3)); [lia|].
      destruct (Z.ltb_spec (Z.of_nat k) (2 * n / 3)); [reflexivity|lia].
    + etransitivity;
        [apply map_eq_repeat|now rewrite length_map, length_seq].
      intros e He.
      apply in_map_iff in He as (k & <- & Hk). apply in_seq in Hk.
      unfold default_population.
      destruct (Z.ltb_spec (Z.of_nat k) (n / 3)); [lia|].
      destruct (Z.ltb_spec (Z.of_nat k) (2 * n / 3)); [lia|reflexivity].
  - intros l. unfold fill_populations.
    split; [rewrite length_app, repeat_length; lia|].
    split; [now rewrite firstn_app, firstn_all, Nat.sub_diag, app_nil_r|].
    intros i Hi. rewrite app_nth2 by lia.
    rewrite nth_indep with (d' := 100%Z) by (rewrite repeat_length; lia).
    apply nth_repeat.
Qed.

(** * Properties of the visualizer *)

(** ** Scrolling *)

Lemma on_scroll_bounds (button : string) (p : Q) :
  0 <= p <= 1 -> 0 <= on_scroll button p <= 1.
Proof.
  intros [H0 H1]. unfold on_scroll, scroll_step.
  destruct (String.eqb button "up").
  - split; [apply Q.le_max_l|apply Q.max_lub; lra].
  - destruct (String.eqb button "down"); [|lra].
    split; [apply Q.min_glb; lra|apply Q.le_min_l].
Qed.

Lemma on_key_bounds (key : string) (p : Q) :
  0 <= p <= 1 -> 0 <= on_key key p <= 1.
Proof.
  intros [H0 H1]. unfold on_key, scroll_step.
  destruct (String.eqb key "up").
  - split; [apply Q.le_max_l|apply Q.max_lub; lra].
  - destruct (String.eqb key "down").
    + split; [apply Q.min_glb; lra|apply Q.le_min_l].
    + destruct (String.eqb key "home"); [lra|].
      destruct (String.eqb key "end"); lra.
Qed.

(** X12.  The scroll position stays in [[0, 1]]: after any sequence of wheel
    and key events, with any [event.button] and [event.key], starting from a
    position in [[0, 1]] (it is [0.0] initially). *)
Theorem scroll_position_bounded (events : list gui_event) (p : Q) :
  0 <= p <= 1 -> 0 <= fold_left handle_event events p <= 1.
Proof.
  revert p. induction events as [|ev events IH]; intros p Hp;
    cbn [fold_left]; [exact Hp|].
  apply IH. destruct ev; [now apply on_scroll_bounds|now apply on_key_bounds].
Qed.



(** ** The grid layout *)

Lemma pie_cell_spec (i : nat) :
  (i = 3 * fst (pie_cell i) + snd (pie_cell i) /\ snd (pie_cell i) < 3)%nat.
Proof.
  unfold pie_cell; cbn [fst snd].
  pose proof (Nat.div_mod_eq i 3). pose proof (Nat.mod_upper_bound i 3).
  lia.
Qed.

Lemma pie_rows_spec (n : nat) :
  (n <= 3 * pie_rows n < n + 3)%nat.
Proof.
  unfold pie_rows.
  pose proof (Nat.div_mod_eq (n + 2) 3).
  pose proof (Nat.mod_upper_bound (n + 2) 3). lia.
Qed.

(** X15.  The grid of [_setup_layout] for [num_cities] cities: [height_ratios]
    has one entry per grid row (as [GridSpec] requires); every pie chart lies
    in one of the [pie_rows] top rows and in one of the 3 columns, no two pie
    charts share a cell and the last pie row is not empty; the three heatmaps
    and the slider occupy four distinct rows below the pie charts, the slider
    the last row of the grid; and the figure height is positive. *)
Theorem layout_grid (num_cities : nat) :
  length (height_ratios num_cities) = total_rows num_cities /\
  (forall i, (i < num_cities)%nat ->
     (fst (pie_cell i) < pie_rows num_cities)%nat /\
     (snd (pie_cell i) < 3)%nat) /\
  (forall i j, pie_cell i = pie_cell j -> i = j) /\
  ((0 < num_cities)%nat ->
   fst (pie_cell (num_cities - 1)) = (pie_rows num_cities - 1)%nat) /\
  heatmap_rows num_cities
    = [pie_rows num_cities; S (pie_rows num_cities);
       S (S (pie_rows num_cities))] /\
  slider_row num_cities = S (S (S (pie_rows num_cities))) /\
  S (slider_row num_cities) = total_rows num_cities /\
  0 < layout_figure_height num_cities.
Proof.
  pose proof (pie_rows_spec num_cities) as Hr.
  split; [unfold height_ratios, total_rows;
          rewrite length_app, repeat_length; reflexivity|].
  split.
  { intros i Hi. destruct (pie_cell_spec i) as (E & Hc). lia. }
  split.
  { intros i j E. destruct (pie_cell_spec i) as (Ei & _).
    destruct (pie_cell_spec j) as (Ej & _). rewrite E in Ei. lia. }
  split.
  { intros Hn. destruct (pie_cell_spec (num_cities - 1)) as (E & Hc). lia. }
  split; [unfold heatmap_rows; repeat f_equal; lia|].
  unfold slider_row, total_rows, layout_figure_height.
  split; [lia|]. split; [lia|].
  unfold Qlt, inject_Z; cbn [Qnum Qden]. lia.
Qed.

(** ** The tick labels *)

(** X16.  The ticks of the heatmaps for [num_times] time steps: the indices
    [range(0, num_times, step)] are computed without error, start at 0, are
    all valid indices into [self.time_steps], and there are at most 19 of
    them. *)
Theorem tick_indices_valid (num_times : nat) :
  exists ticks,
    tick_indices num_times = Ok ticks /\
    (forall i, In i ticks -> (0 <= i < Z.of_nat num_times)%Z) /\
    (length ticks <= 19)%nat /\
    ((0 < num_times)%nat -> nth 0 ticks 1%Z = 0%Z).
Proof.
  unfold tick_indices, py_range.
  set (n := Z.of_nat num_times). set (q := (n / 10)%Z).
  assert (Hn : (0 <= n)%Z) by (subst n; lia).
  assert (Hq : (0 <= q)%Z) by (apply Z.div_pos; lia).
  assert (Hnq : (10 * q <= n < 10 * q + 10)%Z).
  { pose proof (Z.div_mod n 10 ltac:(lia)).
    pose proof (Z.mod_pos_bound n 10 ltac:(lia)). subst q. lia. }
  set (step := Z.max 1 q).
  assert (Hs : (1 <= step)%Z) by (subst step; lia).
  assert (H0 : (step =? 0)%Z = false) by lia. rewrite H0.
  eexists. split; [reflexivity|].
  unfold range_len.
  assert (H1 : (0 <? step)%Z = true) by lia. rewrite H1.
  destruct (Z.ltb_spec 0 n) as [Hpos|Hz].
  - replace (n - 0 - 1)%Z with (n - 1)%Z by lia.
    set (len := ((n - 1) / step + 1)%Z).
    assert (Hd : (0 <= (n - 1) / step)%Z) by (apply Z.div_pos; lia).
    assert (Hm : (step * ((n - 1) / step) <= n - 1)%Z)
      by (apply Z.mul_div_le; lia).
    assert (Hb : ((n - 1) / step < 19)%Z).
    { apply Z.div_lt_upper_bound; [lia|]. subst step. lia. }
    split; [|split].
    + intros i Hi. apply in_map_iff in Hi as (k & <- & Hk).
      apply in_seq in Hk. subst len. nia.
    + rewrite length_map, length_seq. subst len. lia.
    + intros _. subst len.
      destruct (Z.to_nat ((n - 1) / step + 1)) as [|m] eqn:E; [lia|].
      reflexivity.
  - change (Z.to_nat 0) with O. cbn [seq map length].
    split; [intros i []|]. split; [lia|]. subst n. lia.
Qed.

(** ** The percentages of the heatmaps *)


(** ** Reading a data file *)

Lemma map_result_ok {A B : Type} (f : A -> result B) (l : list A)
    (ys : list B) :
  map_result f l = Ok ys <-> Forall2 (fun x y => f x = Ok y) l ys.
Proof.
  revert ys. induction l as [|x l IH]; intros ys; cbn [map_result].
  - split; [intros [= <-]; constructor|intros H; now inversion H].
  - destruct (f x) as [y|e] eqn:Ex; cbn [bind].
    + destruct (map_result f l) as [ys'|e] eqn:El; cbn [bind].
      * split.
        -- intros [= <-]. constructor; [exact Ex|]. now apply IH.
        -- intros H. inversion H as [|? y' ? ys'' Hy Hl]; subst.
           apply IH in Hl. congruence.
      * split; [discriminate|].
        intros H. inversion H as [|? y' ? ys'' Hy Hl]; subst.
        apply IH in Hl. discriminate.
    + split; [discriminate|].
      intros H. inversion H as [|? y' ? ys'' Hy Hl]; subst. congruence.
Qed.

Lemma map_result_pure {A B : Type} (f : A -> result B) (h : A -> B)
    (l : list A) :
  (forall x, In x l -> f x = Ok (h x)) -> map_result f l = Ok (map h l).
Proof.
  induction l as [|x l IH]; intros H; cbn [map_result map]; [reflexivity|].
  rewrite (H x) by now left. cbn [bind].
  rewrite IH by (intros y Hy; apply H; now right). reflexivity.
Qed.

Lemma map_result_raises {A B : Type} (f : A -> result B) (e : exn)
    (l : list A) :
  (forall x, In x l -> is_ok (f x) \/ f x = Raise e) ->
  (exists x, In x l /\ f x = Raise e) ->
  map_result f l = Raise e.
Proof.
  induction l as [|x l IH]; intros Hall (x0 & Hin & Hx0); [destruct Hin|].
  cbn [map_result].
  destruct (Hall x (or_introl eq_refl)) as [Hok|Hr];
    [|rewrite Hr; reflexivity].
  destruct (f x) as [y|e'] eqn:Ex; [|destruct Hok]. cbn [bind].
  destruct Hin as [->|Hin]; [congruence|].
  rewrite IH; [reflexivity| |eauto].
  intros z Hz. apply Hall. now right.
Qed.

Lemma decimal_int_str (z : Z) : decimal_int (str z) = Ok z.
Proof.
  unfold decimal_int, str.
  assert (Hne : (String.eqb (NilEmpty.string_of_int (Z.to_int z)) ""
                 || String.eqb (NilEmpty.string_of_int (Z.to_int z)) "-")
                = false).
  { assert (Hnil : forall p,
              NilEmpty.string_of_uint (Pos.to_uint p) <> ""%string).
    { intros p H. apply (DecimalPos.Unsigned.to_uint_nonnil p).
      now destruct (Pos.to_uint p). }
    destruct z as [|p|p]; [reflexivity| |]; cbn [Z.to_int].
    - cbn [NilEmpty.string_of_int]. specialize (Hnil p).
      destruct (NilEmpty.string_of_uint (Pos.to_uint p)) as [|c s] eqn:E;
        [congruence|].
      destruct (Pos.to_uint p) as [|d|d|d|d|d|d|d|d|d|d]; cbn in E;
        try discriminate; injection E as <- <-; reflexivity.
    - cbn [NilEmpty.string_of_int]. specialize (Hnil p).
      destruct (NilEmpty.string_of_uint (Pos.to_uint p)) as [|c s] eqn:E;
        [congruence|reflexivity]. }
  rewrite Hne, NilEmpty.isi, DecimalZ.of_to. reflexivity.
Qed.

Lemma all_digits_uint (d : Decimal.uint) :
  all_digits (NilEmpty.string_of_uint d) = true.
Proof. induction d; cbn; auto. Qed.

Lemma decimal_isdigit_str (z : Z) :
  decimal_isdigit (str z) = (0 <=? z)%Z.
Proof.
  unfold decimal_isdigit, str. destruct z as [|p|p]; [reflexivity| |].
  - cbn [Z.to_int NilEmpty.string_of_int].
    pose proof (all_digits_uint (Pos.to_uint p)) as H.
    pose proof (DecimalPos.Unsigned.to_uint_nonnil p) as Hnil.
    destruct (Pos.to_uint p); [congruence|..]; exact H.
  - reflexivity.
Qed.

Section LoaderFacts.
Variable py_int : string -> result Z.
Variable isdigit : string -> bool.
Hypothesis py_int_str : forall z, py_int (str z) = Ok z.
Hypothesis isdigit_str : forall z, isdigit (str z) = (0 <=? z)%Z.

Lemma insert_by_key_canonical (z : Z) (l : list Z) :
  Sorted Z.le l ->
  exists l',
    insert_by_key (z, str z) (map (fun x => (x, str x)) l)
      = map (fun x => (x, str x)) l' /\
    l' ≡ₚ z :: l /\ Sorted Z.le l'.
Proof.
  induction l as [|y l IH]; intros Hs; cbn [insert_by_key map fst].
  - exists [z]. split; [reflexivity|]. split; [reflexivity|].
    repeat constructor.
  - destruct (Z.leb_spec z y) as [Hle|Hgt].
    + exists (z :: y :: l). split; [reflexivity|]. split; [reflexivity|].
      constructor; [exact Hs|]. constructor. exact Hle.
    + apply Sorted_inv in Hs as (Hs & Hhd).
      destruct (IH Hs) as (l' & Heq & Hperm & Hs').
      exists (y :: l'). split; [now rewrite Heq|].
      split; [rewrite Hperm; apply perm_swap|].
      constructor; [exact Hs'|].
      assert (Hall : Forall (Z.le y) (z :: l)).
      { constructor; [lia|].
        apply Sorted_extends; [intros a b c; lia|]. now constructor. }
      rewrite <- Hperm in Hall.
      destruct l' as [|x l']; constructor.
      now apply Forall_inv in Hall.
Qed.

Lemma sort_by_key_canonical (l : list Z) :
  exists l',
    sort_by_key (map (fun x => (x, str x)) l)
      = map (fun x => (x, str x)) l' /\
    l' ≡ₚ l /\ Sorted Z.le l'.
Proof.
  induction l as [|z l (l0 & Heq & Hperm & Hs)]; cbn [sort_by_key map].
  - exists []. split; [reflexivity|]. split; [reflexivity|constructor].
  - rewrite Heq. destruct (insert_by_key_canonical z l0 Hs)
      as (l' & Heq' & Hperm' & Hs').
    exists l'. split; [exact Heq'|]. split; [|exact Hs'].
    now rewrite Hperm', Hperm.
Qed.

Lemma sorted_by_int_canonical (l : list Z) :
  exists l',
    sorted_by_int py_int (map str l) = Ok (map str l') /\
    l' ≡ₚ l /\ Sorted Z.le l'.
Proof.
  unfold sorted_by_int.
  assert (Hk : map_result py_int (map str l) = Ok l).
  { apply map_result_ok. induction l; constructor; auto. }
  rewrite Hk. cbn [bind].
  assert (Hc : combine l (map str l) = map (fun x => (x, str x)) l).
  { clear Hk. induction l as [|z l IH]; cbn [combine map]; [reflexivity|].
    now rewrite IH. }
  rewrite Hc. destruct (sort_by_key_canonical l) as (l' & Heq & Hperm & Hs).
  exists l'. split; [|split; assumption].
  rewrite Heq, map_map. reflexivity.
Qed.


Lemma sorted_by_int_raises (keys : list string) :
  (forall k, In k keys -> is_ok (py_int k) \/ py_int k = Raise ValueError) ->
  (exists k, In k keys /\ py_int k = Raise ValueError) ->
  sorted_by_int py_int keys = Raise ValueError.
Proof.
  intros Hall Hex. unfold sorted_by_int.
  now rewrite (map_result_raises py_int ValueError keys Hall Hex).
Qed.

(** X19.  [sorted(data.keys(), key=int)] on keys written by [str]: the cities
    come out in numeric order, not in the order of the strings; a key that
    [int] rejects makes the call raise [ValueError]. *)
Theorem cities_in_numeric_order (l : list Z) :
  (exists l',
     sorted_by_int py_int (map str l) = Ok (map str l') /\
     l' ≡ₚ l /\ Sorted Z.le l') /\
  (forall keys bad,
     py_int bad = Raise ValueError ->
     sorted_by_int py_int (map str l ++ bad :: keys) = Raise ValueError).
Proof.
  split; [apply sorted_by_int_canonical|].
  intros keys bad Hbad. unfold sorted_by_int.
  assert (H : map_result py_int (map str l ++ bad :: keys)
              = Raise ValueError).
  { induction l as [|z l IH]; cbn [map app map_result].
    - now rewrite Hbad.
    - now rewrite py_int_str, IH. }
  now rewrite H.
Qed.

Lemma canonical_keys (keys : list string) :
  (forall k, In k keys -> exists t, k = str t) ->
  exists ts, map_result py_int keys = Ok ts /\ keys = map str ts.
Proof.
  induction keys as [|k keys IH]; intros H; cbn [map_result].
  - exists []. split; reflexivity.
  - destruct (H k (or_introl eq_refl)) as (t & ->).
    destruct IH as (ts & Hts & Heq); [intros k Hk; apply H; now right|].
    exists (t :: ts). rewrite py_int_str, Hts. cbn [bind map].
    split; [reflexivity|now rewrite <- Heq].
Qed.

Lemma digit_keys_spec (series : gmap string (list Q)) :
  (forall k, is_Some (series !! k) -> exists t, k = str t) ->
  exists ts,
    digit_keys py_int isdigit series = Ok ts /\
    forall t, In t ts <-> (0 <= t)%Z /\ is_Some (series !! str t).
Proof.
  intros Hcan. unfold digit_keys.
  assert (Hkeys : forall k, In k (map fst (map_to_list series))
                            <-> is_Some (series !! k)).
  { intros k. rewrite in_map_iff. split.
    - intros ([k' v] & <- & Hin). apply list_elem_of_In in Hin.
      apply elem_of_map_to_list in Hin. cbn [fst]. eauto.
    - intros [v Hv]. exists (k, v). split; [reflexivity|].
      apply list_elem_of_In. now apply elem_of_map_to_list. }
  destruct (canonical_keys
              (List.filter isdigit (map fst (map_to_list series))))
    as (ts & Hts & Heq).
  { intros k Hk. apply filter_In in Hk as (Hk & _).
    apply Hcan. now apply Hkeys. }
  exists ts. split; [exact Hts|]. intros t.
  transitivity (In (str t) (map str ts)).
  { rewrite in_map_iff. split; [intros H; eauto|].
    intros (t' & Ht' & Hin). apply str_inj in Ht'. now subst. }
  rewrite <- Heq, filter_In, Hkeys, isdigit_str.
  split; intros (H1 & H2); split; try assumption; lia.
Qed.

Lemma Sorted_le_NoDup (l : list Z) :
  Sorted Z.le l -> List.NoDup l -> StronglySorted Z.lt l.
Proof.
  intros Hs Hnd. apply Sorted_StronglySorted in Hs; [|intros a b c; lia].
  induction Hs as [|x l Hs IH Hall]; constructor.
  - apply IH. now apply NoDup_cons_iff in Hnd.
  - apply NoDup_cons_iff in Hnd as (Hnotin & _).
    rewrite List.Forall_forall in *. intros y Hy.
    specialize (Hall y Hy). assert (x <> y) by (intros ->; contradiction).
    lia.
Qed.

Lemma per_city_spec (data : gmap string (gmap string (list Q)))
    (cs : list Z) :
  (forall c series k,
     In c cs -> data !! str c = Some series -> is_Some (series !! k) ->
     exists t, k = str t) ->
  exists per,
    map_result (fun city => digit_keys py_int isdigit (data !!! city))
               (map str cs) = Ok per /\
    forall t, In t (concat per) <->
      (0 <= t)%Z /\
      exists c series, In c cs /\ data !! str c = Some series /\
                       is_Some (series !! str t).
Proof.
  induction cs as [|c cs IH]; intros Hcan; cbn [map map_result].
  - exists []. split; [reflexivity|]. cbn. split; [intros []|].
    intros (_ & c & s & [] & _).
  - destruct (digit_keys_spec (data !!! str c)) as (ts & Hts & Hin).
    { intros k Hk. rewrite lookup_total_alt in Hk.
      destruct (data !! str c) as [series|] eqn:E; cbn in Hk.
      - now apply (Hcan c series k (or_introl eq_refl) E).
      - rewrite lookup_empty in Hk. now destruct Hk. }
    destruct IH as (per & Hper & Hin').
    { intros c' s k Hc'. apply Hcan. now right. }
    exists (ts :: per). rewrite Hts, Hper. cbn [bind].
    split; [reflexivity|]. intros t. cbn [concat].
    rewrite in_app_iff, Hin, Hin'. rewrite lookup_total_alt. split.
    + intros [(H0 & Hs)|(H0 & c' & s & Hc' & Hd & Hs)].
      * destruct (data !! str c) as [series|] eqn:E; cbn in Hs.
        -- split; [exact H0|]. exists c, series.
           split; [now left|]. split; [exact E|exact Hs].
        -- rewrite lookup_empty in Hs. now destruct Hs.
      * split; [exact H0|]. exists c', s. split; [now right|]. now split.
    + intros (H0 & c' & s & [<-|Hc'] & Hd & Hs).
      * left. split; [exact H0|]. now rewrite Hd.
      * right. split; [exact H0|]. exists c', s. now split.
Qed.

Lemma load_lists_canonical (data : gmap string (gmap string (list Q)))
    (l : list Z) :
  (forall c series k,
     In c l -> data !! str c = Some series -> is_Some (series !! k) ->
     exists t, k = str t) ->
  exists l' ts,
    load_lists py_int isdigit (map str l) data = Ok (map str l', ts) /\
    l' ≡ₚ l /\ Sorted Z.le l' /\
    StronglySorted Z.lt ts /\
    forall t, In t ts <->
      (0 <= t)%Z /\
      exists c series, In c l /\ data !! str c = Some series /\
                       is_Some (series !! str t).
Proof.
  intros Hcan. unfold load_lists.
  destruct (sorted_by_int_canonical l) as (l' & Hl' & Hperm & Hs).
  rewrite Hl'. cbn [bind].
  destruct (per_city_spec data l') as (per & Hper & Hin).
  { intros c s k Hc. apply Hcan.
    apply list_elem_of_In. rewrite <- Hperm. now apply list_elem_of_In. }
  rewrite Hper. cbn [bind].
  exists l', (merge_sort Z.le (elements (list_to_set (concat per) : gset Z))).
  split; [reflexivity|]. split; [exact Hperm|]. split; [exact Hs|].
  assert (Hel : forall t,
            In t (merge_sort Z.le
                    (elements (list_to_set (concat per) : gset Z)))
            <-> In t (concat per)).
  { intros t. rewrite <- !list_elem_of_In, merge_sort_Permutation.
    rewrite elem_of_elements, elem_of_list_to_set. reflexivity. }
  split.
  - apply Sorted_le_NoDup.
    + apply Sorted_merge_sort. intros a b. lia.
    + apply NoDup_ListNoDup. rewrite merge_sort_Permutation.
      apply NoDup_elements.
  - intros t. rewrite Hel, Hin. split.
    + intros (H0 & c & s & Hc & Hd & Hk). split; [exact H0|].
      exists c, s. split; [|now split].
      apply list_elem_of_In. rewrite <- Hperm. now apply list_elem_of_In.
    + intros (H0 & c & s & Hc & Hd & Hk). split; [exact H0|].
      exists c, s. split; [|now split].
      apply list_elem_of_In. rewrite Hperm. now apply list_elem_of_In.
Qed.

End LoaderFacts.
(** ** The heatmap arrays *)

Lemma map_result_length {A B : Type} (f : A -> result B) (l : list A)
    (ys : list B) :
  map_result f l = Ok ys -> length ys = length l.
Proof.
  intros H. apply map_result_ok in H. symmetry.
  exact (Forall2_length _ _ _ H).
Qed.

Lemma map_result_total {A B : Type} (f : A -> result B) (l : list A) :
  (forall x, In x l -> is_ok (f x)) -> exists ys, map_result f l = Ok ys.
Proof.
  induction l as [|x l IH]; intros H; cbn [map_result]; [now exists []|].
  pose proof (H x (or_introl eq_refl)) as Hx.
  destruct (f x) as [y|]; [|destruct Hx].
  destruct IH as (ys & ->); [intros z Hz; apply H; now right|].
  now exists (y :: ys).
Qed.

Lemma percentages_outcome (values : list Q) :
  ((3 <= length values)%nat -> is_ok (percentages values)) /\
  ((length values < 3)%nat -> percentages values = Raise IndexError).
Proof.
  unfold percentages, value_at.
  destruct values as [|a [|b [|c [|d l]]]]; cbn [length];
    (split; intros Hlen; [|try reflexivity; lia]); try lia.
  - cbn [lookup list_lookup bind length Nat.ltb Nat.leb]. cbn.
    now destruct (Qlt_le_dec 0 (a + b + c)).
  - cbn. now destruct (Qlt_le_dec 0 d).
Qed.

Lemma percentages_record (s i r N : Q) :
  0 < N ->
  percentages [s; i; r; N] = Ok (s / N * 100, i / N * 100, r / N * 100).
Proof.
  intros HN. unfold percentages.
  cbn [value_at lookup length Nat.ltb Nat.leb bind]. cbn.
  destruct (Qlt_le_dec 0 N) as [_|Hle]; [reflexivity|lra].
Qed.

(** The data point of a city at a time step, if there is one. *)
Lemma cell_outcome (data : gmap string (gmap string (list Q)))
    (city : string) (t : Z) :
  match data !! city ≫= (fun series => series !! str t) with
  | Some rec =>
      ((3 <= length rec)%nat -> cell data city t = percentages rec /\
                                is_ok (cell data city t)) /\
      ((length rec < 3)%nat -> cell data city t = Raise IndexError)
  | None => cell data city t = Ok (0, 0, 0)
  end.
Proof.
  unfold cell. destruct (data !! city) as [series|]; cbn; [|reflexivity].
  destruct (series !! str t) as [rec|]; [|reflexivity].
  destruct (percentages_outcome rec) as (Hok & Hraise).
  split; [intros H; split; [reflexivity|now apply Hok]|exact Hraise].
Qed.

Lemma cell_ok_or_index_error (data : gmap string (gmap string (list Q)))
    (city : string) (t : Z) :
  is_ok (cell data city t) \/ cell data city t = Raise IndexError.
Proof.
  pose proof (cell_outcome data city t) as H.
  destruct (data !! city ≫= (fun series => series !! str t)) as [rec|].
  - destruct H as (H3 & Hs).
    destruct (Nat.lt_ge_cases (length rec) 3) as [Hlt|Hge];
      [right; now apply Hs|left; now apply H3].
  - left. now rewrite H.
Qed.

Lemma row_ok_or_index_error (data : gmap string (gmap string (list Q)))
    (city : string) (time_steps : list Z) :
  is_ok (map_result (cell data city) time_steps) \/
  map_result (cell data city) time_steps = Raise IndexError.
Proof.
  induction time_steps as [|t ts IH]; cbn [map_result]; [now left|].
  destruct (cell_ok_or_index_error data city t) as [Hok| ->]; [|now right].
  destruct (cell data city t) as [p|]; [|destruct Hok]. cbn [bind].
  destruct IH as [Hok'| ->]; [|now right].
  destruct (map_result (cell data city) ts); [now left|destruct Hok'].
Qed.

(** The rows [update_data_arrays] fills when no data point is too short. *)
Lemma update_data_arrays_rows
    (data : gmap string (gmap string (list Q)))
    (cities : list string) (time_steps : list Z) :
  cities <> [] -> time_steps <> [] ->
  (forall city t, In city cities -> In t time_steps ->
                  is_ok (cell data city t)) ->
  exists rows,
    update_data_arrays cities time_steps data = Ok (Some (arrays_of rows)) /\
    Forall2 (fun city row =>
               Forall2 (fun t p => cell data city t = Ok p) time_steps row)
            cities rows.
Proof.
  intros Hc Ht Hok.
  destruct (map_result_total
              (fun city => map_result (cell data city) time_steps) cities)
    as (rows & Hrows).
  { intros city Hcity.
    destruct (map_result_total (cell data city) time_steps) as (row & ->);
      [intros t Hin; now apply Hok|exact I]. }
  exists rows. split.
  - unfold update_data_arrays.
    destruct cities as [|c cs]; [congruence|].
    destruct time_steps as [|t ts]; [congruence|].
    rewrite Hrows. reflexivity.
  - apply map_result_ok in Hrows.
    eapply Forall2_impl; [exact Hrows|].
    intros city row Hrow. now apply map_result_ok.
Qed.

Lemma arrays_of_entry (rows : list (list (Q * Q * Q))) (c_idx t_idx : nat)
    (row : list (Q * Q * Q)) (s i r : Q) :
  rows !! c_idx = Some row -> row !! t_idx = Some (s, i, r) ->
  entry (s_data (arrays_of rows)) c_idx t_idx = Some s /\
  entry (i_data (arrays_of rows)) c_idx t_idx = Some i /\
  entry (r_data (arrays_of rows)) c_idx t_idx = Some r.
Proof.
  intros Hrow Hp. unfold entry, arrays_of. cbn [s_data i_data r_data].
  rewrite !list_lookup_fmap, Hrow. cbn.
  rewrite !list_lookup_fmap, Hp. cbn. auto.
Qed.

(** X21.  [update_data_arrays] on a non-empty list of cities and of time
    steps: it raises [IndexError] exactly when some city has, at one of the
    time steps, a data point with fewer than three entries, and raises nothing
    else; otherwise the three arrays have one row per city and one column per
    time step. *)
Theorem update_data_arrays_outcome
    (data : gmap string (gmap string (list Q)))
    (cities : list string) (time_steps : list Z) :
  cities <> [] -> time_steps <> [] ->
  let short :=
    exists city t rec,
      In city cities /\ In t time_steps /\
      data !! city ≫= (fun series => series !! str t) = Some rec /\
      (length rec < 3)%nat in
  (short ->
   update_data_arrays cities time_steps data = Raise IndexError) /\
  (~ short ->
   exists a,
     update_data_arrays cities time_steps data = Ok (Some a) /\
     Forall (fun a' =>
               length a' = length cities /\
               Forall (fun row => length row = length time_steps) a')
            [s_data a; i_data a; r_data a]).
Proof.
  intros Hc Ht short. split.
  - intros (city & t & rec & Hcity & Hin & Hrec & Hlen).
    unfold update_data_arrays.
    destruct cities as [|c0 cs] eqn:Ec; [congruence|].
    destruct time_steps as [|t0 ts] eqn:Et; [congruence|].
    rewrite <- Ec, <- Et in *.
    rewrite (map_result_raises _ IndexError cities); [reflexivity| |].
    + intros c _. apply row_ok_or_index_error.
    + exists city. split; [exact Hcity|].
      apply map_result_raises.
      * intros t' _. apply cell_ok_or_index_error.
      * exists t. split; [exact Hin|].
        pose proof (cell_outcome data city t) as H. rewrite Hrec in H.
        now apply H.
  - intros Hns.
    destruct (update_data_arrays_rows data cities time_steps Hc Ht)
      as (rows & Hup & Hrows).
    { intros city t Hcity Hin.
      destruct (cell_ok_or_index_error data city t) as [Hok|Hr];
        [exact Hok|].
      exfalso. apply Hns.
      pose proof (cell_outcome data city t) as H.
      destruct (data !! city ≫= (fun series => series !! str t))
        as [rec|] eqn:E; [|congruence].
      exists city, t, rec. repeat (split; [assumption|]).
      destruct (Nat.lt_ge_cases (length rec) 3) as [Hlt|Hge];
        [exact Hlt|].
      destruct H as (H3 & _). destruct (H3 Hge) as (_ & Hok).
      rewrite Hr in Hok. destruct Hok. }
    exists (arrays_of rows). split; [exact Hup|].
    assert (Hlen : length rows = length cities)
      by (symmetry; exact (Forall2_length _ _ _ Hrows)).
    assert (Hrow : Forall (fun row => length row = length time_steps) rows).
    { apply List.Forall_forall. intros row Hin.
      apply list_elem_of_In in Hin.
      apply list_elem_of_lookup in Hin as (k & Hk).
      destruct (Forall2_lookup_r _ _ _ _ _ Hrows Hk) as (city & _ & H).
      symmetry. exact (Forall2_length _ _ _ H). }
    unfold arrays_of. cbn [s_data i_data r_data].
    repeat constructor; rewrite ?length_map; try exact Hlen;
      apply Forall_map; (eapply Forall_impl; [exact Hrow|]);
      intros row Hr; cbn; now rewrite length_map.
Qed.
(** ** From the generator to the visualizer *)

Lemma range_sorted (n : Z) : Sorted Z.le (range n).
Proof.
  unfold range. generalize 0%nat as start.
  induction (Z.to_nat n) as [|m IH]; intros start; cbn [seq map];
    constructor; [apply IH|].
  destruct m; cbn [seq map]; constructor. lia.
Qed.

Lemma one_le_inject_Z (z : Z) : (1 <= z)%Z -> 1 <= inject_Z z.
Proof. intros H. unfold Qle, inject_Z. cbn. lia. Qed.

Section Pipeline.
Context {rng : Type}.
Variable normal : Q -> Q -> rng -> Q * rng.
Variable seed : Z -> result rng.
Variable py_int : string -> result Z.
Variable isdigit : string -> bool.
Hypothesis py_int_str : forall z, py_int (str z) = Ok z.
Hypothesis isdigit_str : forall z, isdigit (str z) = (0 <=? z)%Z.

(** Every data point of a generated dictionary, on valid arguments. *)
Lemma generated_record (a : args) (g g' : rng)
    (data : gmap string (gmap string (list Q)))
    (time_points : list Z) (city t : Z) :
  valid_args a ->
  generate_sirn_data normal seed a g = Ok (data, g') ->
  make_time_points (max_time a) (time_step a) = Ok time_points ->
  (0 <= city < num_cities a)%Z -> t = 0%Z \/ In t time_points ->
  exists series s i r N,
    data !! str city = Some series /\
    series !! str t = Some [s; i; r; N] /\
    0 <= s /\ 0 <= i /\ 0 <= r /\ 1 <= N /\
    Qabs (s + i + r - N) <= drift_tolerance.
Proof.
  intros (Hts & Hi & Hpop) Hgen Htp Hc Ht.
  pose proof Hgen as Hloop. unfold generate_sirn_data in Hloop.
  destruct (match random_seed a with Some s => seed s | None => Ok g end)
    as [g0|]; cbn [bind] in Hloop; [|discriminate].
  destruct (city_loop_in normal a _ _ (range_NoDup (num_cities a))
              _ _ _ _ Hloop city) as (series & g1 & g2 & Hcs & Hd);
    [now apply range_In|].
  destruct (city_series_keys normal _ _ _ _ _ _ Hcs) as (tp & Htp' & Hkeys).
  rewrite Htp in Htp'. injection Htp' as <-.
  assert (Hsome : is_Some (series !! str t)).
  { apply Hkeys. destruct Ht as [->|Ht]; [now left|right; eauto]. }
  destruct Hsome as (rec & Hrec).
  destruct (Hpop city Hc) as (HP0 & HN).
  pose proof (fill_populations_getitem a city Hc) as HP.
  destruct (city_series_good normal a _ city _ g1 HP Hts Hi HP0 HN)
    as (series' & g2' & Hcs' & Hgood).
  rewrite Hcs in Hcs'. injection Hcs' as <- <-.
  destruct (Hgood _ _ Hrec) as (s & i & r & N & -> & Hs & Hi0 & Hr & _ & Hc').
  destruct (city_series_spec normal _ _ _ _ _ _ Hcs)
    as (P & HP' & _ & _ & Htot).
  rewrite HP in HP'. injection HP' as <-.
  specialize (Htot _ _ Hrec). cbn in Htot. injection Htot as ->.
  exists series, s, i, r,
    (inject_Z (city_population a city + initial_infected a)).
  repeat (split; [assumption|]). split; [|exact Hc'].
  apply one_le_inject_Z. lia.
Qed.

Lemma membership_Permutation (l1 l2 : list Z) :
  List.NoDup l1 -> List.NoDup l2 -> (forall x, In x l1 <-> In x l2) ->
  l1 ≡ₚ l2.
Proof. intros H1 H2 H. now apply Permutation.NoDup_Permutation. Qed.

(** The time steps read back from a generated dictionary. *)
Lemma load_generated_file (a : args) (g g' : rng)
    (data : gmap string (gmap string (list Q))) (keys : list string) :
  generate_sirn_data normal seed a g = Ok (data, g') ->
  keys ≡ₚ elements (dom data) ->
  exists time_steps,
    load_lists py_int isdigit keys data
      = Ok (map str (range (num_cities a)), time_steps) /\
    StronglySorted Z.lt time_steps /\
    (forall t, In t time_steps <->
       (0 < num_cities a)%Z /\ (0 <= t)%Z /\
       (t = 0%Z \/
        exists time_points,
          make_time_points (max_time a) (time_step a) = Ok time_points /\
          In t time_points)).
Proof.
  intros Hgen Hperm.
  pose proof (generate_city_keys normal seed a g g' data Hgen) as Hcities.
  assert (Hkey : forall k, In k keys <-> is_Some (data !! k)).
  { intros k. rewrite <- list_elem_of_In, Hperm, elem_of_elements.
    apply elem_of_dom. }
  destruct (canonical_keys py_int py_int_str keys) as (l & _ & ->).
  { intros k Hk. apply Hkey, Hcities in Hk as (c & _ & ->). eauto. }
  assert (Hl : forall c, In c l <-> In c (range (num_cities a))).
  { intros c. rewrite range_In. split.
    - intros Hc. assert (Hin : In (str c) (map str l)) by now apply in_map.
      apply Hkey, Hcities in Hin as (c' & Hc' & E).
      apply str_inj in E. now subst.
    - intros Hc. assert (Hin : In (str c) (map str l))
        by (apply Hkey, Hcities; eauto).
      apply in_map_iff in Hin as (c' & E & Hc'). apply str_inj in E.
      now subst. }
  assert (Hnd : List.NoDup l).
  { apply (NoDup_map_inv str). apply NoDup_ListNoDup. rewrite Hperm.
    apply NoDup_elements. }
  assert (Hcan : forall c series k,
            In c l -> data !! str c = Some series ->
            is_Some (series !! k) -> exists t, k = str t).
  { intros c series k _ Hs Hk.
    destruct (generate_series_keys normal seed a g g' data _ _ Hgen Hs)
      as (tp & _ & Hkeys).
    destruct (proj1 (Hkeys k) Hk) as [E|(t & _ & E)];
      [exists 0%Z|exists t]; exact E. }
  destruct (load_lists_canonical py_int isdigit py_int_str isdigit_str
              data l Hcan) as (l' & ts & Hload & Hperm' & Hs & Hss & Hin).
  assert (El : l' = range (num_cities a)).
  { apply (Sorted_unique_strong Z.le); [intros; lia|exact Hs| |].
    - apply range_sorted.
    - rewrite Hperm'. apply membership_Permutation;
        [exact Hnd|apply range_NoDup|exact Hl]. }
  subst l'. exists ts. split; [exact Hload|]. split; [exact Hss|].
  intros t. rewrite Hin. split.
  - intros (H0 & c & series & Hc & Hd & Hk).
    apply Hl, range_In in Hc. split; [lia|]. split; [exact H0|].
    destruct (generate_series_keys normal seed a g g' data _ _ Hgen Hd)
      as (tp & Htp & Hkeys).
    destruct (proj1 (Hkeys _) Hk) as [E|(t' & Ht' & E)].
    + left. apply str_inj. now rewrite E.
    + right. apply str_inj in E. subst t'. eauto.
  - intros (Hn & H0 & Ht). split; [exact H0|].
    assert (Hc0 : (0 <= 0 < num_cities a)%Z) by lia.
    destruct (proj2 (Hcities (str 0)) (ex_intro _ 0%Z (conj Hc0 eq_refl)))
      as (series & Hd).
    exists 0%Z, series. split; [apply Hl, range_In; exact Hc0|].
    split; [exact Hd|].
    destruct (generate_series_keys normal seed a g g' data _ _ Hgen Hd)
      as (tp & Htp & Hkeys).
    apply Hkeys. destruct Ht as [->|(tp' & Htp' & Ht)]; [now left|].
    rewrite Htp in Htp'. injection Htp' as <-. right. eauto.
Qed.

(** For a positive time step and a positive last time, a strictly
    increasing list that holds 0 and the time points is 0 followed by the
    time points. *)
Lemma positive_time_steps (max_time time_step : Z)
    (time_points time_steps : list Z) :
  (0 < time_step)%Z -> (0 < max_time)%Z ->
  make_time_points max_time time_step = Ok time_points ->
  StronglySorted Z.lt time_steps ->
  (forall t, In t time_steps <-> t = 0%Z \/ In t time_points) ->
  time_steps = 0%Z :: time_points.
Proof.
  intros Hts Hmt Htp Hss Hmem.
  destruct (time_points_sorted _ _ _ Hts Hmt Htp) as (_ & Hsorted & Hrange).
  assert (Hs0 : StronglySorted Z.lt (0%Z :: time_points)).
  { constructor; [exact Hsorted|]. apply List.Forall_forall.
    intros t Ht. apply Hrange in Ht. lia. }
  apply (StronglySorted_unique_strong Z.lt); [intros; lia|assumption..|].
  apply membership_Permutation;
    [now apply StronglySorted_lt_NoDup..|].
  intros t. rewrite Hmem. cbn [In]. split; intros [H|H]; auto.
Qed.

(** X20.  Lines 422-426 on the dictionary [generate_sirn_data] returned, read
    back with its keys in any order: the cities are [str(0)], ...,
    [str(num_cities - 1)] in numeric order; the time steps are strictly
    increasing and are exactly 0 and the non-negative time points (negative
    ones are dropped by [isdigit]); for a positive [time_step] and [max_time]
    they are 0 followed by the time points of the generator. *)
Theorem reads_generated_file (a : args) (g g' : rng)
    (data : gmap string (gmap string (list Q))) (keys : list string) :
  generate_sirn_data normal seed a g = Ok (data, g') ->
  keys ≡ₚ elements (dom data) ->
  exists time_steps,
    load_lists py_int isdigit keys data
      = Ok (map str (range (num_cities a)), time_steps) /\
    StronglySorted Z.lt time_steps /\
    (forall t, In t time_steps <->
       (0 < num_cities a)%Z /\ (0 <= t)%Z /\
       (t = 0%Z \/
        exists time_points,
          make_time_points (max_time a) (time_step a) = Ok time_points /\
          In t time_points)) /\
    (forall time_points,
       make_time_points (max_time a) (time_step a) = Ok time_points ->
       (0 < num_cities a)%Z -> (0 < time_step a)%Z -> (0 < max_time a)%Z ->
       time_steps = 0%Z :: time_points).
Proof.
  intros Hgen Hperm.
  destruct (load_generated_file a g g' data keys Hgen Hperm)
    as (ts & Hload & Hss & Hmem).
  exists ts. split; [exact Hload|]. split; [exact Hss|].
  split; [exact Hmem|].
  intros tp Htp Hn Hts Hmt.
  apply (positive_time_steps _ _ _ _ Hts Hmt Htp Hss).
  intros t. rewrite Hmem. split.
  - intros (_ & _ & [->|(tp' & Htp' & Ht)]); [now left|].
    rewrite Htp in Htp'. injection Htp' as <-. now right.
  - destruct (time_points_sorted _ _ _ Hts Hmt Htp) as (_ & _ & Hrange).
    intros [->|Ht]; (split; [exact Hn|]).
    + split; [lia|now left].
    + split; [apply Hrange in Ht; lia|right; eauto].
Qed.

(** The heatmap entries of a generated data point. *)
Lemma generated_cell (a : args) (g g' : rng)
    (data : gmap string (gmap string (list Q)))
    (time_points : list Z) (city t : Z) :
  valid_args a ->
  generate_sirn_data normal seed a g = Ok (data, g') ->
  make_time_points (max_time a) (time_step a) = Ok time_points ->
  (0 <= city < num_cities a)%Z -> In t (0%Z :: time_points) ->
  exists s i r,
    cell data (str city) t = Ok (s, i, r) /\
    0 <= s /\ 0 <= i /\ 0 <= r /\
    Qabs (s + i + r - 100) <= 1 # 10000000.
Proof.
  intros Hvalid Hgen Htp Hc Ht.
  destruct (generated_record a g g' data time_points city t Hvalid Hgen
              Htp Hc)
    as (series & s & i & r & N & Hd & Hrec & Hs & Hi & Hr & HN & Hdr).
  { destruct Ht as [<-|Ht]; [now left|now right]. }
  exists (s / N * 100), (i / N * 100), (r / N * 100). split.
  { unfold cell. rewrite Hd, Hrec. apply percentages_record. lra. }
  assert (HN0 : 0 < N) by lra.
  assert (Hp0 : forall x, 0 <= x -> 0 <= x / N * 100).
  { intros x Hx. apply Qmult_le_0_compat; [|lra]. now apply Qdiv_nonneg. }
  do 3 (split; [now apply Hp0|]).
  assert (Ed : s / N * 100 + i / N * 100 + r / N * 100 - 100
               == (s + i + r - N) * (100 / N)) by (field; lra).
  rewrite Ed, Qabs_Qmult.
  assert (H100 : 0 <= 100 / N <= 100).
  { split; [apply Qdiv_nonneg; lra|].
    apply Qle_shift_div_r; lra. }
  rewrite (Qabs_pos (100 / N)) by apply H100.
  pose proof (Qabs_nonneg (s + i + r - N)) as Habs.
  unfold drift_tolerance in Hdr.
  revert Habs Hdr H100.
  generalize (Qabs (s + i + r - N)) as x, (100 / N) as y.
  intros x y Hx0 Hx Hy. nra.
Qed.

Lemma range_lookup (n : Z) (c_idx : nat) :
  (Z.of_nat c_idx < n)%Z ->
  map str (range n) !! c_idx = Some (str (Z.of_nat c_idx)).
Proof.
  intros Hc. unfold range.
  rewrite !list_lookup_fmap, lookup_seq_lt by lia. reflexivity.
Qed.


End Pipeline.
(** ** The bookkeeping of the visualizer *)

Lemma update_plots_returns (v v' : visualizer) :
  update_plots v = Returns v' ->
  same_fields v v' /\
  (current_time_idx v' = current_time_idx v \/
   (length (time_steps v) <= current_time_idx v)%nat /\
   current_time_idx v' = (length (time_steps v) - 1)%nat).
Proof.
  unfold update_plots, same_fields.
  destruct (time_steps v) as [|t ts] eqn:Et;
    [intros [= <-]; rewrite Et; tauto|].
  destruct (cities v) as [|c cs] eqn:Ec;
    [intros [= <-]; rewrite Et, Ec; tauto|].
  assert (Hidx : forall idx,
            idx = (if (length (t :: ts) <=? current_time_idx v)%nat
                   then (length (t :: ts) - 1)%nat
                   else current_time_idx v) ->
            idx = current_time_idx v \/
            (length (t :: ts) <= current_time_idx v)%nat /\
            idx = (length (t :: ts) - 1)%nat).
  { intros idx ->.
    destruct (Nat.leb_spec (length (t :: ts)) (current_time_idx v));
      [right; split; [assumption|reflexivity]|now left]. }
  revert Hidx. generalize (if (length (t :: ts) <=? current_time_idx v)%nat
                           then (length (t :: ts) - 1)%nat
                           else current_time_idx v) as idx.
  intros idx Hidx. specialize (Hidx idx eq_refl).
  destruct (getitem _ _) as [ct|]; cbn [of_result and_then]; [|discriminate].
  destruct (map_result _ _); cbn [of_result and_then]; [|discriminate].
  destruct (heat_data v) as [arr|] eqn:Eh; [|discriminate].
  intros [= <-].
  cbn [data cities time_steps pie_axes heat_data scroll_pos
       current_time_idx].
  split; [repeat split; reflexivity|exact Hidx].
Qed.

Lemma same_fields_refl (v : visualizer) : same_fields v v.
Proof. unfold same_fields. tauto. Qed.

Lemma same_fields_trans (v1 v2 v3 : visualizer) :
  same_fields v1 v2 -> same_fields v2 v3 -> same_fields v1 v3.
Proof.
  unfold same_fields.
  intros (A1 & A2 & A3 & A4 & A5 & A6) (B1 & B2 & B3 & B4 & B5 & B6).
  repeat split; congruence.
Qed.

Lemma update_time_returns (val : nat) (v v' : visualizer) :
  update_time val v = Returns v' ->
  same_fields v v' /\
  (current_time_idx v' = val \/
   (length (time_steps v) <= val)%nat /\
   current_time_idx v' = (length (time_steps v) - 1)%nat).
Proof.
  unfold update_time. intros H.
  apply update_plots_returns in H as (Hs & Hi). exact (conj Hs Hi).
Qed.

Lemma update_slider_range_returns (v v' : visualizer) :
  update_slider_range v = Returns v' -> same_fields v v'.
Proof.
  unfold update_slider_range. destruct (time_steps v) eqn:E.
  - intros [= <-]. apply same_fields_refl.
  - intros H. now apply update_time_returns in H as (Hs & _).
Qed.

Lemma update_arrays_returns (v v' : visualizer) :
  update_arrays v = Returns v' ->
  data v' = data v /\ cities v' = cities v /\
  time_steps v' = time_steps v /\ pie_axes v' = pie_axes v /\
  scroll_pos v' = scroll_pos v /\
  current_time_idx v' = current_time_idx v /\
  exists a,
    update_data_arrays (cities v) (time_steps v) (data v) = Ok a /\
    heat_data v' = match a with Some a' => Some a' | None => heat_data v end.
Proof.
  unfold update_arrays.
  destruct (update_data_arrays _ _ _) as [[a|]|]; cbn [of_result and_then];
    [| |discriminate]; intros [= <-]; cbn; repeat (split; [reflexivity|]);
    eexists; split; reflexivity.
Qed.

Lemma index_lookup (t : Z) (l : list Z) (k : nat) :
  index t l = Ok k -> l !! k = Some t.
Proof.
  revert k. induction l as [|x l IH]; intros k; cbn [index]; [discriminate|].
  destruct (Z.eqb_spec x t) as [->|_]; [now intros [= <-]|].
  destruct (index t l) as [k'|]; cbn [bind]; [|discriminate].
  intros [= <-]. now apply IH.
Qed.

Lemma existsb_eqb_In (s : string) (l : list string) :
  existsb (String.eqb s) l = true <-> In s l.
Proof.
  rewrite existsb_exists. split.
  - intros (x & Hx & E). apply String.eqb_eq in E. now subst.
  - intros H. exists s. split; [exact H|apply String.eqb_refl].
Qed.

Lemma existsb_Zeqb_In (t : Z) (l : list Z) :
  existsb (Z.eqb t) l = true <-> In t l.
Proof.
  rewrite existsb_exists. split.
  - intros (x & Hx & E). apply Z.eqb_eq in E. now subst.
  - intros H. exists t. split; [exact H|apply Z.eqb_refl].
Qed.

Section VisualizerFacts.
Variable py_int : string -> result Z.

Lemma add_city_returns (city_str : string) (v v1 : visualizer) :
  add_city py_int city_str v = Returns v1 ->
  time_steps v1 = time_steps v /\ heat_data v1 = heat_data v /\
  current_time_idx v1 = current_time_idx v /\
  data v1 = match data v !! city_str with
            | Some _ => data v
            | None => <[city_str := ∅]> (data v)
            end /\
  (is_Some (data v !! city_str) \/ In city_str (cities v) ->
   cities v1 = cities v /\ pie_axes v1 = pie_axes v) /\
  (data v !! city_str = None -> ~ In city_str (cities v) ->
   sorted_by_int py_int (cities v ++ [city_str]) = Ok (cities v1) /\
   pie_axes v1 = length (cities v1)).
Proof.
  unfold add_city. destruct (data v !! city_str) as [series|] eqn:Ed.
  - intros [= <-]. repeat (split; [reflexivity|]).
    split; [intros _; split; reflexivity|discriminate].
  - destruct (existsb (String.eqb city_str) (cities v)) eqn:Ex.
    + apply existsb_eqb_In in Ex. intros [= <-]. cbn.
      repeat (split; [reflexivity|]).
      split; [intros _; split; reflexivity|intros _ H; contradiction].
    + assert (Hnot : ~ In city_str (cities v)).
      { intros H. apply existsb_eqb_In in H. congruence. }
      destruct (sorted_by_int py_int (cities v ++ [city_str])) as [cs|];
        cbn [of_result and_then]; [|discriminate].
      intros [= <-]. cbn. repeat (split; [reflexivity|]). split.
      * intros [[x Hx]|H]; [discriminate|contradiction].
      * intros _ _. split; reflexivity.
Qed.

Lemma add_time_step_returns (t : Z) (v v' : visualizer) :
  add_time_step t v = Returns v' ->
  data v' = data v /\ cities v' = cities v /\ pie_axes v' = pie_axes v /\
  (In t (time_steps v) ->
   time_steps v' = time_steps v /\ heat_data v' = heat_data v) /\
  (~ In t (time_steps v) ->
   time_steps v' = merge_sort Z.le (time_steps v ++ [t]) /\
   exists a,
     update_data_arrays (cities v) (time_steps v') (data v) = Ok a /\
     heat_data v' = match a with
                    | Some a' => Some a'
                    | None => heat_data v
                    end).
Proof.
  unfold add_time_step.
  destruct (existsb (Z.eqb t) (time_steps v)) eqn:Ex.
  - apply existsb_Zeqb_In in Ex. intros [= <-].
    repeat (split; [reflexivity|]).
    split; [intros _; split; reflexivity|intros H; contradiction].
  - assert (Hnot : ~ In t (time_steps v)).
    { intros H. apply existsb_Zeqb_In in H. congruence. }
    destruct (update_arrays _) as [v1| |] eqn:E1; cbn [and_then];
      [|discriminate..].
    intros H2. apply update_slider_range_returns in H2
      as (B1 & B2 & B3 & B4 & B5 & B6).
    apply update_arrays_returns in E1
      as (A1 & A2 & A3 & A4 & A5 & A6 & a & Ha & Hh).
    cbn in A1, A2, A3, A4, Ha, Hh.
    split; [congruence|]. split; [congruence|]. split; [congruence|].
    split; [intros H; contradiction|]. intros _.
    split; [congruence|]. exists a. rewrite B3, A3. split; [exact Ha|].
    congruence.
Qed.

Lemma add_data_point_spec (city : city_id) (time_step : Z)
    (values : list Q) (v v' : visualizer) :
  add_data_point py_int city time_step values v = Returns v' ->
  data v' = <[str_id city :=
                <[str time_step := values]> (data v !!! str_id city)]>
              (data v) /\
  time_steps v' !! current_time_idx v' = Some time_step /\
  (In time_step (time_steps v) ->
   time_steps v' = time_steps v /\ heat_data v' = heat_data v) /\
  (~ In time_step (time_steps v) ->
   time_steps v' = merge_sort Z.le (time_steps v ++ [time_step]) /\
   exists a,
     update_data_arrays (cities v') (time_steps v') (data v') = Ok a /\
     heat_data v' = match a with
                    | Some a' => Some a'
                    | None => heat_data v
                    end) /\
  (is_Some (data v !! str_id city) \/ In (str_id city) (cities v) ->
   cities v' = cities v /\ pie_axes v' = pie_axes v) /\
  (data v !! str_id city = None -> ~ In (str_id city) (cities v) ->
   sorted_by_int py_int (cities v ++ [str_id city]) = Ok (cities v') /\
   pie_axes v' = length (cities v')).
Proof.
  unfold add_data_point.
  destruct (add_city py_int (str_id city) v) as [v1| |] eqn:E1;
    cbn [and_then]; [|discriminate..].
  apply add_city_returns in E1 as (C1 & C2 & C3 & C4 & C5 & C6).
  set (v2 := {| data := _; cities := cities v1 |}).
  destruct (add_time_step time_step v2) as [v3| |] eqn:E3; cbn [and_then];
    [|discriminate..].
  apply add_time_step_returns in E3 as (T1 & T2 & T3 & Told & Tnew).
  destruct (index time_step (time_steps v3)) as [idx|] eqn:Ei;
    cbn [of_result and_then]; [|discriminate].
  apply index_lookup in Ei.
  destruct (update_time idx v3) as [v4| |] eqn:E4; cbn [and_then];
    [|discriminate..].
  apply update_time_returns in E4 as ((U1 & U2 & U3 & U4 & U5 & U6) & Uidx).
  intros E5.
  apply update_plots_returns in E5 as ((P1 & P2 & P3 & P4 & P5 & P6) & Pidx).
  assert (Hlt : (idx < length (time_steps v3))%nat)
    by (apply lookup_lt_is_Some; eauto).
  assert (Hidx : current_time_idx v' = idx).
  { destruct Uidx as [Hu|(Hu & _)]; [|lia].
    destruct Pidx as [Hp|(Hp & _)]; [congruence|].
    rewrite U3, Hu in Hp. lia. }
  assert (Hdata : data v' = <[str_id city :=
                    <[str time_step := values]> (data v !!! str_id city)]>
                    (data v)).
  { rewrite P1, U1, T1. subst v2. cbn [data]. rewrite C4.
    destruct (data v !! str_id city) as [series|] eqn:Ed; [reflexivity|].
    rewrite insert_insert_eq, lookup_total_insert_eq.
    rewrite lookup_total_alt, Ed. reflexivity. }
  split; [exact Hdata|].
  split; [rewrite P3, U3, Hidx; exact Ei|].
  subst v2. cbn [time_steps heat_data cities data pie_axes] in *.
  rewrite C1 in Told, Tnew. rewrite C2 in Told, Tnew. split; [|split].
  - intros Hin. destruct (Told Hin) as (H1 & H2). split; congruence.
  - intros Hnot. destruct (Tnew Hnot) as (H1 & a & Ha & Hh).
    split; [congruence|]. exists a. split; [|congruence].
    rewrite Hdata, P2, U2, T2, P3, U3. rewrite C4 in Ha.
    rewrite <- Ha. f_equal.
    destruct (data v !! str_id city) as [series|] eqn:Ed; [reflexivity|].
    rewrite insert_insert_eq, lookup_total_insert_eq.
    rewrite lookup_total_alt, Ed. reflexivity.
  - split.
    + intros H. destruct (C5 H) as (H1 & H2). split; congruence.
    + intros Hd Hc. destruct (C6 Hd Hc) as (H1 & H2).
      rewrite P2, U2, T2, P4, U4, T3. split; [exact H1|exact H2].
Qed.

(** X23.  One call of [add_data_point] that returns: the data point is stored
    under [str(city)] and [str(time_step)]; the slider ends on the time step;
    a time step not seen before is inserted in order and the three arrays are
    computed anew from all the data; but at a time step already known the
    arrays are left as they were, so the new data point is not in them. *)
Theorem add_data_point_effect (city : city_id) (time_step : Z)
    (values : list Q) (v v' : visualizer) :
  add_data_point py_int city time_step values v = Returns v' ->
  data v' !! str_id city ≫= (fun series => series !! str time_step)
    = Some values /\
  time_steps v' !! current_time_idx v' = Some time_step /\
  (In time_step (time_steps v) ->
   time_steps v' = time_steps v /\ heat_data v' = heat_data v) /\
  (~ In time_step (time_steps v) ->
   time_steps v' = merge_sort Z.le (time_steps v ++ [time_step]) /\
   exists a,
     update_data_arrays (cities v') (time_steps v') (data v') = Ok a /\
     heat_data v' = match a with
                    | Some a' => Some a'
                    | None => heat_data v
                    end).
Proof.
  intros H. apply add_data_point_spec in H as (Hd & Hi & Ho & Hn & _).
  split; [|split; [exact Hi|split; [exact Ho|exact Hn]]].
  rewrite Hd, lookup_insert_eq. cbn. apply lookup_insert_eq.
Qed.

End VisualizerFacts.
(** ** Storing data points *)

Lemma point_insert (d : gmap string (gmap string (list Q)))
    (city time_str : string) (values : list Q) (c k : string) :
  point (<[city := <[time_str := values]> (d !!! city)]> d) c k
    = if decide (c = city /\ k = time_str) then Some values
      else point d c k.
Proof.
  unfold point. destruct (decide (c = city)) as [->|Hc].
  - rewrite lookup_insert_eq. cbn.
    destruct (decide (k = time_str)) as [->|Hk].
    + rewrite lookup_insert_eq. now rewrite decide_True by auto.
    + rewrite lookup_insert_ne by congruence.
      rewrite decide_False by (intros [_ ?]; contradiction).
      rewrite lookup_total_alt. destruct (d !! city); [reflexivity|].
      cbn. apply lookup_empty.
  - rewrite lookup_insert_ne by congruence.
    now rewrite decide_False by (intros [? _]; contradiction).
Qed.

Lemma within_insert (file d : gmap string (gmap string (list Q)))
    (city time_str : string) (values : list Q) :
  within file d -> point file city time_str = Some values ->
  within file (<[city := <[time_str := values]> (d !!! city)]> d).
Proof.
  intros (Hsub & Hne) Hf. split.
  - intros c k rec. rewrite point_insert.
    destruct (decide _) as [[-> ->]|_]; [now intros [= <-]|apply Hsub].
  - intros c series. destruct (decide (c = city)) as [->|Hc].
    + rewrite lookup_insert_eq. intros [= <-]. exists time_str.
      rewrite lookup_insert_eq. eauto.
    + rewrite lookup_insert_ne by congruence. apply Hne.
Qed.

Lemma within_empty (file : gmap string (gmap string (list Q))) :
  within file ∅.
Proof.
  split.
  - intros c k rec. unfold point. now rewrite lookup_empty.
  - intros c series. now rewrite lookup_empty.
Qed.

(** A visualizer that holds every data point of the file holds the file. *)
Lemma within_all (file d : gmap string (gmap string (list Q))) :
  within file d ->
  (forall city series, file !! city = Some series ->
     exists time_str, is_Some (series !! time_str)) ->
  (forall city time_str,
     is_Some (point file city time_str) ->
     is_Some (point d city time_str)) ->
  d = file.
Proof.
  intros (Hsub & Hne) Hfne Hall.
  assert (Hpt : forall c k, point d c k = point file c k).
  { intros c k. destruct (point d c k) as [rec|] eqn:E.
    - symmetry. now apply Hsub.
    - destruct (point file c k) as [rec|] eqn:E'; [|reflexivity].
      destruct (Hall c k) as (x & Hx); [now rewrite E'|congruence]. }
  apply map_eq. intros c.
  destruct (d !! c) as [s|] eqn:Ed, (file !! c) as [s'|] eqn:Ef.
  - f_equal. apply map_eq. intros k. specialize (Hpt c k).
    unfold point in Hpt. now rewrite Ed, Ef in Hpt.
  - destruct (Hne c s Ed) as (k & x & Hk). specialize (Hpt c k).
    unfold point in Hpt. rewrite Ed, Ef in Hpt. cbn in Hpt. congruence.
  - destruct (Hfne c s' Ef) as (k & x & Hk). specialize (Hpt c k).
    unfold point in Hpt. rewrite Ed, Ef in Hpt. cbn in Hpt. congruence.
  - reflexivity.
Qed.

Lemma cell_point (d d' : gmap string (gmap string (list Q)))
    (city city' : string) (t t' : Z) :
  point d city (str t) = point d' city' (str t') ->
  cell d city t = cell d' city' t'.
Proof.
  unfold point, cell. intros H.
  destruct (d !! city) as [s|], (d' !! city') as [s'|]; cbn in H.
  - now rewrite H.
  - now rewrite H.
  - now rewrite <- H.
  - reflexivity.
Qed.

Lemma cell_absent (d : gmap string (gmap string (list Q)))
    (city : string) (t : Z) :
  point d city (str t) = None -> cell d city t = Ok (0, 0, 0).
Proof.
  unfold point, cell. destruct (d !! city) as [s|]; cbn; [|reflexivity].
  now intros ->.
Qed.

Lemma cell_present (d : gmap string (gmap string (list Q)))
    (city : string) (t : Z) (values : list Q) :
  point d city (str t) = Some values -> (3 <= length values)%nat ->
  is_ok (cell d city t).
Proof.
  intros Hp Hlen. pose proof (cell_outcome d city t) as H.
  fold (point d city (str t)) in H. rewrite Hp in H.
  now apply H.
Qed.

Lemma merge_sort_sorted (l : list Z) :
  Sorted Z.le l -> merge_sort Z.le l = l.
Proof.
  intros Hs. apply (Sorted_unique_strong Z.le); [intros; lia| |exact Hs|].
  - apply Sorted_merge_sort. intros a b. lia.
  - apply merge_sort_Permutation.
Qed.

Lemma StronglySorted_lt_le (l : list Z) :
  StronglySorted Z.lt l -> Sorted Z.le l.
Proof.
  induction 1 as [|x l Hs IH Hall]; constructor; [exact IH|].
  destruct l as [|y l]; constructor. apply Forall_inv in Hall. lia.
Qed.

(** ** Calls that return *)

Lemma pie_values_ok (values : list Q) :
  (3 <= length values)%nat -> is_ok (pie_values values).
Proof.
  destruct values as [|a [|b [|c l]]]; cbn [length]; try lia. intros _.
  exact I.
Qed.

Lemma update_plots_ok (v : visualizer) :
  (forall city time_str values,
     point (data v) city time_str = Some values ->
     (3 <= length values)%nat) ->
  (time_steps v <> [] -> cities v <> [] -> is_Some (heat_data v)) ->
  exists v', update_plots v = Returns v'.
Proof.
  intros Hrec Hheat. unfold update_plots.
  destruct (time_steps v) as [|t ts] eqn:Et; [eauto|].
  destruct (cities v) as [|c cs] eqn:Ec; [eauto|].
  set (idx := if (length (t :: ts) <=? current_time_idx v)%nat
              then (length (t :: ts) - 1)%nat else current_time_idx v).
  assert (Hidx : (idx < length (t :: ts))%nat).
  { subst idx. destruct (Nat.leb_spec (length (t :: ts))
                           (current_time_idx v)); cbn [length] in *; lia. }
  rewrite getitem_ok by lia. cbn [of_result and_then].
  destruct (map_result_total
              (fun city =>
                 match data v !! city ≫=
                       (fun series =>
                          series !! str (nth (Z.to_nat (Z.of_nat idx))
                                           (t :: ts) 0%Z)) with
                 | Some values => pie_values values
                 | None => Ok (0, 0, 0)
                 end) (firstn (pie_axes v) (c :: cs))) as (ys & ->).
  { intros city _.
    destruct (data v !! city ≫= _) as [values|] eqn:E; [|exact I].
    apply pie_values_ok. exact (Hrec _ _ _ E). }
  cbn [of_result and_then].
  destruct Hheat as (a & Ha); [discriminate..|]. rewrite Ha. eauto.
Qed.

Lemma update_time_ok (val : nat) (v : visualizer) :
  (forall city time_str values,
     point (data v) city time_str = Some values ->
     (3 <= length values)%nat) ->
  (time_steps v <> [] -> cities v <> [] -> is_Some (heat_data v)) ->
  exists v', update_time val v = Returns v'.
Proof. intros Hrec Hheat. unfold update_time. now apply update_plots_ok. Qed.

Lemma update_arrays_ok (v : visualizer) :
  (forall city time_str values,
     point (data v) city time_str = Some values ->
     (3 <= length values)%nat) ->
  exists v',
    update_arrays v = Returns v' /\
    (time_steps v <> [] -> cities v <> [] -> is_Some (heat_data v')).
Proof.
  intros Hrec. unfold update_arrays.
  destruct (cities v) as [|c cs] eqn:Ec;
    [cbn; eexists; split; [reflexivity|congruence]|].
  destruct (time_steps v) as [|t ts] eqn:Et;
    [cbn; eexists; split; [reflexivity|congruence]|].
  destruct (update_data_arrays_rows (data v) (c :: cs) (t :: ts))
    as (rows & -> & _); [discriminate..| |].
  { intros city t' _ _.
    destruct (point (data v) city (str t')) as [values|] eqn:E.
    - eapply cell_present; [exact E|]. exact (Hrec _ _ _ E).
    - now rewrite cell_absent. }
  cbn [of_result and_then]. eexists. split; [reflexivity|].
  intros _ _. cbn. eauto.
Qed.

Lemma update_data_arrays_some
    (d : gmap string (gmap string (list Q)))
    (cs : list string) (ts : list Z) (a : option arrays) :
  cs <> [] -> ts <> [] -> update_data_arrays cs ts d = Ok a -> is_Some a.
Proof.
  unfold update_data_arrays. destruct cs as [|c cs]; [congruence|].
  destruct ts as [|t ts]; [congruence|]. intros _ _.
  destruct (map_result _ _); cbn [bind]; [|discriminate].
  intros [= <-]. eauto.
Qed.

Lemma In_merge_sort (t : Z) (l : list Z) :
  In t (merge_sort Z.le l) <-> In t l.
Proof.
  rewrite <- !list_elem_of_In. now rewrite merge_sort_Permutation.
Qed.

Section VisualizerRuns.
Variable py_int : string -> result Z.

Lemma add_data_point_registered (city : string) (t : Z) (values : list Q)
    (v : visualizer) :
  In city (cities v) ->
  (forall c k rec, point (data v) c k = Some rec -> (3 <= length rec)%nat) ->
  (3 <= length values)%nat ->
  (In t (time_steps v) -> is_Some (heat_data v)) ->
  exists v', add_data_point py_int (CityStr city) t values v = Returns v'.
Proof.
  intros Hcity Hrec Hlen Hheat. unfold add_data_point. cbn [str_id].
  assert (H1 : exists v1, add_city py_int city v = Returns v1).
  { unfold add_city. destruct (data v !! city); [eauto|].
    rewrite (proj2 (existsb_eqb_In city (cities v)) Hcity). eauto. }
  destruct H1 as (v1 & E1). rewrite E1. cbn [and_then].
  apply add_city_returns in E1 as (C1 & C2 & C3 & C4 & C5 & _).
  destruct (C5 (or_intror Hcity)) as (C6 & C7).
  set (v2 := {| data := _; cities := cities v1 |}).
  assert (Hrec2 : forall c k rec,
            point (data v2) c k = Some rec -> (3 <= length rec)%nat).
  { intros c k rec. subst v2. cbn [data]. rewrite point_insert.
    destruct (decide _) as [_|_]; [now intros [= <-]|].
    rewrite C4. destruct (data v !! city) as [s|] eqn:Ed; [apply Hrec|].
    unfold point. destruct (decide (c = city)) as [->|Hc].
    - rewrite lookup_insert_eq. cbn. now rewrite lookup_empty.
    - rewrite lookup_insert_ne by congruence. apply Hrec. }
  assert (Hc2 : cities v2 <> []).
  { subst v2. cbn [cities]. rewrite C6. now destruct (cities v). }
  assert (H3 : exists v3, add_time_step t v2 = Returns v3).
  { unfold add_time_step. destruct (existsb _ _); [eauto|].
    set (v2' := {| data := data v2; cities := cities v2 |}).
    destruct (update_arrays_ok v2') as (v3' & E3' & Hh); [exact Hrec2|].
    rewrite E3'. cbn [and_then].
    apply update_arrays_returns in E3' as (A1 & A2 & A3 & _).
    assert (Hne : time_steps v2' <> []).
    { subst v2'. cbn [time_steps]. intros E.
      assert (Hin : In t (merge_sort Z.le (time_steps v2 ++ [t])))
        by (apply In_merge_sort, in_or_app; right; now left).
      now rewrite E in Hin. }
    unfold update_slider_range.
    destruct (time_steps v3') eqn:E; [eauto|]. rewrite <- E.
    apply update_time_ok.
    - rewrite A1. exact Hrec2.
    - intros _ _. apply Hh; [exact Hne|exact Hc2]. }
  destruct H3 as (v3 & E3). rewrite E3. cbn [and_then].
  apply add_time_step_returns in E3 as (T1 & T2 & T3 & Told & Tnew).
  assert (Hin3 : In t (time_steps v3)).
  { destruct (in_dec Z.eq_dec t (time_steps v2)) as [Hin|Hnot].
    - destruct (Told Hin) as (-> & _). exact Hin.
    - destruct (Tnew Hnot) as (-> & _).
      apply In_merge_sort, in_or_app. right. now left. }
  assert (Hh3 : is_Some (heat_data v3)).
  { destruct (in_dec Z.eq_dec t (time_steps v2)) as [Hin|Hnot].
    - destruct (Told Hin) as (_ & ->). subst v2.
      cbn [heat_data time_steps] in *. rewrite C2. apply Hheat.
      now rewrite <- C1.
    - destruct (Tnew Hnot) as (Ets & a & Ha & ->).
      assert (Hne : time_steps v3 <> [])
        by (intros E; rewrite E in Hin3; exact Hin3).
      destruct (update_data_arrays_some _ _ _ _ Hc2 Hne Ha) as (a' & ->).
      eauto. }
  destruct (index_ok t (time_steps v3) Hin3) as (idx & -> & _).
  cbn [of_result and_then].
  destruct (update_time_ok idx v3) as (v4 & E4);
    [rewrite T1; exact Hrec2|intros _ _; exact Hh3|].
  rewrite E4. cbn [and_then].
  apply update_time_returns in E4 as ((U1 & U2 & U3 & U4 & U5 & U6) & _).
  apply update_plots_ok.
  - rewrite U1, T1. exact Hrec2.
  - intros _ _. now rewrite U5.
Qed.


Lemma lookup_total_point (file : gmap string (gmap string (list Q)))
    (city k : string) :
  (file !!! city) !! k = point file city k.
Proof.
  unfold point. rewrite lookup_total_alt.
  destruct (file !! city); [reflexivity|apply lookup_empty].
Qed.

Lemma Forall2_impl_In {A B : Type} (P R : A -> B -> Prop) (l : list A)
    (k : list B) :
  Forall2 P l k -> (forall x y, In x l -> P x y -> R x y) -> Forall2 R l k.
Proof.
  induction 1 as [|x y l k Hxy Hlk IH]; intros H; constructor.
  - apply H; [now left|exact Hxy].
  - apply IH. intros x' y' Hin. apply H. now right.
Qed.

Section FileRuns.
Variable file : gmap string (gmap string (list Q)).
Variable first_city : string.
Variable other_cities : list string.
Hypothesis file_lengths :
  forall c k rec, point file c k = Some rec -> (3 <= length rec)%nat.

Let cs := first_city :: other_cities.

(** The first data point of a new time step: the arrays are computed with
    that point only. *)
Lemma first_of_column (done : list Z) (t : Z) (values : list Q)
    (v : visualizer) :
  Sorted Z.le (done ++ [t]) -> ~ In t done ->
  point file first_city (str t) = Some values ->
  after_columns file cs first_city done v ->
  exists v',
    add_data_point py_int (CityStr first_city) t values v = Returns v' /\
    within_column file cs first_city done t [first_city] v'.
Proof.
  intros Hsorted Hnew Hval (Hc & Hp & Hts & (Hw & Hcov & Hkeys) & _).
  assert (Hrec : forall c k rec,
            point (data v) c k = Some rec -> (3 <= length rec)%nat).
  { intros c k rec H. apply (file_lengths c k). now apply Hw. }
  destruct (add_data_point_registered first_city t values v)
    as (v' & E); [rewrite Hc; now left|exact Hrec|
                  exact (file_lengths _ _ _ Hval)|
                  rewrite Hts; intros H; contradiction|].
  exists v'. split; [exact E|].
  apply add_data_point_spec in E as (Hd & _ & _ & Hnew' & Hcity & _).
  cbn [str_id] in *.
  destruct Hcity as (Hc' & Hp'); [right; rewrite Hc; now left|].
  destruct Hnew' as (Hts' & a & Ha & Hh); [now rewrite Hts|].
  rewrite Hts, merge_sort_sorted in Hts' by exact Hsorted.
  assert (Hpt : forall c k,
            point (data v') c k
              = if decide (c = first_city /\ k = str t) then Some values
                else point (data v) c k).
  { intros c k. rewrite Hd. apply point_insert. }
  split; [congruence|]. split; [congruence|]. split; [exact Hts'|].
  split; [rewrite Hd; now apply within_insert|].
  split; [|split; [|split]].
  - intros c t' Hin Ht'. rewrite Hpt.
    destruct (decide _); [eauto|now apply Hcov].
  - intros c [<-|[]]. rewrite Hpt, decide_True by auto. eauto.
  - intros c k. rewrite Hpt.
    destruct (decide _) as [[-> ->]|_];
      [intros _; right; split; [reflexivity|now left]|].
    intros H. left. exact (Hkeys c k H).
  - assert (Hcell : forall city t',
              In city cs -> In t' (done ++ [t]) ->
              cell (data v') city t'
                = entries_when_added file first_city t city t' /\
              is_ok (cell (data v') city t')).
    { intros city t' Hcity Ht'. unfold entries_when_added.
      destruct (Z.eqb_spec t' t) as [->|Hne]; cbn [andb].
      - destruct (String.eqb_spec city first_city) as [->|Hnc]; cbn [negb].
        + assert (Hpv : point (data v') first_city (str t) = Some values)
            by (rewrite Hpt; now rewrite decide_True by auto).
          split.
          * apply cell_point. now rewrite Hpv, Hval.
          * eapply cell_present; [exact Hpv|].
            exact (file_lengths _ _ _ Hval).
        + assert (Hnone : point (data v') city (str t) = None).
          { rewrite Hpt, decide_False by (intros [? _]; contradiction).
            destruct (point (data v) city (str t)) as [rec|] eqn:Er;
              [|reflexivity].
            destruct (Hkeys city (str t)) as (t'' & Hin & Es);
              [rewrite Er; eauto|].
            apply str_inj in Es. subst t''. contradiction. }
          rewrite (cell_absent _ _ _ Hnone). split; [reflexivity|exact I].
      - assert (Hin : In t' done).
        { apply in_app_or in Ht' as [H|[H|[]]]; [exact H|congruence]. }
        destruct (Hcov city t' Hcity Hin) as (rec & Hr).
        assert (Hpv : point (data v') city (str t') = Some rec).
        { rewrite Hpt, decide_False; [exact Hr|].
          intros [_ Es]. apply str_inj in Es. contradiction. }
        split.
        + apply cell_point. rewrite Hpv. symmetry. now apply Hw.
        + eapply cell_present; [exact Hpv|]. exact (Hrec _ _ _ Hr). }
    destruct (update_data_arrays_rows (data v') cs (done ++ [t]))
      as (rows & Hup & Hrows).
    { discriminate. }
    { now destruct done. }
    { intros city t' Hcity Ht'. now apply Hcell. }
    rewrite Hc', Hc, Hts', Hup in Ha. injection Ha as <-.
    exists rows. split; [exact Hh|].
    eapply Forall2_impl_In; [exact Hrows|]. intros city row Hcity Hrow.
    eapply Forall2_impl_In; [exact Hrow|]. intros t' p Ht' Hcp.
    destruct (Hcell city t' Hcity Ht') as (<- & _). exact Hcp.
Qed.


(** A further data point of the same time step: the arrays are left as
    they are. *)
Lemma next_of_column (done : list Z) (t : Z) (cdone : list string)
    (city : string) (values : list Q) (v : visualizer) :
  In city cs -> point file city (str t) = Some values ->
  within_column file cs first_city done t cdone v ->
  exists v',
    add_data_point py_int (CityStr city) t values v = Returns v' /\
    within_column file cs first_city done t (cdone ++ [city]) v'.
Proof.
  intros Hcity Hval (Hc & Hp & Hts & Hw & Hcov & Hcol & Hkeys & Hheat).
  assert (Hrec : forall c k rec,
            point (data v) c k = Some rec -> (3 <= length rec)%nat).
  { intros c k rec H. apply (file_lengths c k). now apply Hw. }
  assert (Hin : In t (time_steps v))
    by (rewrite Hts; apply in_or_app; right; now left).
  destruct (add_data_point_registered city t values v)
    as (v' & E); [now rewrite Hc|exact Hrec|
                  exact (file_lengths _ _ _ Hval)|
                  intros _; destruct Hheat as (rows & -> & _); eauto|].
  exists v'. split; [exact E|].
  apply add_data_point_spec in E as (Hd & _ & Hold & _ & Hcity' & _).
  cbn [str_id] in *.
  destruct Hcity' as (Hc' & Hp'); [right; now rewrite Hc|].
  destruct (Hold Hin) as (Hts' & Hh).
  assert (Hpt : forall c k,
            point (data v') c k
              = if decide (c = city /\ k = str t) then Some values
                else point (data v) c k).
  { intros c k. rewrite Hd. apply point_insert. }
  split; [congruence|]. split; [congruence|]. split; [congruence|].
  split; [rewrite Hd; now apply within_insert|].
  split; [|split; [|split]].
  - intros c t' Hcin Ht'. rewrite Hpt.
    destruct (decide _); [eauto|now apply Hcov].
  - intros c Hcin. rewrite Hpt. destruct (decide _); [eauto|].
    apply in_app_or in Hcin as [H|[->|[]]]; [now apply Hcol|].
    exfalso. auto.
  - intros c k. rewrite Hpt.
    destruct (decide _) as [[-> ->]|_].
    + intros _. right. split; [reflexivity|].
      apply in_or_app. right. now left.
    + intros H. destruct (Hkeys c k H) as [Hl|(Hk & Hcin)]; [now left|].
      right. split; [exact Hk|]. apply in_or_app. now left.
  - now rewrite Hh.
Qed.

Lemma rest_of_column (done : list Z) (t : Z) (todo : list string) :
  forall (cdone : list string) (v : visualizer),
    (forall c, In c todo -> In c cs) ->
    (forall c, In c todo -> is_Some (point file c (str t))) ->
    within_column file cs first_city done t cdone v ->
    exists v',
      for_each
        (fun city v1 =>
           match (file !!! city) !! str t with
           | Some values => add_data_point py_int (CityStr city) t values v1
           | None => Returns v1
           end) todo v = Returns v' /\
      within_column file cs first_city done t (cdone ++ todo) v'.
Proof.
  induction todo as [|c todo IH]; intros cdone v Hin Hfull Hinv;
    cbn [for_each].
  - exists v. split; [reflexivity|]. now rewrite app_nil_r.
  - destruct (Hfull c (or_introl eq_refl)) as (values & Hval).
    rewrite lookup_total_point, Hval.
    destruct (next_of_column done t cdone c values v) as (v1 & -> & Hinv1);
      [apply Hin; now left|exact Hval|exact Hinv|].
    cbn [and_then].
    destruct (IH (cdone ++ [c]) v1) as (v' & E & Hinv');
      [intros c' Hc'; apply Hin; now right|
       intros c' Hc'; apply Hfull; now right|exact Hinv1|].
    exists v'. split; [exact E|]. now rewrite <- app_assoc in Hinv'.
Qed.

(** All the data points of one new time step. *)
Lemma whole_column (done : list Z) (t : Z) (v : visualizer) :
  Sorted Z.le (done ++ [t]) -> ~ In t done ->
  (forall c, In c cs -> is_Some (point file c (str t))) ->
  after_columns file cs first_city done v ->
  exists v',
    for_each
      (fun city v1 =>
         match (file !!! city) !! str t with
         | Some values => add_data_point py_int (CityStr city) t values v1
         | None => Returns v1
         end) cs v = Returns v' /\
    after_columns file cs first_city (done ++ [t]) v'.
Proof.
  intros Hsorted Hnew Hfull Hinv.
  change cs with (first_city :: other_cities) at 1. cbn [for_each].
  destruct (Hfull first_city (or_introl eq_refl)) as (values & Hval).
  rewrite lookup_total_point, Hval.
  destruct (first_of_column done t values v Hsorted Hnew Hval Hinv)
    as (v1 & -> & Hinv1).
  cbn [and_then].
  destruct (rest_of_column done t other_cities [first_city] v1)
    as (v' & E & Hc & Hp & Hts & Hw & Hcov & Hcol & Hkeys & Hheat);
    [intros c Hc; now right|intros c Hc; apply Hfull; now right|
     exact Hinv1|].
  exists v'. split; [exact E|]. cbn [app] in *.
  split; [exact Hc|]. split; [exact Hp|]. split; [exact Hts|].
  split; [split; [exact Hw|split]|].
  - intros c t' Hcin Ht'. apply in_app_or in Ht' as [H|[<-|[]]];
      [now apply Hcov|now apply Hcol].
  - intros c k H. destruct (Hkeys c k H) as [(t' & Ht' & ->)|(-> & _)].
    + exists t'. split; [apply in_or_app; now left|reflexivity].
    + exists t. split; [apply in_or_app; right; now left|reflexivity].
  - intros _. now rewrite List.last_last.
Qed.

(** All the data points, time step by time step. *)
Lemma all_columns (todo : list Z) :
  forall (done : list Z) (v : visualizer),
    StronglySorted Z.lt (done ++ todo) ->
    (forall c t, In c cs -> In t todo -> is_Some (point file c (str t))) ->
    after_columns file cs first_city done v ->
    exists v',
      add_all py_int file cs todo v = Returns v' /\
      after_columns file cs first_city (done ++ todo) v'.
Proof.
  unfold add_all.
  induction todo as [|t todo IH]; intros done v Hsorted Hfull Hinv;
    cbn [for_each].
  - exists v. split; [reflexivity|]. now rewrite app_nil_r.
  - assert (Hs1 : StronglySorted Z.lt (done ++ [t])).
    { replace (done ++ t :: todo) with ((done ++ [t]) ++ todo) in Hsorted
        by now rewrite <- app_assoc.
      now apply StronglySorted_app_1_l in Hsorted. }
    destruct (whole_column done t v) as (v1 & -> & Hinv1).
    + now apply StronglySorted_lt_le.
    + apply StronglySorted_lt_NoDup in Hs1.
      apply NoDup_remove_2 in Hs1. now rewrite app_nil_r in Hs1.
    + intros c Hc. apply Hfull; [exact Hc|now left].
    + exact Hinv.
    + cbn [and_then].
      destruct (IH (done ++ [t]) v1) as (v' & E & Hinv');
        [now rewrite <- app_assoc|
         intros c t' Hc Ht'; apply Hfull; [exact Hc|now right]|
         exact Hinv1|].
      exists v'. split; [exact E|]. now rewrite <- app_assoc in Hinv'.
Qed.

End FileRuns.

End VisualizerRuns.
(** ** Copying a whole file *)

Section StaticCopy.
Variable file : gmap string (gmap string (list Q)).

Lemma copy_times_fields (c : string) (todo : list Z) :
  forall v,
    let v' := fold_left
                (fun v2 time_step =>
                   match (file !!! c) !! str time_step with
                   | Some values => copy_point c time_step values v2
                   | None => v2
                   end) todo v in
    cities v' = cities v /\ pie_axes v' = pie_axes v /\
    heat_data v' = heat_data v /\
    current_time_idx v' = current_time_idx v /\
    (within file (data v) -> within file (data v')) /\
    (forall c' k, is_Some (point (data v) c' k) ->
                  is_Some (point (data v') c' k)) /\
    (forall t, In t todo -> is_Some (point file c (str t)) ->
               is_Some (point (data v') c (str t))).
Proof.
  induction todo as [|t todo IH]; intros v; cbn [fold_left].
  - repeat (split; [reflexivity|]). split; [auto|]. split; [auto|].
    intros t [].
  - rewrite lookup_total_point.
    destruct (point file c (str t)) as [values|] eqn:Ef.
    + specialize (IH (copy_point c t values v)). cbv zeta in IH.
      destruct IH as (I1 & I2 & I3 & I4 & I5 & I6 & I7).
      cbn [copy_point cities pie_axes heat_data current_time_idx data]
        in *.
      repeat (split; [assumption|]). split; [|split].
      * intros Hw. apply I5. now apply within_insert.
      * intros c' k H. apply I6. rewrite point_insert.
        destruct (decide _); [eauto|exact H].
      * intros t' [<-|Hin] Hs; [|now apply I7].
        apply I6. rewrite point_insert, decide_True by auto. eauto.
    + specialize (IH v). cbv zeta in IH.
      destruct IH as (I1 & I2 & I3 & I4 & I5 & I6 & I7).
      repeat (split; [assumption|]).
      intros t' [<-|Hin] Hs; [rewrite Ef in Hs; now destruct Hs|].
      now apply I7.
Qed.

Lemma copy_times_known (c : string) (todo : list Z) :
  forall v,
    (forall t, In t todo -> In t (time_steps v)) ->
    time_steps
      (fold_left
         (fun v2 time_step =>
            match (file !!! c) !! str time_step with
            | Some values => copy_point c time_step values v2
            | None => v2
            end) todo v) = time_steps v.
Proof.
  induction todo as [|t todo IH]; intros v Hin; cbn [fold_left];
    [reflexivity|].
  destruct ((file !!! c) !! str t) as [values|].
  - rewrite IH; cbn [copy_point time_steps];
      rewrite (proj2 (existsb_Zeqb_In t (time_steps v)))
        by (apply Hin; now left); [reflexivity|].
    intros t' Ht'. apply Hin. now right.
  - apply IH. intros t' Ht'. apply Hin. now right.
Qed.

Lemma copy_times_new (c : string) (todo : list Z) :
  forall (pre : list Z) v,
    time_steps v = pre -> List.NoDup (pre ++ todo) ->
    (forall t, In t todo -> is_Some (point file c (str t))) ->
    time_steps
      (fold_left
         (fun v2 time_step =>
            match (file !!! c) !! str time_step with
            | Some values => copy_point c time_step values v2
            | None => v2
            end) todo v) = pre ++ todo.
Proof.
  induction todo as [|t todo IH]; intros pre v Hts Hnd Hfull;
    cbn [fold_left]; [now rewrite app_nil_r|].
  destruct (Hfull t (or_introl eq_refl)) as (values & Hval).
  rewrite lookup_total_point, Hval.
  assert (Hnot : existsb (Z.eqb t) (time_steps v) = false).
  { apply not_true_is_false. intros H. apply existsb_Zeqb_In in H.
    rewrite Hts in H. apply NoDup_remove_2 in Hnd. apply Hnd.
    apply in_or_app. now left. }
  rewrite (IH (pre ++ [t])).
  - now rewrite <- app_assoc.
  - cbn [copy_point time_steps]. now rewrite Hnot, Hts.
  - now rewrite <- app_assoc.
  - intros t' Ht'. apply Hfull. now right.
Qed.

Lemma copy_cities (time_steps0 : list Z) (todo : list string) :
  forall v,
    time_steps v = time_steps0 ->
    let v' := copy_all file todo time_steps0 v in
    cities v' = cities v /\ pie_axes v' = pie_axes v /\
    heat_data v' = heat_data v /\
    current_time_idx v' = current_time_idx v /\
    time_steps v' = time_steps0 /\
    (within file (data v) -> within file (data v')) /\
    (forall c' k, is_Some (point (data v) c' k) ->
                  is_Some (point (data v') c' k)) /\
    (forall c t, In c todo -> In t time_steps0 ->
                 is_Some (point file c (str t)) ->
                 is_Some (point (data v') c (str t))).
Proof.
  unfold copy_all.
  induction todo as [|c todo IH]; intros v Hts; cbn [fold_left].
  - repeat (split; [reflexivity|]). split; [exact Hts|].
    split; [auto|]. split; [auto|]. intros c t [].
  - pose proof (copy_times_fields c time_steps0 v) as H1. cbv zeta in H1.
    destruct H1 as (A1 & A2 & A3 & A4 & A5 & A6 & A7).
    pose proof (copy_times_known c time_steps0 v) as Hk.
    rewrite Hts in Hk. specialize (Hk (fun t H => H)).
    set (v1 := fold_left _ time_steps0 v) in *.
    specialize (IH v1 Hk). cbv zeta in IH.
    destruct IH as (B1 & B2 & B3 & B4 & B5 & B6 & B7 & B8).
    split; [congruence|]. split; [congruence|]. split; [congruence|].
    split; [congruence|]. split; [exact B5|]. split; [auto|].
    split; [auto|].
    intros c' t [<-|Hin] Ht Hs; [apply B7; now apply A7|now apply B8].
Qed.

(** Lines 437-446 on a file that has a data point for every city at every
    time step: the visualizer ends with all of them and with the time steps
    in their order. *)
Lemma copy_all_full (first_city : string) (other_cities : list string)
    (time_steps0 : list Z) (v : visualizer) :
  time_steps v = [] -> List.NoDup time_steps0 ->
  (forall c t, In c (first_city :: other_cities) -> In t time_steps0 ->
               is_Some (point file c (str t))) ->
  let v' := copy_all file (first_city :: other_cities) time_steps0 v in
  cities v' = cities v /\ pie_axes v' = pie_axes v /\
  heat_data v' = heat_data v /\
  current_time_idx v' = current_time_idx v /\
  time_steps v' = time_steps0 /\
  (within file (data v) -> within file (data v')) /\
  (forall c t, In c (first_city :: other_cities) -> In t time_steps0 ->
               is_Some (point (data v') c (str t))).
Proof.
  intros Hts Hnd Hfull. unfold copy_all. cbn [fold_left].
  pose proof (copy_times_fields first_city time_steps0 v) as H1.
  cbv zeta in H1. destruct H1 as (A1 & A2 & A3 & A4 & A5 & A6 & A7).
  pose proof (copy_times_new first_city time_steps0 [] v Hts Hnd) as Hn.
  cbn [app] in Hn.
  specialize (Hn (fun t H => Hfull first_city t (or_introl eq_refl) H)).
  set (v1 := fold_left _ time_steps0 v) in *.
  pose proof (copy_cities time_steps0 other_cities v1 Hn) as H2.
  cbv zeta in H2. unfold copy_all in H2.
  destruct H2 as (B1 & B2 & B3 & B4 & B5 & B6 & B7 & B8).
  split; [congruence|]. split; [congruence|]. split; [congruence|].
  split; [congruence|]. split; [exact B5|]. split; [auto|].
  intros c t [<-|Hin] Ht.
  - apply B7, A7; [exact Ht|]. apply Hfull; [now left|exact Ht].
  - apply B8; [exact Hin|exact Ht|]. apply Hfull; [now right|exact Ht].
Qed.

End StaticCopy.

(** Lines 452-454: the arrays are computed from all the data, and the
    slider and the plots follow. *)
Lemma show_arrays (v2 : visualizer) :
  (forall c k rec, point (data v2) c k = Some rec -> (3 <= length rec)%nat) ->
  cities v2 <> [] -> time_steps v2 <> [] -> current_time_idx v2 = 0%nat ->
  exists v rows,
    (v3 <~ update_arrays v2 ;;
     v4 <~ update_slider_range v3 ;;
     update_plots v4) = Returns v /\
    data v = data v2 /\ cities v = cities v2 /\
    time_steps v = time_steps v2 /\ current_time_idx v = 0%nat /\
    heat_data v = Some (arrays_of rows) /\
    Forall2 (fun city row =>
               Forall2 (fun t p => cell (data v2) city t = Ok p)
                       (time_steps v2) row)
            (cities v2) rows.
Proof.
  intros Hrec Hc Ht Hidx.
  destruct (update_data_arrays_rows (data v2) (cities v2) (time_steps v2)
              Hc Ht) as (rows & Hup & Hrows).
  { intros city t _ _.
    destruct (point (data v2) city (str t)) as [values|] eqn:E.
    - eapply cell_present; [exact E|]. exact (Hrec _ _ _ E).
    - now rewrite cell_absent. }
  destruct (update_arrays_ok v2 Hrec) as (v3 & E3 & Hh3).
  rewrite E3. cbn [and_then].
  apply update_arrays_returns in E3
    as (A1 & A2 & A3 & A4 & A5 & A6 & a & Ha & Hh).
  rewrite Hup in Ha. injection Ha as <-.
  assert (Hrec3 : forall c k rec,
            point (data v3) c k = Some rec -> (3 <= length rec)%nat)
    by (rewrite A1; exact Hrec).
  assert (E4 : exists v4, update_slider_range v3 = Returns v4).
  { unfold update_slider_range. destruct (time_steps v3); [eauto|].
    apply update_time_ok; [exact Hrec3|]. intros _ _. rewrite Hh. eauto. }
  destruct E4 as (v4 & E4). rewrite E4. cbn [and_then].
  assert (Hidx4 : current_time_idx v4 = 0%nat).
  { unfold update_slider_range in E4.
    destruct (time_steps v3) as [|t ts] eqn:Et3; [congruence|].
    rewrite <- Et3 in E4.
    apply update_time_returns in E4 as (_ & [H|(Hle & H)]).
    - rewrite H, A6, Hidx. reflexivity.
    - rewrite A6, Hidx in Hle. cbn in Hle. rewrite Et3 in Hle.
      cbn [length] in Hle. lia. }
  apply update_slider_range_returns in E4
    as (B1 & B2 & B3 & B4 & B5 & B6).
  destruct (update_plots_ok v4) as (v & E5).
  { rewrite B1. exact Hrec3. }
  { intros _ _. rewrite B5, Hh. eauto. }
  exists v, rows. split; [exact E5|].
  apply update_plots_returns in E5
    as ((P1 & P2 & P3 & P4 & P5 & P6) & Pidx).
  split; [congruence|]. split; [congruence|]. split; [congruence|].
  split; [|split; [congruence|exact Hrows]].
  destruct Pidx as [H|(Hle & H)]; [congruence|].
  rewrite Hidx4 in Hle. rewrite H. lia.
Qed.
(** ** Registering cities *)

Lemma insert_by_key_Permutation (kx : Z * string) (l : list (Z * string)) :
  insert_by_key kx l ≡ₚ kx :: l.
Proof.
  induction l as [|ky l IH]; cbn [insert_by_key]; [reflexivity|].
  destruct (fst kx <=? fst ky)%Z; [reflexivity|].
  rewrite IH. apply perm_swap.
Qed.

Lemma sort_by_key_Permutation (l : list (Z * string)) :
  sort_by_key l ≡ₚ l.
Proof.
  induction l as [|kx l IH]; cbn [sort_by_key]; [reflexivity|].
  now rewrite insert_by_key_Permutation, IH.
Qed.

Lemma insert_by_key_Sorted (kx : Z * string) (l : list (Z * string)) :
  Sorted (fun p q => (fst p <= fst q)%Z) l ->
  Sorted (fun p q => (fst p <= fst q)%Z) (insert_by_key kx l).
Proof.
  induction l as [|ky l IH]; intros Hs; cbn [insert_by_key].
  - repeat constructor.
  - destruct (Z.leb_spec (fst kx) (fst ky)) as [Hle|Hgt].
    + constructor; [exact Hs|]. now constructor.
    + apply Sorted_inv in Hs as (Hs & Hhd).
      constructor; [now apply IH|].
      destruct l as [|kz l]; cbn [insert_by_key].
      * constructor. lia.
      * destruct (fst kx <=? fst kz)%Z; constructor;
          [lia|now apply HdRel_inv in Hhd].
Qed.

Lemma sort_by_key_Sorted (l : list (Z * string)) :
  Sorted (fun p q => (fst p <= fst q)%Z) (sort_by_key l).
Proof.
  induction l as [|kx l IH]; cbn [sort_by_key]; [constructor|].
  now apply insert_by_key_Sorted.
Qed.

Lemma appended_cons (city : city_id) (ids : list city_id)
    (cs : list string) :
  appended (city :: ids) cs
    = appended ids (if id_in city cs then cs else cs ++ [str_id city]).
Proof. reflexivity. Qed.

Lemma id_in_spec (s : string) (cs : list string) :
  id_in (CityStr s) cs = true <-> In s cs.
Proof. apply existsb_eqb_In. Qed.

Lemma appended_In (ids : list city_id) :
  forall cs s,
    In s (appended ids cs) <->
    In s cs \/ exists id, In id ids /\ s = str_id id.
Proof.
  induction ids as [|id ids IH]; intros cs s.
  - cbn. split; [now left|]. intros [H|(id & [] & _)]. exact H.
  - rewrite appended_cons, IH. split.
    + intros [H|(id' & Hin & ->)].
      * destruct (id_in id cs) eqn:E; [now left|].
        apply in_app_or in H as [H|[<-|[]]]; [now left|].
        right. exists id. split; [now left|reflexivity].
      * right. exists id'. split; [now right|reflexivity].
    + intros [H|(id' & [<-|Hin] & ->)].
      * left. destruct (id_in id cs); [exact H|].
        apply in_or_app. now left.
      * left. destruct (id_in id cs) eqn:E.
        -- destruct id as [s'|z]; [now apply id_in_spec|discriminate].
        -- apply in_or_app. right. now left.
      * right. exists id'. split; [exact Hin|reflexivity].
Qed.

Lemma appended_NoDup (ids : list city_id) :
  forall cs,
    (forall id, In id ids -> exists s, id = CityStr s) ->
    List.NoDup cs -> List.NoDup (appended ids cs).
Proof.
  induction ids as [|id ids IH]; intros cs Hstr Hnd; [exact Hnd|].
  rewrite appended_cons. apply IH; [intros id' H; apply Hstr; now right|].
  destruct (Hstr id (or_introl eq_refl)) as (s & ->).
  destruct (id_in (CityStr s) cs) eqn:E; [exact Hnd|].
  apply NoDup_ListNoDup, NoDup_app. split; [now apply NoDup_ListNoDup|].
  split; [|apply NoDup_singleton].
  intros x Hx Hx'. apply list_elem_of_In in Hx.
  apply list_elem_of_In in Hx' as [<-|[]].
  apply id_in_spec in Hx. cbn [str_id] in Hx. congruence.
Qed.

Lemma appended_integers (ids : list city_id) :
  forall cs,
    (forall id, In id ids -> exists z, id = CityInt z) ->
    appended ids cs = cs ++ map str_id ids.
Proof.
  induction ids as [|id ids IH]; intros cs Hint; cbn [map].
  - now rewrite app_nil_r.
  - rewrite appended_cons.
    destruct (Hint id (or_introl eq_refl)) as (z & ->). cbn [id_in].
    rewrite IH by (intros id' H; apply Hint; now right).
    now rewrite <- app_assoc.
Qed.

Lemma appended_strings (ids : list string) :
  forall cs,
    List.NoDup (cs ++ ids) -> appended (map CityStr ids) cs = cs ++ ids.
Proof.
  induction ids as [|s ids IH]; intros cs Hnd; cbn [map].
  - now rewrite app_nil_r.
  - rewrite appended_cons.
    assert (E : id_in (CityStr s) cs = false).
    { apply not_true_is_false. intros H. apply id_in_spec in H.
      apply NoDup_remove_2 in Hnd. apply Hnd, in_or_app. now left. }
    rewrite E. cbn [str_id]. rewrite IH; now rewrite <- app_assoc.
Qed.

Section Registering.
Variable py_int : string -> result Z.

Lemma sorted_by_int_spec (keys cs : list string) :
  sorted_by_int py_int keys = Ok cs ->
  cs ≡ₚ keys /\ Sorted (by_int_key py_int) cs.
Proof.
  unfold sorted_by_int.
  destruct (map_result py_int keys) as [ks|] eqn:E; cbn [bind];
    [|discriminate].
  intros [= <-]. apply map_result_ok in E.
  assert (Hsnd : map snd (combine ks keys) = keys).
  { clear -E. induction E as [|k z keys ks Hk Hl IH]; cbn; [reflexivity|].
    now rewrite IH. }
  assert (Hgood : Forall (fun p => py_int (snd p) = Ok (fst p))
                         (combine ks keys)).
  { clear -E. induction E as [|k z keys ks Hk Hl IH]; cbn;
      constructor; assumption. }
  split.
  - rewrite <- Hsnd at 2. apply Permutation_map, sort_by_key_Permutation.
  - rewrite <- (sort_by_key_Permutation (combine ks keys)) in Hgood.
    pose proof (sort_by_key_Sorted (combine ks keys)) as Hs.
    revert Hgood Hs. generalize (sort_by_key (combine ks keys)) as l.
    induction l as [|p l IH]; intros Hgood Hs; cbn [map]; [constructor|].
    apply Forall_cons in Hgood as (Hp & Hgood).
    apply Sorted_inv in Hs as (Hs & Hhd).
    constructor; [now apply IH|].
    destruct l as [|q l]; cbn [map]; constructor.
    apply Forall_cons in Hgood as (Hq & _). apply HdRel_inv in Hhd.
    exists (fst p), (fst q). auto.
Qed.

(** X24.  [initialize] with a non-empty list, when it returns: the data, the
    time steps and the arrays are untouched, there is one pie chart per city
    and the view is scrolled to the top; the cities are those known before and
    those of the list, in the order of their integer values; string
    identifiers add no duplicate, but an integer identifier is appended
    whether or not its city is known. *)
Theorem initialize_effect (cities_list : list city_id) (v v' : visualizer) :
  initialize py_int cities_list v = Returns v' -> cities_list <> [] ->
  data v' = data v /\ time_steps v' = time_steps v /\
  heat_data v' = heat_data v /\
  pie_axes v' = length (cities v') /\ scroll_pos v' = 0 /\
  Sorted (by_int_key py_int) (cities v') /\
  (forall s, In s (cities v') <->
     In s (cities v) \/ exists id, In id cities_list /\ s = str_id id) /\
  ((forall id, In id cities_list -> exists s, id = CityStr s) ->
   List.NoDup (cities v) -> List.NoDup (cities v')) /\
  ((forall id, In id cities_list -> exists z, id = CityInt z) ->
   cities v' ≡ₚ cities v ++ map str_id cities_list).
Proof.
  unfold initialize. destruct cities_list as [|id ids]; [congruence|].
  fold (appended (id :: ids) (cities v)).
  destruct (sorted_by_int py_int (appended (id :: ids) (cities v)))
    as [cs|] eqn:E; cbn [of_result and_then]; [|discriminate].
  intros [= <-] _. cbn [setup_layout data time_steps heat_data pie_axes
                         scroll_pos cities].
  apply sorted_by_int_spec in E as (Hperm & Hs).
  repeat (split; [reflexivity|]). split; [exact Hs|].
  split; [|split].
  - intros s. rewrite <- appended_In, <- !list_elem_of_In.
    now rewrite Hperm.
  - intros Hstr Hnd. apply NoDup_ListNoDup. rewrite Hperm.
    apply NoDup_ListNoDup. now apply appended_NoDup.
  - intros Hint. rewrite Hperm. now rewrite appended_integers.
Qed.

Hypothesis py_int_str : forall z, py_int (str z) = Ok z.

(** [initialize] on a new visualizer with the cities of a file. *)
Lemma initialize_sorted (l : list Z) :
  l <> [] -> List.NoDup l -> Sorted Z.le l ->
  initialize py_int (map CityStr (map str l)) new_visualizer
    = Returns {| data := ∅; cities := map str l; time_steps := [];
                 current_time_idx := 0; pie_axes := length (map str l);
                 heat_data := None; scroll_pos := 0 |}.
Proof.
  intros Hne Hnd Hs. unfold initialize.
  destruct l as [|z l]; [congruence|]. cbn [map].
  change (fold_left _ _ _)
    with (appended (map CityStr (map str (z :: l))) []).
  rewrite appended_strings.
  - cbn [app].
    destruct (sorted_by_int_canonical py_int py_int_str (z :: l))
      as (l' & E & Hperm & Hs').
    assert (El : l' = z :: l).
    { apply (Sorted_unique_strong Z.le); [intros; lia|assumption..]. }
    subst l'. rewrite E. reflexivity.
  - cbn [app]. apply Finite.Injective_map_NoDup; [|exact Hnd].
    intros x y. apply str_inj.
Qed.

End Registering.
(** ** Showing a generated file *)

Lemma last_lookup_cons (x : Z) (l : list Z) :
  (x :: l) !! length l = Some (List.last (x :: l) 0%Z).
Proof.
  revert x. induction l as [|y l IH]; intros x; [reflexivity|].
  cbn [length]. rewrite lookup_cons. rewrite IH. reflexivity.
Qed.

Lemma range_cons (n : Z) :
  (0 < n)%Z -> exists rest, range n = 0%Z :: rest.
Proof.
  intros Hn. unfold range. destruct (Z.to_nat n) as [|m] eqn:E; [lia|].
  cbn [seq map]. eauto.
Qed.

Section Shows.
Context {rng : Type}.
Variable normal : Q -> Q -> rng -> Q * rng.
Variable seed : Z -> result rng.
Variable py_int : string -> result Z.
Variable isdigit : string -> bool.
Hypothesis py_int_str : forall z, py_int (str z) = Ok z.
Hypothesis isdigit_str : forall z, isdigit (str z) = (0 <=? z)%Z.

(** The data points of a generated dictionary. *)
Lemma generated_points (a : args) (g g' : rng)
    (data : gmap string (gmap string (list Q))) (time_points : list Z) :
  valid_args a ->
  generate_sirn_data normal seed a g = Ok (data, g') ->
  make_time_points (max_time a) (time_step a) = Ok time_points ->
  (forall c k, is_Some (point data c k) ->
     In c (map str (range (num_cities a))) /\
     exists t, In t (0%Z :: time_points) /\ k = str t) /\
  (forall c t, In c (map str (range (num_cities a))) ->
     In t (0%Z :: time_points) -> is_Some (point data c (str t))) /\
  (forall c k rec, point data c k = Some rec -> (3 <= length rec)%nat) /\
  (forall c series, data !! c = Some series ->
     exists k, is_Some (series !! k)).
Proof.
  intros Hvalid Hgen Htp.
  assert (Hkeys : forall c k, is_Some (point data c k) ->
            exists city t,
              (0 <= city < num_cities a)%Z /\ c = str city /\
              In t (0%Z :: time_points) /\ k = str t).
  { intros c k (rec & Hrec). unfold point in Hrec.
    destruct (data !! c) as [series|] eqn:Ed; [|discriminate].
    cbn in Hrec.
    destruct (proj1 (generate_city_keys normal seed a g g' data Hgen c))
      as (city & Hc & ->); [eauto|].
    destruct (generate_series_keys normal seed a g g' data _ _ Hgen Ed)
      as (tp & Htp' & Hk).
    rewrite Htp in Htp'. injection Htp' as <-.
    exists city. destruct (proj1 (Hk k)) as [->|(t & Ht & ->)]; [eauto|..].
    - exists 0%Z. split; [exact Hc|]. split; [reflexivity|].
      split; [now left|reflexivity].
    - exists t. split; [exact Hc|]. split; [reflexivity|].
      split; [now right|reflexivity]. }
  assert (Hrecord : forall city t,
            (0 <= city < num_cities a)%Z -> In t (0%Z :: time_points) ->
            exists rec, point data (str city) (str t) = Some rec /\
                        length rec = 4%nat).
  { intros city t Hc Ht.
    destruct (generated_record normal seed a g g' data time_points city t
                Hvalid Hgen Htp Hc)
      as (series & s & i & r & N & Hd & Hrec & _).
    { destruct Ht as [<-|Ht]; [now left|now right]. }
    eexists. unfold point. rewrite Hd. cbn. split; [exact Hrec|].
    reflexivity. }
  split; [|split; [|split]].
  - intros c k H. destruct (Hkeys c k H) as (city & t & Hc & -> & Ht & ->).
    split; [apply in_map, range_In; exact Hc|eauto].
  - intros c t Hc Ht. apply in_map_iff in Hc as (city & <- & Hc).
    apply range_In in Hc.
    destruct (Hrecord city t Hc Ht) as (rec & -> & _). eauto.
  - intros c k rec Hrec.
    destruct (Hkeys c k) as (city & t & Hc & -> & Ht & ->); [eauto|].
    destruct (Hrecord city t Hc Ht) as (rec' & Hrec' & Hlen).
    rewrite Hrec in Hrec'. injection Hrec' as <-. lia.
  - intros c series Hd.
    destruct (generate_series_keys normal seed a g g' data _ _ Hgen Hd)
      as (tp & _ & Hk).
    exists "0"%string. apply Hk. now left.
Qed.


(** What the runs share: the generated data, the lists read back, and
    the visualizer after [initialize]. *)
Lemma generated_show (a : args) (g : rng) :
  valid_args a ->
  match random_seed a with Some s => is_ok (seed s) | None => True end ->
  (0 < num_cities a)%Z -> (0 < time_step a)%Z -> (0 < max_time a)%Z ->
  exists data g' time_points rest,
    generate_sirn_data normal seed a g = Ok (data, g') /\
    make_time_points (max_time a) (time_step a) = Ok time_points /\
    map str (range (num_cities a)) = str 0 :: map str rest /\
    StronglySorted Z.lt (0%Z :: time_points) /\
    (forall keys, keys ≡ₚ elements (dom data) ->
       load_lists py_int isdigit keys data
         = Ok (map str (range (num_cities a)), 0%Z :: time_points)) /\
    initialize py_int (map CityStr (map str (range (num_cities a))))
      new_visualizer
      = Returns {| data := ∅; cities := map str (range (num_cities a));
                   time_steps := []; current_time_idx := 0;
                   pie_axes := length (map str (range (num_cities a)));
                   heat_data := None; scroll_pos := 0 |}.
Proof.
  intros Hvalid Hseed Hn Hts Hmt.
  pose proof (generate_sirn_data_ok normal seed a g Hvalid Hseed) as Hok.
  destruct (generate_sirn_data normal seed a g) as [[data g']|e] eqn:Hgen;
    [clear Hok|destruct Hok].
  pose proof (make_time_points_ok (max_time a) (time_step a)
                (proj1 Hvalid)) as Htp.
  destruct (make_time_points (max_time a) (time_step a)) as [tp|] eqn:Etp;
    [clear Htp|destruct Htp].
  destruct (range_cons (num_cities a) Hn) as (rest & Er).
  exists data, g', tp, rest.
  split; [reflexivity|]. split; [reflexivity|].
  split; [now rewrite Er|].
  destruct (time_points_sorted _ _ _ Hts Hmt Etp) as (_ & Hsorted & Hrange).
  split.
  { constructor; [exact Hsorted|]. apply List.Forall_forall.
    intros t Ht. apply Hrange in Ht. lia. }
  split.
  - intros keys Hperm.
    destruct (load_generated_file normal seed py_int isdigit py_int_str
                isdigit_str a g g' data keys Hgen Hperm)
      as (ts & Hload & Hss & Hmem).
    rewrite Hload. do 2 f_equal.
    apply (positive_time_steps _ _ _ _ Hts Hmt Etp Hss).
    intros t. rewrite Hmem. split.
    + intros (_ & _ & [->|(tp' & Htp' & Ht)]); [now left|].
      rewrite Etp in Htp'. injection Htp' as <-. now right.
    + intros [->|Ht]; (split; [exact Hn|]).
      * split; [lia|now left].
      * split; [apply Hrange in Ht; lia|right; eauto].
  - apply initialize_sorted;
      [exact py_int_str|rewrite Er; discriminate|apply range_NoDup|
       apply range_sorted].
Qed.




End Shows.
(** ** Closed instances of the further properties *)

(** The time points for [max_time = 25] and [time_step = 10]. *)
Lemma time_points_structure_witness :
  (0 < 10)%Z /\ (0 < 25)%Z /\
  exists time_points,
    make_time_points 25 10 = Ok time_points /\
    time_points =
      map (fun k => (10 * (Z.of_nat k + 1))%Z) (seq 0 (Z.to_nat (25 / 10)))
      ++ (if (25 mod 10 =? 0)%Z then [] else [25%Z]) /\
    StronglySorted Z.lt time_points /\
    (forall t, In t time_points -> (0 < t <= 25)%Z) /\
    List.last time_points 0%Z = 25%Z.
Proof.
  assert (H1 : (0 < 10)%Z) by reflexivity.
  assert (H2 : (0 < 25)%Z) by reflexivity.
  exact (conj H1 (conj H2 (time_points_structure 25 10 H1 H2))).
Defined.

(** The intervals for the time points 10, 20, 25. *)
Lemma integration_intervals_witness :
  (0 < 10)%Z /\ (0 < 25)%Z /\
  make_time_points 25 10 = Ok [10%Z; 20%Z; 25%Z] /\
  (forall t, In t [10%Z; 20%Z; 25%Z] ->
     exists p,
       previous_point [10%Z; 20%Z; 25%Z] t = Ok p /\
       (p = 0%Z \/ In p [10%Z; 20%Z; 25%Z]) /\
       (0 < t - p <= 10)%Z /\
       (forall u, In u [10%Z; 20%Z; 25%Z] -> (u < t)%Z -> (u <= p)%Z)) /\
  (forall t, ~ In t [10%Z; 20%Z; 25%Z] ->
     previous_point [10%Z; 20%Z; 25%Z] t = Raise ValueError).
Proof.
  assert (H1 : (0 < 10)%Z) by reflexivity.
  assert (H2 : (0 < 25)%Z) by reflexivity.
  assert (H3 : make_time_points 25 10 = Ok [10%Z; 20%Z; 25%Z])
    by reflexivity.
  exact (conj H1 (conj H2 (conj H3
           (integration_intervals 25 10 [10%Z; 20%Z; 25%Z] H1 H2 H3)))).
Defined.


Lemma dictionary_keys_witness :
  exists data g',
    generate_sirn_data counter_normal counter_seed default_args 0%nat
      = Ok (data, g') /\
    (forall city_str,
       is_Some (data !! city_str) <->
       exists city, (0 <= city < 3)%Z /\ city_str = str city) /\
    (forall city_str series,
       data !! city_str = Some series ->
       exists time_points,
         make_time_points 100 10 = Ok time_points /\
         forall t_str,
           is_Some (series !! t_str) <->
           t_str = "0"%string \/
           exists t, In t time_points /\ t_str = str t).
Proof.
  pose proof (generate_sirn_data_ok counter_normal counter_seed default_args
                0%nat valid_default_args I) as Hok.
  destruct (generate_sirn_data counter_normal counter_seed default_args 0%nat)
    as [[data g']|e] eqn:E; [|destruct Hok].
  exists data, g'.
  exact (conj eq_refl
           (dictionary_keys counter_normal counter_seed default_args 0%nat g'
              data E)).
Defined.






(** One stochastic sub-step draws twice. *)
Lemma draws_per_loop_witness :
  exists st' g',
    sub_step_loop counter_normal true 101 1 0.3 0.1 1 (SIR 100 1 0) 0%nat
      = Ok (st', g') /\
    g' = Nat.iter (if true then 2 * 1 else 0)
           (fun h => snd (counter_normal 0 0.05 h)) 0%nat.
Proof.
  destruct (sub_step_loop counter_normal true 101 1 0.3 0.1 1 (SIR 100 1 0)
              0%nat) as [[st' g']|e] eqn:E;
    [|vm_compute in E; discriminate].
  exact (ex_intro _ st' (ex_intro _ g' (conj eq_refl
           (draws_per_loop counter_normal true 101 1 0.3 0.1 1
              (SIR 100 1 0) st' 0%nat g' E)))).
Defined.

Lemma populations_layout_witness :
  (0 <= 5)%Z /\
  fill_populations 5 None
    = repeat 100%Z (Z.to_nat (5 / 3))
      ++ repeat 200%Z (Z.to_nat (2 * 5 / 3 - 5 / 3))
      ++ repeat 500%Z (Z.to_nat (5 - 2 * 5 / 3)) /\
  forall l : list Z,
    length (fill_populations 5 (Some l)) = Nat.max (Z.to_nat 5) (length l) /\
    firstn (length l) (fill_populations 5 (Some l)) = l /\
    forall i, (length l <= i < Z.to_nat 5)%nat ->
              nth i (fill_populations 5 (Some l)) 0%Z = 100%Z.
Proof.
  assert (H1 : (0 <= 5)%Z) by discriminate.
  exact (conj H1 (populations_layout 5 H1)).
Defined.

Lemma scroll_position_bounded_witness :
  0 <= 0.5 <= 1 /\
  0 <= fold_left handle_event
         [ScrollEvent "down"; KeyPressEvent "end"; ScrollEvent "up"] 0.5
    <= 1.
Proof.
  assert (H1 : 0 <= 0.5 <= 1) by (split; discriminate).
  exact (conj H1
           (scroll_position_bounded
              [ScrollEvent "down"; KeyPressEvent "end"; ScrollEvent "up"]
              0.5 H1)).
Defined.



(** The keys ["10"], ["9"], ["2"], read with [decimal_int]. *)
Lemma cities_in_numeric_order_witness :
  (forall z, decimal_int (str z) = Ok z) /\
  (exists l',
     sorted_by_int decimal_int (map str [10%Z; 9%Z; 2%Z])
       = Ok (map str l') /\
     l' ≡ₚ [10%Z; 9%Z; 2%Z] /\ Sorted Z.le l') /\
  (forall keys bad,
     decimal_int bad = Raise ValueError ->
     sorted_by_int decimal_int (map str [10%Z; 9%Z; 2%Z] ++ bad :: keys)
       = Raise ValueError).
Proof.
  exact (conj decimal_int_str
           (cities_in_numeric_order decimal_int decimal_int_str
              [10%Z; 9%Z; 2%Z])).
Defined.

(** The dictionary generated from the default arguments, read back with
    its keys in the order of [elements]. *)
Lemma reads_generated_file_witness :
  (forall z, decimal_int (str z) = Ok z) /\
  (forall z, decimal_isdigit (str z) = (0 <=? z)%Z) /\
  exists data g',
    generate_sirn_data counter_normal counter_seed default_args 0%nat
      = Ok (data, g') /\
    elements (dom data) ≡ₚ elements (dom data) /\
    exists time_steps,
      load_lists decimal_int decimal_isdigit (elements (dom data)) data
        = Ok (map str (range (num_cities default_args)), time_steps) /\
      StronglySorted Z.lt time_steps /\
      (forall t, In t time_steps <->
         (0 < num_cities default_args)%Z /\ (0 <= t)%Z /\
         (t = 0%Z \/
          exists time_points,
            make_time_points (max_time default_args)
              (time_step default_args) = Ok time_points /\
            In t time_points)) /\
      (forall time_points,
         make_time_points (max_time default_args) (time_step default_args)
           = Ok time_points ->
         (0 < num_cities default_args)%Z ->
         (0 < time_step default_args)%Z ->
         (0 < max_time default_args)%Z ->
         time_steps = 0%Z :: time_points).
Proof.
  pose proof (generate_sirn_data_ok counter_normal counter_seed default_args
                0%nat valid_default_args I) as Hok.
  destruct (generate_sirn_data counter_normal counter_seed default_args 0%nat)
    as [[data g']|e] eqn:E; [|destruct Hok].
  assert (Hp : elements (dom data) ≡ₚ elements (dom data)) by reflexivity.
  exact (conj decimal_int_str (conj decimal_isdigit_str
           (ex_intro _ data (ex_intro _ g' (conj eq_refl (conj Hp
              (reads_generated_file counter_normal counter_seed decimal_int
                 decimal_isdigit decimal_int_str decimal_isdigit_str
                 default_args 0%nat g' data (elements (dom data))
                 E Hp))))))).
Defined.

(** One city with one data point. *)
Lemma update_data_arrays_outcome_witness :
  let data : gmap string (gmap string (list Q)) :=
    {["0"%string := {["0"%string := [99; 2; 0; 101]]}]} in
  ["0"%string] <> [] /\ [0%Z] <> [] /\
  let short :=
    exists city t rec,
      In city ["0"%string] /\ In t [0%Z] /\
      data !! city ≫= (fun series => series !! str t) = Some rec /\
      (length rec < 3)%nat in
  (short ->
   update_data_arrays ["0"%string] [0%Z] data = Raise IndexError) /\
  (~ short ->
   exists a,
     update_data_arrays ["0"%string] [0%Z] data = Ok (Some a) /\
     Forall (fun a' =>
               length a' = length ["0"%string] /\
               Forall (fun row => length row = length [0%Z]) a')
            [s_data a; i_data a; r_data a]).
Proof.
  intros data.
  assert (H1 : ["0"%string] <> []) by discriminate.
  assert (H2 : [0%Z] <> []) by discriminate.
  exact (conj H1 (conj H2
           (update_data_arrays_outcome data ["0"%string] [0%Z] H1 H2))).
Defined.


(** The first data point given to a new visualizer. *)
Lemma add_data_point_effect_witness :
  exists v',
    add_data_point decimal_int (CityInt 0) 0 [99; 2; 0; 101] new_visualizer
      = Returns v' /\
    data v' !! str_id (CityInt 0) ≫= (fun series => series !! str 0)
      = Some [99; 2; 0; 101] /\
    time_steps v' !! current_time_idx v' = Some 0%Z /\
    (In 0%Z (time_steps new_visualizer) ->
     time_steps v' = time_steps new_visualizer /\
     heat_data v' = heat_data new_visualizer) /\
    (~ In 0%Z (time_steps new_visualizer) ->
     time_steps v' = merge_sort Z.le (time_steps new_visualizer ++ [0%Z]) /\
     exists a,
       update_data_arrays (cities v') (time_steps v') (data v') = Ok a /\
       heat_data v' = match a with
                      | Some a' => Some a'
                      | None => heat_data new_visualizer
                      end).
Proof.
  destruct (add_data_point decimal_int (CityInt 0) 0 [99; 2; 0; 101]
              new_visualizer) as [v'| |] eqn:E;
    [|vm_compute in E; discriminate..].
  exact (ex_intro _ v' (conj eq_refl
           (add_data_point_effect decimal_int (CityInt 0) 0 [99; 2; 0; 101]
              new_visualizer v' E))).
Defined.

(** Two integer identifiers given to a new visualizer. *)
Lemma initialize_effect_witness :
  [CityInt 1; CityInt 0] <> [] /\
  exists v',
    initialize decimal_int [CityInt 1; CityInt 0] new_visualizer
      = Returns v' /\
    data v' = data new_visualizer /\
    time_steps v' = time_steps new_visualizer /\
    heat_data v' = heat_data new_visualizer /\
    pie_axes v' = length (cities v') /\ scroll_pos v' = 0 /\
    Sorted (by_int_key decimal_int) (cities v') /\
    (forall s, In s (cities v') <->
       In s (cities new_visualizer) \/
       exists id, In id [CityInt 1; CityInt 0] /\ s = str_id id) /\
    ((forall id, In id [CityInt 1; CityInt 0] -> exists s, id = CityStr s) ->
     List.NoDup (cities new_visualizer) -> List.NoDup (cities v')) /\
    ((forall id, In id [CityInt 1; CityInt 0] -> exists z, id = CityInt z) ->
     cities v' ≡ₚ cities new_visualizer
                  ++ map str_id [CityInt 1; CityInt 0]).
Proof.
  assert (H1 : [CityInt 1; CityInt 0] <> []) by discriminate.
  destruct (initialize decimal_int [CityInt 1; CityInt 0] new_visualizer)
    as [v'| |] eqn:E; [|vm_compute in E; discriminate..].
  exact (conj H1 (ex_intro _ v' (conj eq_refl
           (initialize_effect decimal_int [CityInt 1; CityInt 0]
              new_visualizer v' E H1)))).
Defined.


